(** * scphylo: conflict-free check and pairwise tree scores

    A shallow embedding of [scphylo/ul/_utils.py] (the two conflict-free
    checkers) and [scphylo/tl/score/_ours.py] (the scores [gs], [ad], [dl],
    [cc], [mltd], [tpted]), with the properties the specification states
    about them. *)

From Stdlib Require Import String Ascii.
From Stdlib Require Import List ZArith Lia Bool Arith Permutation Sorted.
From Stdlib Require Import Orders Mergesort QArith Lqa.
From Stdlib Require OrderedTypeEx.
Import ListNotations.

Local Open Scope Z_scope.
Local Open Scope nat_scope.

(** ** NumPy arrays

    A two-dimensional integer array: its shape and its rows.  [get a i j] is
    [a[i, j]].  The loops of the source run over [range(a.shape[0])] and
    [range(a.shape[1])], so every definition below reads the array through
    its shape and [get]. *)

Record ndarray := mk_ndarray {
  shape0 : nat;
  shape1 : nat;
  data : list (list Z)
}.

Definition get (a : ndarray) (i j : nat) : Z :=
  nth j (nth i (data a) []) 0%Z.

(** The array is what its shape says: [shape0] rows of [shape1] entries. *)
Definition wf_ndarray_b (a : ndarray) : bool :=
  (length (data a) =? shape0 a) &&
  forallb (fun r => length r =? shape1 a) (data a).

(** [np.array(rows)] for a non-empty list of rows. *)
Definition array (rows : list (list Z)) : ndarray :=
  {| shape0 := length rows;
     shape1 := length (hd [] rows);
     data := rows |}.

(** [a.ravel()]: the entries in row-major order. *)
Definition ravel (a : ndarray) : list Z :=
  flat_map (fun i => map (fun j => get a i j) (seq 0 (shape1 a)))
           (seq 0 (shape0 a)).

(** [a[:, j]]. *)
Definition column (a : ndarray) (j : nat) : list Z :=
  map (fun i => get a i j) (seq 0 (shape0 a)).

(** [np.transpose(a)]. *)
Definition transpose (a : ndarray) : ndarray :=
  {| shape0 := shape1 a;
     shape1 := shape0 a;
     data := map (column a) (seq 0 (shape1 a)) |}.

(** [a[idx]]: the rows of [a] at the positions [idx]. *)
Definition take_rows (a : ndarray) (idx : list nat) : ndarray :=
  {| shape0 := length idx;
     shape1 := shape1 a;
     data := map (fun i => nth i (data a) []) idx |}.

(** [a[np.ix_(rho, sigma)]]: rows [rho] and columns [sigma] of [a]. *)
Definition take (a : ndarray) (rho sigma : list nat) : ndarray :=
  {| shape0 := length rho;
     shape1 := length sigma;
     data := map (fun i => map (fun j => get a i j) sigma) rho |}.

(** [np.unique]: the sorted distinct values, for the comparison [cmp] of
    the element type. *)
Fixpoint insert_uniq {A : Type} (cmp : A -> A -> comparison) (x : A)
  (l : list A) : list A :=
  match l with
  | [] => [x]
  | y :: t =>
      match cmp x y with
      | Lt => x :: l
      | Eq => l
      | Gt => y :: insert_uniq cmp x t
      end
  end.

Definition sort_uniq {A : Type} (cmp : A -> A -> comparison) (l : list A)
  : list A :=
  fold_right (insert_uniq cmp) [] l.

Definition np_unique (l : list Z) : list Z := sort_uniq Z.compare l.

(** [np.array_equal] of two one-dimensional arrays. *)
Definition array_equal (u v : list Z) : bool :=
  if list_eq_dec Z.eq_dec u v then true else false.

(** [np.sum] of a one-dimensional array.  The sum is the integer sum as
    long as [int64] holds it, as with entries 0 and 1. *)
Definition np_sum (l : list Z) : Z := fold_right Z.add 0%Z l.

(** ** Data frames

    A pandas [DataFrame]: row labels ([index], the cells), column labels
    ([columns], the mutations) and the values. *)

Record DataFrame := mk_DataFrame {
  index : list string;
  columns : list string;
  values : ndarray
}.

(** [df.astype(int).values] on a frame of integers that [int64] holds,
    which the cast leaves as they are. *)
Definition astype_int_values (df : DataFrame) : ndarray := values df.

(** ** The pairwise checker *)

(** The flag loop over the rows [r]: some row has [D[r, p] == x] and
    [D[r, q] == y]. *)
Definition row_pattern (D : ndarray) (p q : nat) (x y : Z) : bool :=
  existsb (fun r => (get D r p =? x)%Z && (get D r q =? y)%Z)
          (seq 0 (shape0 D)).

Definition is_conflict_free (df_in : DataFrame) : bool :=
  let D := astype_int_values df_in in
  if negb (array_equal (np_unique (ravel D)) [0%Z; 1%Z]) then false
  else
    forallb (fun p =>
      forallb (fun q =>
        let oneone := row_pattern D p q 1 1 in
        let zeroone := row_pattern D p q 0 1 in
        let onezero := row_pattern D p q 1 0 in
        negb (oneone && zeroone && onezero))
        (seq (p + 1) (shape1 D - (p + 1))))
      (seq 0 (shape1 D)).

(** ** Gusfield's checker *)

(** The order of [np.argsort] on the [np.void] view of a row: the bytes of
    the row are compared from the first one on.  The view is only taken
    after the guard, on rows of equal length whose entries are 0 or 1, where
    comparing bytes is comparing entries from the first one on. *)
Fixpoint lex_leb (u v : list Z) : bool :=
  match u, v with
  | [], _ => true
  | _ :: _, [] => false
  | x :: u', y :: v' => (x <? y)%Z || ((x =? y)%Z && lex_leb u' v')
  end.

Lemma lex_leb_total : forall u v, lex_leb u v = true \/ lex_leb v u = true.
Proof.
  induction u as [|x u IH]; intros [|y v]; simpl; auto.
  destruct (IH v) as [H|H]; rewrite H;
    destruct (Z.ltb_spec x y), (Z.ltb_spec y x), (Z.eqb_spec x y),
             (Z.eqb_spec y x); simpl; auto; lia.
Qed.

Module RowOrder <: TotalLeBool.
Definition t := (nat * list Z)%type.
Definition leb (x y : t) : bool := lex_leb (snd x) (snd y).
Lemma leb_total : forall x y, leb x y = true \/ leb y x = true.
Proof. intros x y. apply lex_leb_total. Qed.
End RowOrder.

Module RowSort := Sort RowOrder.

(** [np.argsort(b_view.ravel())]: the positions of the rows of [b] in
    ascending order.  Rows that compare equal are equal, so the array
    [b[idx]] does not depend on how the sort orders them. *)
Definition argsort (b : list (list Z)) : list nat :=
  map fst (RowSort.sort (combine (seq 0 (length b)) b)).

Definition sort_bin (a : ndarray) : ndarray * list nat :=
  let b := transpose a in
  let idx := rev (argsort (data b)) in
  let c := take_rows b idx in
  (transpose c, idx).

(** The inner loop over [j] that fills row [i] of [Lij], carrying [maxK]. *)
Fixpoint Lij_row (O_mtr : ndarray) (i : nat) (js : list nat) (maxK : nat)
  : list nat :=
  match js with
  | [] => []
  | j :: js' =>
      if (get O_mtr i j =? 1)%Z
      then maxK :: Lij_row O_mtr i js' (j + 1)
      else 0 :: Lij_row O_mtr i js' maxK
  end.

Definition fill_Lij (O_mtr : ndarray) : list (list nat) :=
  map (fun i => Lij_row O_mtr i (seq 0 (shape1 O_mtr)) 0)
      (seq 0 (shape0 O_mtr)).

(** [np.amax(Lij, axis=0)].  The entries of [Lij] are not negative and the
    guard leaves no array without rows, so the maximum of a column is its
    fold from 0. *)
Definition amax_axis0 (Lij : list (list nat)) (m : nat) : list nat :=
  map (fun j => fold_right Nat.max 0 (map (fun row => nth j row 0) Lij))
      (seq 0 m).

(** The last two loops: every 1 of [O_mtr] has [Lij[i, j] == Lj[j]]. *)
Definition gusfield_check (O_mtr : ndarray) : bool :=
  let Lij := fill_Lij O_mtr in
  let Lj := amax_axis0 Lij (shape1 O_mtr) in
  forallb (fun i =>
    forallb (fun j =>
      if (get O_mtr i j =? 1)%Z
      then nth j (nth i Lij []) 0 =? nth j Lj 0
      else true)
      (seq 0 (shape1 O_mtr)))
    (seq 0 (shape0 O_mtr)).

Definition is_conflict_free_gusfield (df_in : DataFrame) : bool :=
  let I_mtr := astype_int_values df_in in
  if negb (array_equal (np_unique (ravel I_mtr)) [0%Z; 1%Z]) then false
  else
    let Ip := I_mtr in
    let '(O_mtr, _) := sort_bin Ip in
    gusfield_check O_mtr.

(** ** Python results

    A call returns a value or raises. *)

Inductive exn :=
| ZeroDivisionError
| KeyError (label : string)
| ReferenceError
| LoggError (msg : string)
| ToolError (msg : string).

Definition result (A : Type) : Type := (exn + A)%type.

Definition ok {A : Type} (x : A) : result A := inr x.
Definition raise {A : Type} (e : exn) : result A := inl e.

Definition bind {A B : Type} (c : result A) (k : A -> result B) : result B :=
  match c with
  | inl e => inl e
  | inr x => k x
  end.

Notation "x <- c ;; k" := (bind c (fun x => k))
  (at level 61, c at next level, right associativity).
Notation "c ;;; k" := (bind c (fun _ => k))
  (at level 61, right associativity).

(** Modelled from the spec: [scphylo.logg.error] is not among the sources.
    The spec has the scores abort where the source calls it ("an empty
    intersection aborts the computation rather than returning a degenerate
    score"; "EmptyIntersection (no shared mutations/cells — aborts without a
    score)"), so the call raises and nothing after it runs. *)
Definition logg_error {A : Type} (msg : string) : result A :=
  raise (LoggError msg).

(** The scores are floats.  A finite float is modelled by the rational it
    rounds; the two other values NumPy's division can give are kept apart. *)
Inductive float64 :=
| finite (q : Q)
| nan
| inf (negative : bool).

(** [a / b] on Python integers. *)
Definition py_truediv (a b : Z) : result float64 :=
  if (b =? 0)%Z then raise ZeroDivisionError
  else ok (finite (inject_Z a / inject_Z b)).

(** [a / b] where [a] is a NumPy integer: division by zero warns and gives
    [nan] or an infinity. *)
Definition np_truediv (a b : Z) : float64 :=
  if (b =? 0)%Z
  then (if (a =? 0)%Z then nan else inf (a <? 0)%Z)
  else finite (inject_Z a / inject_Z b).

(** [1 - x]. *)
Definition one_minus (x : float64) : float64 :=
  match x with
  | finite q => finite (1 - q)
  | nan => nan
  | inf s => inf (negb s)
  end.

(** ** Labels *)

Definition in_labels (a : string) (l : list string) : bool :=
  existsb (String.eqb a) l.

(** [np.intersect1d], [np.union1d], [np.setdiff1d]: sorted, distinct. *)
Definition intersect1d (a b : list string) : list string :=
  sort_uniq String.compare (filter (fun x => in_labels x b) a).

Definition union1d (a b : list string) : list string :=
  sort_uniq String.compare (a ++ b).

Definition setdiff1d (a b : list string) : list string :=
  sort_uniq String.compare (filter (fun x => negb (in_labels x b)) a).

(** [Index.get_loc]: the position of a label. *)
Fixpoint get_loc (labels : list string) (a : string) : option nat :=
  match labels with
  | [] => None
  | b :: t =>
      if String.eqb a b then Some 0
      else option_map S (get_loc t a)
  end.

Fixpoint get_indexer (labels keys : list string) : result (list nat) :=
  match keys with
  | [] => ok []
  | k :: ks =>
      match get_loc labels k with
      | None => raise (KeyError k)
      | Some i => rest <- get_indexer labels ks ;; ok (i :: rest)
      end
  end.

(** The frames of the spec: unique cell and mutation identifiers, and values
    of the shape the labels give. *)
Fixpoint unique_labels (l : list string) : bool :=
  match l with
  | [] => true
  | x :: t => negb (in_labels x t) && unique_labels t
  end.

Definition wf_df_b (df : DataFrame) : bool :=
  unique_labels (index df) &&
  unique_labels (columns df) &&
  (shape0 (values df) =? length (index df)) &&
  (shape1 (values df) =? length (columns df)) &&
  wf_ndarray_b (values df).

Definition wf_df (df : DataFrame) : Prop := wf_df_b df = true.

(** [df[keys]]: the columns labelled [keys], in that order. *)
Definition getitem (df : DataFrame) (keys : list string) : result DataFrame :=
  cols <- get_indexer (columns df) keys ;;
  ok {| index := index df;
        columns := keys;
        values := take (values df) (seq 0 (shape0 (values df))) cols |}.

(** [df.loc[cells, muts]]. *)
Definition loc (df : DataFrame) (cells muts : list string)
  : result DataFrame :=
  rows <- get_indexer (index df) cells ;;
  cols <- get_indexer (columns df) muts ;;
  ok {| index := cells;
        columns := muts;
        values := take (values df) rows cols |}.

(** ** Scores *)

(** [x * y] and [x - y] on arrays of one shape: the integer product and
    difference, as long as [int64] holds them, as with entries 0 and 1. *)
Definition np_mul (u v : list Z) : list Z :=
  map (fun p => (fst p * snd p)%Z) (combine u v).

Definition np_sub (a b : ndarray) : ndarray :=
  {| shape0 := shape0 a;
     shape1 := shape1 a;
     data := map (fun i => map (fun j => (get a i j - get b i j)%Z)
                               (seq 0 (shape1 a)))
                 (seq 0 (shape0 a)) |}.

(** [np.abs(a).sum()] and [a.size]. *)
Definition abs_sum (a : ndarray) : Z := np_sum (map Z.abs (ravel a)).
Definition size (a : ndarray) : nat := shape0 a * shape1 a.

Definition gs (df_grnd df_sol : DataFrame) : result float64 :=
  let muts := intersect1d (columns df_grnd) (columns df_sol) in
  let cells := intersect1d (index df_grnd) (index df_sol) in
  (if length muts =? 0
   then logg_error "No common mutations found between two trees!"
   else ok tt) ;;;
  (if length cells =? 0
   then logg_error "No common cells found between two trees!"
   else ok tt) ;;;
  grnd <- loc df_grnd cells muts ;;
  sol <- loc df_sol cells muts ;;
  let M_grnd := values grnd in
  let M_sol := values sol in
  ok (one_minus (np_truediv (abs_sum (np_sub M_grnd M_sol))
                            (Z.of_nat (size M_grnd)))).

(** The pairs [(i, j)] of [for i in range(m): for j in range(i, m)], in
    the order the loops visit them. *)
Definition upper_pairs (m : nat) : list (nat * nat) :=
  flat_map (fun i => map (fun j => (i, j)) (seq i (m - i))) (seq 0 m).

(** [np.sum(M[:, j])]. *)
Definition colsum (M : ndarray) (j : nat) : Z := np_sum (column M j).

(** One pass of the body of the loops of [ad], on the state
    [(error_pairs, n_adpairs)]. *)
Definition ad_step (M_grnd M_sol : ndarray)
  (st : list (nat * nat) * nat) (ij : nat * nat) : list (nat * nat) * nat :=
  let '(error_pairs, n_adpairs) := st in
  let '(i, j) := ij in
  let cap1 := np_mul (column M_grnd i) (column M_grnd j) in
  let cap2 := np_mul (column M_sol i) (column M_sol j) in
  if (np_sum cap1 >? 0)%Z && negb (colsum M_grnd i =? colsum M_grnd j)%Z
  then
    let n_adpairs := n_adpairs + 1 in
    if (np_sum cap2 =? 0)%Z
    then (error_pairs ++ [(i, j)], n_adpairs)
    else if (colsum M_grnd j >? colsum M_grnd i)%Z
            && (colsum M_sol j <=? colsum M_sol i)%Z
    then (error_pairs ++ [(i, j)], n_adpairs)
    else if (colsum M_grnd i >? colsum M_grnd j)%Z
            && (colsum M_sol i <=? colsum M_sol j)%Z
    then (error_pairs ++ [(i, j)], n_adpairs)
    else (error_pairs, n_adpairs)
  else (error_pairs, n_adpairs).

Definition ad_loop (M_grnd M_sol : ndarray) : list (nat * nat) * nat :=
  fold_left (ad_step M_grnd M_sol) (upper_pairs (shape1 M_grnd)) ([], 0).

Definition ad (df_grnd df_sol : DataFrame) : result float64 :=
  let inter := intersect1d (columns df_grnd) (columns df_sol) in
  (if length inter =? 0
   then logg_error "No common mutations found between two trees!"
   else ok tt) ;;;
  grnd <- getitem df_grnd inter ;;
  sol <- getitem df_sol inter ;;
  let M_grnd := values grnd in
  let M_sol := values sol in
  let '(error_pairs, n_adpairs) := ad_loop M_grnd M_sol in
  q <- py_truediv (Z.of_nat (length error_pairs)) (Z.of_nat n_adpairs) ;;
  ok (one_minus q).

(** One pass of the body of the loops of [dl], on the state
    [(n_dlpairs1, n_dlpairs2)]. *)
Definition dl_step (M_grnd M_sol : ndarray)
  (st : nat * nat) (ij : nat * nat) : nat * nat :=
  let '(n_dlpairs1, n_dlpairs2) := st in
  let '(i, j) := ij in
  let cap1 := np_mul (column M_grnd i) (column M_grnd j) in
  let cap2 := np_mul (column M_sol i) (column M_sol j) in
  if (np_sum cap1 =? 0)%Z
     && negb (colsum M_grnd i =? 0)%Z
     && negb (colsum M_grnd j =? 0)%Z
  then
    let n_dlpairs1 := n_dlpairs1 + 1 in
    if (np_sum cap2 =? 0)%Z
       && negb (colsum M_sol i =? 0)%Z
       && negb (colsum M_sol j =? 0)%Z
    then (n_dlpairs1, n_dlpairs2 + 1)
    else (n_dlpairs1, n_dlpairs2)
  else (n_dlpairs1, n_dlpairs2).

Definition dl_loop (M_grnd M_sol : ndarray) : nat * nat :=
  fold_left (dl_step M_grnd M_sol) (upper_pairs (shape1 M_grnd)) (0, 0).

Definition dl (df_grnd df_sol : DataFrame) : result float64 :=
  let inter := intersect1d (columns df_grnd) (columns df_sol) in
  (if length inter =? 0
   then logg_error "No common mutations found between two trees!"
   else ok tt) ;;;
  grnd <- getitem df_grnd inter ;;
  sol <- getitem df_sol inter ;;
  let M_grnd := values grnd in
  let M_sol := values sol in
  let '(n_dlpairs1, n_dlpairs2) := dl_loop M_grnd M_sol in
  py_truediv (Z.of_nat n_dlpairs2) (Z.of_nat n_dlpairs1).

(** [cc] returns [None]. *)
Definition cc (df_grnd df_sol : DataFrame) : result (option float64) :=
  let inter := intersect1d (columns df_grnd) (columns df_sol) in
  (if length inter =? 0
   then logg_error "No common mutations found between two trees!"
   else ok tt) ;;;
  grnd <- getitem df_grnd inter ;;
  sol <- getitem df_sol inter ;;
  ok None.

(** ** The caller's frames

    A frame is passed by reference: the store holds the caller's frames and
    a reference is a position in it.  A call runs on the store and leaves
    the store it has written, also when it raises. *)

Definition ref := nat.
Definition heap := list DataFrame.
Definition M (A : Type) : Type := heap -> heap * result A.

Definition ret {A : Type} (x : A) : M A := fun h => (h, ok x).

Definition lift {A : Type} (c : result A) : M A := fun h => (h, c).

Definition bindM {A B : Type} (c : M A) (k : A -> M B) : M B :=
  fun h =>
    match c h with
    | (h', inl e) => (h', inl e)
    | (h', inr x) => k x h'
    end.

Notation "x <~ c ;; k" := (bindM c (fun x => k))
  (at level 61, c at next level, right associativity).
Notation "c ~;; k" := (bindM c (fun _ => k))
  (at level 61, right associativity).

(** Reading the frame behind a reference. *)
Definition deref (r : ref) : M DataFrame :=
  fun h =>
    match nth_error h r with
    | Some df => (h, ok df)
    | None => (h, raise ReferenceError)
    end.

Fixpoint store (h : heap) (r : ref) (df : DataFrame) : heap :=
  match h, r with
  | [], _ => []
  | _ :: t, 0 => df :: t
  | x :: t, S r' => x :: store t r' df
  end.

(** [df.columns = cols]: the assignment writes the caller's frame. *)
Definition set_columns (r : ref) (cols : list string) : M unit :=
  fun h =>
    match nth_error h r with
    | Some df =>
        (store h r {| index := index df; columns := cols;
                      values := values df |}, ok tt)
    | None => (h, raise ReferenceError)
    end.

(** A score that only reads its two frames, called on two references. *)
Definition call {A : Type} (f : DataFrame -> DataFrame -> result A)
  (df_grnd df_sol : ref) : M A :=
  g <~ deref df_grnd ;;
  s <~ deref df_sol ;;
  lift (f g s).

(** [s.replace(c, d)] for single characters. *)
Fixpoint replace_char (c d : ascii) (s : string) : string :=
  match s with
  | EmptyString => EmptyString
  | String x t =>
      String (if Ascii.eqb x c then d else x) (replace_char c d t)
  end.

(** [columns.str.replace(":", "_").str.replace("=", "_")]. *)
Definition sanitize_columns (cols : list string) : list string :=
  map (fun s => replace_char "="%char "_"%char
                  (replace_char ":"%char "_"%char s)) cols.

(** ** What the checkers decide

    The notions the properties of the two checkers are stated with. *)

(** Entries that are 0 or 1, with both values present: what the guard of
    both checkers tests. *)
Definition both_values (l : list Z) : Prop :=
  (forall x, In x l -> x = 0%Z \/ x = 1%Z) /\ In 0%Z l /\ In 1%Z l.

(** Columns [p] and [q] conflict when some row reads (1,1), some (1,0) and
    some (0,1) on them. *)
Definition has_row (D : ndarray) (p q : nat) (x y : Z) : Prop :=
  exists r, r < shape0 D /\ get D r p = x /\ get D r q = y.

Definition conflict (D : ndarray) (p q : nat) : Prop :=
  has_row D p q 1 1 /\ has_row D p q 1 0 /\ has_row D p q 0 1.

Definition no_conflict (D : ndarray) : Prop :=
  forall p q, p < shape1 D -> q < shape1 D -> ~ conflict D p q.

(** [Lij[i, j]] and [Lj[j]], as the last two loops read them. *)
Definition Lij_at (O_mtr : ndarray) (i j : nat) : nat :=
  nth j (nth i (fill_Lij O_mtr) []) 0.

Definition Lj_at (O_mtr : ndarray) (j : nat) : nat :=
  nth j (amax_axis0 (fill_Lij O_mtr) (shape1 O_mtr)) 0.

(** What [Lij[i, j]] holds at a 1 of row [i]: one more than the position of
    the nearest earlier 1 of the row, or 0 when there is none. *)
Definition nearest_earlier_one (O_mtr : ndarray) (i j l : nat) : Prop :=
  l <= j /\
  (l = 0 \/ get O_mtr i (l - 1) = 1%Z) /\
  (forall k, l <= k -> k < j -> get O_mtr i k <> 1%Z).

(** For columns [k < j], the rows with a 1 in column [j] either all have a
    1 in column [k] or none has. *)
Definition nested_or_apart (O_mtr : ndarray) : Prop :=
  forall k j, k < j -> j < shape1 O_mtr ->
    (exists i, i < shape0 O_mtr /\
               get O_mtr i k = 1%Z /\ get O_mtr i j = 1%Z) ->
    forall i, i < shape0 O_mtr -> get O_mtr i j = 1%Z -> get O_mtr i k = 1%Z.

(** [df.iloc[rho, sigma]]: the rows at the positions [rho] and the columns
    at the positions [sigma], with their labels. *)
Definition iloc (df : DataFrame) (rho sigma : list nat) : DataFrame :=
  {| index := map (fun i => nth i (index df) EmptyString) rho;
     columns := map (fun j => nth j (columns df) EmptyString) sigma;
     values := take (values df) rho sigma |}.

(** ** What the scores read and count *)

(** The position [get_loc] finds for a label that is there. *)
Definition position (labels : list string) (a : string) : nat :=
  match get_loc labels a with
  | Some i => i
  | None => 0
  end.

(** [df[keys].values] for labels [keys] of [df]. *)
Definition values_of (df : DataFrame) (keys : list string) : ndarray :=
  take (values df) (seq 0 (shape0 (values df)))
       (map (position (columns df)) keys).

(** [df.loc[cells, muts].values] for labels of [df]. *)
Definition values_at (df : DataFrame) (cells muts : list string) : ndarray :=
  take (values df) (map (position (index df)) cells)
       (map (position (columns df)) muts).

(** The identifiers the two frames share. *)
Definition shared_mutations (df_grnd df_sol : DataFrame) : list string :=
  intersect1d (columns df_grnd) (columns df_sol).

Definition shared_cells (df_grnd df_sol : DataFrame) : list string :=
  intersect1d (index df_grnd) (index df_sol).

(** The denominators: [M_grnd.size] in [gs], [n_adpairs] in [ad],
    [n_dlpairs1] in [dl]. *)
Definition gs_size (df_grnd df_sol : DataFrame) : nat :=
  size (values_at df_grnd (shared_cells df_grnd df_sol)
                  (shared_mutations df_grnd df_sol)).

Definition ad_counts (df_grnd df_sol : DataFrame)
  : list (nat * nat) * nat :=
  let inter := shared_mutations df_grnd df_sol in
  ad_loop (values_of df_grnd inter) (values_of df_sol inter).

Definition ad_n_adpairs (df_grnd df_sol : DataFrame) : nat :=
  snd (ad_counts df_grnd df_sol).

Definition dl_counts (df_grnd df_sol : DataFrame) : nat * nat :=
  let inter := shared_mutations df_grnd df_sol in
  dl_loop (values_of df_grnd inter) (values_of df_sol inter).

Definition dl_n_dlpairs1 (df_grnd df_sol : DataFrame) : nat :=
  fst (dl_counts df_grnd df_sol).


(** A frame of 0s and 1s. *)
Definition binary_b (df : DataFrame) : bool :=
  forallb (fun x => (x =? 0)%Z || (x =? 1)%Z) (ravel (values df)).

(** The call raised: it returned no value. *)
Definition raises {A : Type} (c : result A) : Prop :=
  exists e, c = raise e.

(** A frame after [df.columns = df.columns.str.replace(...)]. *)
Definition sanitized (df : DataFrame) : DataFrame :=
  {| index := index df;
     columns := sanitize_columns (columns df);
     values := values df |}.

(** The frame [df[keys]] for labels [keys] of [df]. *)
Definition restrict (df : DataFrame) (keys : list string) : DataFrame :=
  {| index := index df; columns := keys; values := values_of df keys |}.

(** The two tests of the body of [ad] on a pair of positions. *)
Definition ad_counted (M_grnd : ndarray) (ij : nat * nat) : bool :=
  let '(i, j) := ij in
  (np_sum (np_mul (column M_grnd i) (column M_grnd j)) >? 0)%Z
  && negb (colsum M_grnd i =? colsum M_grnd j)%Z.

Definition ad_erred (M_grnd M_sol : ndarray) (ij : nat * nat) : bool :=
  let '(i, j) := ij in
  (np_sum (np_mul (column M_sol i) (column M_sol j)) =? 0)%Z
  || (colsum M_grnd j >? colsum M_grnd i)%Z
     && (colsum M_sol j <=? colsum M_sol i)%Z
  || (colsum M_grnd i >? colsum M_grnd j)%Z
     && (colsum M_sol i <=? colsum M_sol j)%Z.

(** ** The ancestor-descendant score in the words of the specification

    The score of the specification, on sets of cells: for each unordered
    pair of shared mutations, the supporting-cell sets in the ground truth
    and in the candidate. *)

(** The cells (rows) of [df] that carry the mutation [mut]. *)
Definition supporting_cells (df : DataFrame) (mut : string) : list nat :=
  filter (fun r => (get (values df) r (position (columns df) mut) =? 1)%Z)
         (seq 0 (shape0 (values df))).

Definition sets_intersect (A B : list nat) : bool :=
  existsb (fun x => existsb (Nat.eqb x) B) A.

Fixpoint unordered_pairs {A : Type} (l : list A) : list (A * A) :=
  match l with
  | [] => []
  | x :: t => map (fun y => (x, y)) t ++ unordered_pairs t
  end.

(** An ancestor-descendant pair of the ground truth: the supporting sets
    intersect and are unequal in size. *)
Definition ancestor_descendant_pair (df_grnd : DataFrame)
  (ab : string * string) : bool :=
  let G_a := supporting_cells df_grnd (fst ab) in
  let G_b := supporting_cells df_grnd (snd ab) in
  sets_intersect G_a G_b && negb (length G_a =? length G_b).

(** Such a pair is violated when the candidate's sets are disjoint, or the
    side that is larger in the ground truth is smaller or equal in the
    candidate. *)
Definition violated_pair (df_grnd df_sol : DataFrame)
  (ab : string * string) : bool :=
  let G_a := supporting_cells df_grnd (fst ab) in
  let G_b := supporting_cells df_grnd (snd ab) in
  let S_a := supporting_cells df_sol (fst ab) in
  let S_b := supporting_cells df_sol (snd ab) in
  negb (sets_intersect S_a S_b)
  || (length G_a <? length G_b) && (length S_b <=? length S_a)
  || (length G_b <? length G_a) && (length S_a <=? length S_b).

Definition ad_pairs_spec (df_grnd df_sol : DataFrame)
  : list (string * string) :=
  filter (ancestor_descendant_pair df_grnd)
         (unordered_pairs (shared_mutations df_grnd df_sol)).

Definition ad_violated_spec (df_grnd df_sol : DataFrame)
  : list (string * string) :=
  filter (violated_pair df_grnd df_sol) (ad_pairs_spec df_grnd df_sol).

(** 1 - violated / total, and not applicable with no pair. *)
Definition ad_spec (df_grnd df_sol : DataFrame) : option Q :=
  let total := length (ad_pairs_spec df_grnd df_sol) in
  let violated := length (ad_violated_spec df_grnd df_sol) in
  if total =? 0 then None
  else Some (1 - inject_Z (Z.of_nat violated) / inject_Z (Z.of_nat total))%Q.

(** ** The scores that build trees

    The tree builder, the multi-labelled tree mapper, the edit distance and
    the MLTD tool are collaborators outside this core; the two scores are
    stated over them. *)

Section Collaborators.

(** [scp.ul.to_tree], which may fail, and the [become_germline] list it
    leaves in the graph of the tree. *)
Variable Tree : Type.
Variable to_tree : DataFrame -> result Tree.
Variable become_germline : Tree -> list string.

(** [scp.ul.to_mtree], [_split_labels], [_to_apted]. *)
Variable MTree : Type.
Variable to_mtree : Tree -> MTree.
Variable _split_labels : MTree -> MTree -> MTree * MTree.
Variable _to_apted : MTree -> string.

(** [apted.APTED(Tree.from_text(a), Tree.from_text(b))
    .compute_edit_distance()]: a nonnegative integer. *)
Variable compute_edit_distance : string -> string -> nat.

(** The text [_convert_tree_to_mtld_input] writes for a tree, and
    [run_mltd] on two such texts. *)
Variable MLTDResult : Type.
Variable _convert_tree_to_mtld_input : Tree -> string.
Variable run_mltd : string -> string -> option MLTDResult.

(** [mltd] from the intersection on, reading the two frames as the
    assignments to their columns have left them.  The temporary directory
    only holds the two texts, which are handed to [run_mltd] as they are. *)
Definition mltd_trees (df_grnd df_sol : DataFrame) : result MLTDResult :=
  let inter := intersect1d (columns df_grnd) (columns df_sol) in
  (if length inter =? 0
   then logg_error "No common mutations found between two trees!"
   else ok tt) ;;;
  df_grnd1 <- getitem df_grnd inter ;;
  df_sol1 <- getitem df_sol inter ;;
  tree_grnd <- to_tree df_grnd1 ;;
  tree_sol <- to_tree df_sol1 ;;
  let grnd_in := _convert_tree_to_mtld_input tree_grnd in
  let sol_in := _convert_tree_to_mtld_input tree_sol in
  match run_mltd grnd_in sol_in with
  | None => logg_error "MLTD core failed!"
  | Some result => ok result
  end.

Definition mltd (df_grnd df_sol : ref) : M MLTDResult :=
  g <~ deref df_grnd ;;
  set_columns df_grnd (sanitize_columns (columns g)) ~;;
  s <~ deref df_sol ;;
  set_columns df_sol (sanitize_columns (columns s)) ~;;
  g <~ deref df_grnd ;;
  s <~ deref df_sol ;;
  lift (mltd_trees g s).

Definition tpted (df_grnd df_sol : DataFrame) : result float64 :=
  let inter := intersect1d (columns df_grnd) (columns df_sol) in
  (if length inter =? 0
   then logg_error "No common mutations found between two trees!"
   else ok tt) ;;;
  df_grnd1 <- getitem df_grnd inter ;;
  df_sol1 <- getitem df_sol inter ;;
  tree_grnd <- to_tree df_grnd1 ;;
  tree_sol <- to_tree df_sol1 ;;
  let inter :=
    setdiff1d inter
      (union1d (become_germline tree_grnd) (become_germline tree_sol)) in
  df_grnd1 <- getitem df_grnd inter ;;
  df_sol1 <- getitem df_sol inter ;;
  tree_grnd <- to_tree df_grnd1 ;;
  tree_sol <- to_tree df_sol1 ;;
  let mt_grnd := to_mtree tree_grnd in
  let mt_sol := to_mtree tree_sol in
  let '(sl_grnd, sl_sol) := _split_labels mt_grnd mt_sol in
  let apted_grnd := _to_apted sl_grnd in
  let apted_sol := _to_apted sl_sol in
  let ed := compute_edit_distance apted_grnd apted_sol in
  q <- py_truediv (Z.of_nat ed) (2 * (Z.of_nat (length inter) + 1)) ;;
  ok (one_minus q).


(** The shared mutations left once those absorbed by the germline of
    either first tree are removed. *)
Definition remaining_mutations (df_grnd df_sol : DataFrame)
  (tree_grnd tree_sol : Tree) : list string :=
  setdiff1d (shared_mutations df_grnd df_sol)
    (union1d (become_germline tree_grnd) (become_germline tree_sol)).

End Collaborators.

(** ** Frames and collaborators of the examples *)

(** The classic conflict, a chain, and a frame of zeros. *)
Definition classic_conflict : DataFrame :=
  {| index := ["cell1"; "cell2"; "cell3"]%string;
     columns := ["mut1"; "mut2"]%string;
     values := array [[1; 1]; [1; 0]; [0; 1]]%Z |}.

Definition chain_matrix : DataFrame :=
  {| index := ["cell1"; "cell2"; "cell3"]%string;
     columns := ["mut1"; "mut2"]%string;
     values := array [[1; 0]; [1; 1]; [0; 0]]%Z |}.

Definition all_zero : DataFrame :=
  {| index := ["cell1"; "cell2"]%string;
     columns := ["mut1"; "mut2"]%string;
     values := array [[0; 0]; [0; 0]]%Z |}.

(** Three clones, one nested in another. *)
Definition three_clones : DataFrame :=
  {| index := ["cell1"; "cell2"; "cell3"]%string;
     columns := ["mut1"; "mut2"; "mut3"]%string;
     values := array [[1; 1; 0]; [1; 0; 0]; [0; 0; 1]]%Z |}.

(** A candidate for [three_clones] that moves [mut2] to the other clone. *)
Definition three_clones_candidate : DataFrame :=
  {| index := ["cell1"; "cell2"; "cell3"]%string;
     columns := ["mut3"; "mut2"; "mut1"]%string;
     values := array [[0; 0; 1]; [0; 0; 1]; [1; 1; 0]]%Z |}.

(** Two clones of equal size. *)
Definition two_clones : DataFrame :=
  {| index := ["cell1"; "cell2"]%string;
     columns := ["mut1"; "mut2"]%string;
     values := array [[1; 0]; [0; 1]]%Z |}.


(** Two frames whose mutation identifiers differ only in a character that
    [mltd] rewrites. *)
Definition colon_frame : DataFrame :=
  {| index := ["cell1"]%string;
     columns := ["a:b"]%string;
     values := array [[1%Z]] |}.

Definition equals_frame : DataFrame :=
  {| index := ["cell1"]%string;
     columns := ["a=b"]%string;
     values := array [[1%Z]] |}.

(** A ground truth and a candidate that each hold a mutation no cell
    carries: [mut3] in the first, [mut2] in the second. *)
Definition lost_grnd : DataFrame :=
  {| index := ["cell1"; "cell2"; "cell3"]%string;
     columns := ["mut1"; "mut2"; "mut3"]%string;
     values := array [[1; 1; 0]; [1; 0; 0]; [0; 0; 0]]%Z |}.

Definition lost_sol : DataFrame :=
  {| index := ["cell1"; "cell2"; "cell3"]%string;
     columns := ["mut1"; "mut2"; "mut3"]%string;
     values := array [[0; 0; 1]; [0; 0; 1]; [1; 0; 0]]%Z |}.



(** Modelled from the spec: [scp.ul.to_tree] is not among the sources.  The
    spec has the tree builder take a matrix "already certified
    conflict-free" and "fail loudly" on another one; the tree builder of
    the instances refuses a frame that [is_conflict_free_gusfield] rejects,
    and a tree is the frame it was built from. *)
Definition tree_of_frame (df : DataFrame) : result DataFrame :=
  if is_conflict_free_gusfield df then ok df
  else logg_error "The input is not conflict-free!".

(** Further collaborators for the instances: the germline absorbs the
    mutations that no cell carries; the text of a tree lists its mutations,
    each with the cells that carry it; the distance of two texts counts the
    places at which they differ. *)
Definition absent_mutations (t : DataFrame) : list string :=
  filter (fun m => (colsum (values t) (position (columns t) m) =? 0)%Z)
         (columns t).

Definition braces (s : string) : string :=
  ("{" ++ s ++ "}")%string.

Definition cells_text (t : DataFrame) : string :=
  braces
    ("root" ++
     String.concat EmptyString
       (map (fun m =>
               braces
                 (m ++
                  String.concat EmptyString
                    (map braces
                       (filter
                          (fun c =>
                             (get (values t) (position (index t) c)
                                  (position (columns t) m) =? 1)%Z)
                          (index t)))))
            (columns t)))%string.

Fixpoint mismatches (a b : string) : nat :=
  match a, b with
  | EmptyString, _ => String.length b
  | _, EmptyString => String.length a
  | String x a', String y b' =>
      (if Ascii.eqb x y then 0 else 1) + mismatches a' b'
  end.


(** Plainer collaborators: nothing is absorbed by the germline, every tree
    has one text, and the edit distance is 7. *)
Definition nothing_absorbed (t : DataFrame) : list string := [].
Definition both_trees (a b : DataFrame) : DataFrame * DataFrame := (a, b).
Definition bracket_text (t : DataFrame) : string := "{root}"%string.
Definition distance_seven (a b : string) : nat := 7.
Definition mltd_zero (a b : string) : option nat := Some 0.

(** * Further code and examples *)

(** ** Example frames *)

(** ** Frames of floats

    Both checkers start with [df_in.astype(int)].  On a frame of integers
    the cast changes nothing ([astype_int_values]); on a frame of finite
    floats it drops the fractional part of every entry.  Such a frame is
    given by its labels, its shape and its entries, each float being the
    rational it is. *)

Record FloatFrame := mk_FloatFrame {
  float_index : list string;
  float_columns : list string;
  float_shape0 : nat;
  float_shape1 : nat;
  float_data : list (list Q)
}.

(** [df.values[i, j]]. *)
Definition float_get (df : FloatFrame) (i j : nat) : Q :=
  nth j (nth i (float_data df) []) 0%Q.

(** The cast of a float to [int]: its integer part, rounding toward
    zero. *)
Definition trunc (x : Q) : Z := Z.quot (Qnum x) (Zpos (Qden x)).

(** [df.astype(int)]. *)
Definition astype_int (df : FloatFrame) : DataFrame :=
  {| index := float_index df;
     columns := float_columns df;
     values := {| shape0 := float_shape0 df;
                  shape1 := float_shape1 df;
                  data := map (map trunc) (float_data df) |} |}.

(** The integer part of every entry is a value of [int64], so that the
    cast is defined. *)
Definition fits_int64 (df : FloatFrame) : bool :=
  forallb
    (forallb (fun x => (- 2 ^ 63 <=? trunc x)%Z && (trunc x <? 2 ^ 63)%Z))
    (float_data df).

(** A frame with an entry between 0 and 1, and one with the missing-data
    value 3. *)
Definition half_frame : FloatFrame :=
  {| float_index := ["cell1"; "cell2"]%string;
     float_columns := ["mut1"; "mut2"]%string;
     float_shape0 := 2;
     float_shape1 := 2;
     float_data := [[1 # 2; 1]; [1; 0]]%Q |}.

Definition invalid_value : FloatFrame :=
  {| float_index := ["cell1"; "cell2"]%string;
     float_columns := ["mut1"; "mut2"]%string;
     float_shape0 := 2;
     float_shape1 := 2;
     float_data := [[1; 0]; [3; 1]]%Q |}.


(** ** [count_flips] and [infer_rates]

    These index a second array by the shape of the first and divide
    counts, so they can raise [IndexError], [ValueError] (shapes that do
    not broadcast) and [ZeroDivisionError]. *)

Inductive array_exn :=
| IndexError
| ValueError
| PyError (e : exn).

Definition array_result (A : Type) : Type := (array_exn + A)%type.

Definition abind {A B : Type} (c : array_result A)
  (k : A -> array_result B) : array_result B :=
  match c with
  | inl e => inl e
  | inr x => k x
  end.

Notation "x <-- c ;; k" := (abind c (fun x => k))
  (at level 61, c at next level, right associativity).

(** [a[i, j]] with the bounds check of NumPy, for indices that are not
    negative. *)
Definition item (a : ndarray) (i j : nat) : array_result Z :=
  if (i <? shape0 a) && (j <? shape1 a) then inr (get a i j)
  else inl IndexError.

(** [b and c]: [c] is only evaluated when [b] holds. *)
Definition and_then (b : bool) (c : array_result bool)
  : array_result bool :=
  if b then c else inr false.

Definition flips : Type := (nat * nat * nat * nat)%type.

(** The body of the two loops of [count_flips] at the cell [(i, j)], on
    the four counters.  [I_mtr[i, j]] is within the shape the loops run
    over; [O_mtr[i, j]] is read only where the first operand of its [and]
    holds. *)
Definition count_flips_cell (I_mtr O_mtr : ndarray) (na_value : Z)
  (st : flips) (ij : nat * nat) : array_result flips :=
  let '(flips_0_1, flips_1_0, flips_na_0, flips_na_1) := st in
  let '(i, j) := ij in
  c1 <-- and_then (get I_mtr i j =? 0)%Z
           (o <-- item O_mtr i j ;; inr (o =? 1)%Z) ;;
  if c1 then inr (flips_0_1 + 1, flips_1_0, flips_na_0, flips_na_1)
  else
    c2 <-- and_then (get I_mtr i j =? 1)%Z
             (o <-- item O_mtr i j ;; inr (o =? 0)%Z) ;;
    if c2 then inr (flips_0_1, flips_1_0 + 1, flips_na_0, flips_na_1)
    else
      c3 <-- and_then (get I_mtr i j =? na_value)%Z
               (o <-- item O_mtr i j ;; inr (o =? 0)%Z) ;;
      if c3 then inr (flips_0_1, flips_1_0, flips_na_0 + 1, flips_na_1)
      else
        c4 <-- and_then (get I_mtr i j =? na_value)%Z
                 (o <-- item O_mtr i j ;; inr (o =? 1)%Z) ;;
        if c4 then inr (flips_0_1, flips_1_0, flips_na_0, flips_na_1 + 1)
        else inr st.

(** A loop that stops at the first error. *)
Fixpoint foldM {S X : Type} (f : S -> X -> array_result S) (l : list X)
  (st : S) : array_result S :=
  match l with
  | [] => inr st
  | x :: t => st' <-- f st x ;; foldM f t st'
  end.

(** The cells of [for i in range(n): for j in range(m)], in that order. *)
Definition cells (n m : nat) : list (nat * nat) :=
  flat_map (fun i => map (fun j => (i, j)) (seq 0 m)) (seq 0 n).

Definition count_flips (I_mtr O_mtr : ndarray) (na_value : Z)
  : array_result flips :=
  let n := shape0 I_mtr in
  let m := shape1 I_mtr in
  foldM (count_flips_cell I_mtr O_mtr na_value) (cells n m) (0, 0, 0, 0).

(** The length two broadcast axes have together. *)
Definition broadcast (a b : nat) : array_result nat :=
  if a =? b then inr a
  else if a =? 1 then inr b
  else if b =? 1 then inr a
  else inl ValueError.

(** [a[i, j]] for [a] broadcast: an axis of length 1 is read at 0. *)
Definition bget (a : ndarray) (i j : nat) : Z :=
  get a (if shape0 a =? 1 then 0 else i) (if shape1 a =? 1 then 0 else j).

(** [((O_mtr == x) & (I_mtr != na_value)).sum()]. *)
Definition masked_sum (O_mtr I_mtr : ndarray) (x na_value : Z)
  : array_result Z :=
  n <-- broadcast (shape0 O_mtr) (shape0 I_mtr) ;;
  m <-- broadcast (shape1 O_mtr) (shape1 I_mtr) ;;
  inr (Z.of_nat (length (filter
         (fun ij => (bget O_mtr (fst ij) (snd ij) =? x)%Z
                    && negb (bget I_mtr (fst ij) (snd ij) =? na_value)%Z)
         (cells n m)))).

(** A Python division inside array code. *)
Definition py_div (a b : Z) : array_result float64 :=
  match py_truediv a b with
  | inl e => inl (PyError e)
  | inr q => inr q
  end.

Definition infer_rates (I_mtr O_mtr : ndarray) (na_value : Z)
  : array_result (float64 * float64 * float64) :=
  counted <-- count_flips I_mtr O_mtr na_value ;;
  let '(flips_0_1, flips_1_0, flips_na_0, flips_na_1) := counted in
  ones <-- masked_sum O_mtr I_mtr 1 na_value ;;
  let fn_rate := np_truediv (Z.of_nat flips_0_1) ones in
  zeros <-- masked_sum O_mtr I_mtr 0 na_value ;;
  let fp_rate := np_truediv (Z.of_nat flips_1_0) zeros in
  na_rate <-- py_div (Z.of_nat (flips_na_1 + flips_na_0))
                     (Z.of_nat (size I_mtr)) ;;
  inr (fn_rate, fp_rate, na_rate).

(** The tests of [count_flips] on the entries [x] of [I_mtr] and [o] of
    [O_mtr], each after those before it have failed. *)
Definition is_0_1 (x o : Z) : bool := (x =? 0)%Z && (o =? 1)%Z.
Definition is_1_0 (x o : Z) : bool :=
  negb (is_0_1 x o) && (x =? 1)%Z && (o =? 0)%Z.
Definition is_na_0 (na x o : Z) : bool :=
  negb (is_0_1 x o) && negb (is_1_0 x o) && (x =? na)%Z && (o =? 0)%Z.
Definition is_na_1 (na x o : Z) : bool :=
  negb (is_0_1 x o) && negb (is_1_0 x o) && negb (is_na_0 na x o)
  && (x =? na)%Z && (o =? 1)%Z.

(** The number of cells of [I_mtr] that pass a test. *)
Definition count_cells (I_mtr O_mtr : ndarray) (test : Z -> Z -> bool)
  : nat :=
  length (filter (fun ij => test (get I_mtr (fst ij) (snd ij))
                                 (get O_mtr (fst ij) (snd ij)))
                 (cells (shape0 I_mtr) (shape1 I_mtr))).

(** [O_mtr[i, j]] is read at a cell whose entry in [I_mtr] is 0, 1 or
    [na_value]. *)
Definition reads_output (I_mtr : ndarray) (na_value : Z) (ij : nat * nat)
  : bool :=
  let x := get I_mtr (fst ij) (snd ij) in
  (x =? 0)%Z || (x =? 1)%Z || (x =? na_value)%Z.

Definition in_bounds (a : ndarray) (ij : nat * nat) : bool :=
  (fst ij <? shape0 a) && (snd ij <? shape1 a).

(** Input and output of a solver: a 3 stands for a missing entry. *)
Definition noisy_input : ndarray := array [[0; 1; 3]; [1; 3; 0]]%Z.
Definition solved_output : ndarray := array [[1; 1; 0]; [0; 1; 0]]%Z.
Definition one_column : ndarray := array [[1]; [0]]%Z.

(** The counters after a cell whose entries are [x] and [o]. *)
Definition flip_step (I_mtr O_mtr : ndarray) (na_value : Z) (st : flips)
  (ij : nat * nat) : flips :=
  let '(a, b, c, d) := st in
  let x := get I_mtr (fst ij) (snd ij) in
  let o := get O_mtr (fst ij) (snd ij) in
  if is_0_1 x o then (a + 1, b, c, d)
  else if is_1_0 x o then (a, b + 1, c, d)
  else if is_na_0 na_value x o then (a, b, c + 1, d)
  else if is_na_1 na_value x o then (a, b, c, d + 1)
  else (a, b, c, d).

(** A rate between 0 and 1, and one that may also be [nan]. *)
Definition in_unit (x : float64) : Prop :=
  match x with
  | finite q => (0 <= q <= 1)%Q
  | _ => False
  end.

Definition in_unit_or_nan (x : float64) : Prop :=
  match x with
  | finite q => (0 <= q <= 1)%Q
  | nan => True
  | inf _ => False
  end.

(** An array without rows. *)
Definition no_rows : ndarray := {| shape0 := 0; shape1 := 3; data := [] |}.

(** Every entry of the array is 0 or 1. *)
Definition binary_array_b (a : ndarray) : bool :=
  forallb (fun x => (x =? 0)%Z || (x =? 1)%Z) (ravel a).

(** ** Labels that [mltd] rewrites *)

(** [c in s]. *)
Fixpoint has_char (c : ascii) (s : string) : bool :=
  match s with
  | EmptyString => false
  | String x t => Ascii.eqb x c || has_char c t
  end.

(** No label holds [":"] or ["="]. *)
Definition clean_labels (cols : list string) : bool :=
  forallb (fun s => negb (has_char ":"%char s) && negb (has_char "="%char s))
          cols.

(** ** The different-lineage score on sets of cells *)

(** The supporting-cell sets of the two mutations are disjoint and
    neither is empty. *)
Definition different_lineage_pair (df : DataFrame) (ab : string * string)
  : bool :=
  let A := supporting_cells df (fst ab) in
  let B := supporting_cells df (snd ab) in
  negb (sets_intersect A B) && negb (length A =? 0)
  && negb (length B =? 0).

Definition dl_pairs_sets (df_grnd df_sol : DataFrame)
  : list (string * string) :=
  filter (different_lineage_pair df_grnd)
         (unordered_pairs (shared_mutations df_grnd df_sol)).

Definition dl_kept_sets (df_grnd df_sol : DataFrame)
  : list (string * string) :=
  filter (different_lineage_pair df_sol) (dl_pairs_sets df_grnd df_sol).

(** The test of the body of [dl] on a pair of positions of one array. *)
Definition dl_counted (M : ndarray) (ij : nat * nat) : bool :=
  (np_sum (np_mul (column M (fst ij)) (column M (snd ij))) =? 0)%Z
  && negb (colsum M (fst ij) =? 0)%Z
  && negb (colsum M (snd ij) =? 0)%Z.

(** ** The order of labels *)

(** The order [np.intersect1d] sorts labels by. *)
Definition string_lt : string -> string -> Prop :=
  OrderedTypeEx.String_as_OT.lt.

(** ** [split_mut] *)

(** [s.startswith(p)]. *)
Fixpoint starts_with (p s : string) : bool :=
  match p, s with
  | EmptyString, _ => true
  | String _ _, EmptyString => false
  | String a p', String b s' => Ascii.eqb a b && starts_with p' s'
  end.

(** [s.split(sep)] for a separator that is not empty: the occurrences of
    [sep] are found from the left and do not overlap.  [skip] counts the
    characters of a found separator still to pass, [cur] is the piece
    read so far. *)
Fixpoint split_from (sep : string) (skip : nat) (cur : string) (s : string)
  : list string :=
  match s with
  | EmptyString => [cur]
  | String c t =>
      match skip with
      | S k => split_from sep k cur t
      | 0 =>
          if starts_with sep s
          then cur :: split_from sep (String.length sep - 1) EmptyString t
          else split_from sep 0 (cur ++ String c EmptyString)%string t
      end
  end.

Definition split (sep s : string) : list string :=
  split_from sep 0 EmptyString s.

(** [l[i]] and [l[-k]] (for [k >= 1]): [None] stands for [IndexError]. *)
Definition py_item {A : Type} (l : list A) (i : nat) : option A :=
  nth_error l i.

Definition py_item_from_end {A : Type} (l : list A) (k : nat) : option A :=
  if k <=? length l then nth_error l (length l - k) else None.

Definition obind {A B : Type} (c : option A) (k : A -> option B)
  : option B :=
  match c with
  | Some x => k x
  | None => None
  end.

Notation "x <-? c ;; k" := (obind c (fun x => k))
  (at level 61, c at next level, right associativity).

Definition mut_fields : Type :=
  (option string * option string * option string
   * option string * option string * option string)%type.

Definition split_mut (mut : string) : mut_fields :=
  let attempt :=
    ref <-? py_item_from_end (split "." mut) 2 ;;
    pos <-? py_item_from_end (split "." mut) 3 ;;
    chrom <-? py_item_from_end (split "." mut) 4 ;;
    head <-? py_item (split ".chr" mut) 0 ;;
    gene <-? py_item (split "_" head) 1 ;;
    head' <-? py_item (split ".chr" mut) 0 ;;
    ens <-? py_item (split "_" head') 0 ;;
    alt <-? py_item_from_end (split "." mut) 1 ;;
    Some (ens, gene, chrom, pos, ref, alt) in
  match attempt with
  | Some (ens, gene, chrom, pos, ref, alt) =>
      (Some ens, Some gene, Some chrom, Some pos, Some ref, Some alt)
  | None => (None, None, None, None, None, None)
  end.

(** The number of occurrences of a character. *)
Fixpoint count_char (c : ascii) (s : string) : nat :=
  match s with
  | EmptyString => 0
  | String x t => (if Ascii.eqb x c then 1 else 0) + count_char c t
  end.
(** * Properties *)

(** ** Lists and arrays *)

Lemma nth_map_seq {A : Type} (f : nat -> A) (s n i : nat) (d : A) :
  i < n -> nth i (map f (seq s n)) d = f (s + i).
Proof.
  revert s i. induction n as [|n IH]; intros s i Hi; [lia|].
  destruct i as [|i]; simpl.
  - f_equal. lia.
  - rewrite IH by lia. f_equal. lia.
Qed.

Lemma nth_map_in {A B : Type} (f : A -> B) (l : list A) (i : nat)
  (d : B) (d' : A) :
  i < length l -> nth i (map f l) d = f (nth i l d').
Proof.
  revert i. induction l as [|x l IH]; intros [|i] Hi; simpl in *;
    try lia; auto.
  apply IH. lia.
Qed.

Lemma get_transpose (a : ndarray) (i j : nat) :
  i < shape1 a -> j < shape0 a -> get (transpose a) i j = get a j i.
Proof.
  intros Hi Hj. unfold get at 1, transpose, column. simpl.
  rewrite (nth_map_seq _ 0 (shape1 a) i []) by assumption.
  rewrite (nth_map_seq _ 0 (shape0 a) j 0%Z) by assumption.
  reflexivity.
Qed.

Lemma get_take (a : ndarray) (rho sigma : list nat) (i j : nat) :
  i < length rho -> j < length sigma ->
  get (take a rho sigma) i j = get a (nth i rho 0) (nth j sigma 0).
Proof.
  intros Hi Hj. unfold get at 1, take. simpl.
  rewrite (nth_map_in _ rho i [] 0) by assumption.
  rewrite (nth_map_in _ sigma j 0%Z 0) by assumption.
  reflexivity.
Qed.

(** A permutation of [range(n)], read by position, maps [range(n)] onto
    itself. *)
Lemma perm_range_lt (l : list nat) (n i : nat) :
  Permutation l (seq 0 n) -> i < n -> nth i l 0 < n.
Proof.
  intros HP Hi.
  assert (Hlen : length l = n)
    by (rewrite (Permutation_length HP); apply length_seq).
  assert (Hin : In (nth i l 0) l) by (apply nth_In; lia).
  apply (Permutation_in _ HP), in_seq in Hin. lia.
Qed.

Lemma perm_range_onto (l : list nat) (n k : nat) :
  Permutation l (seq 0 n) -> k < n -> exists i, i < n /\ nth i l 0 = k.
Proof.
  intros HP Hk.
  assert (Hlen : length l = n)
    by (rewrite (Permutation_length HP); apply length_seq).
  assert (Hin : In k l).
  { apply (Permutation_in _ (Permutation_sym HP)), in_seq. lia. }
  destruct (In_nth l k 0 Hin) as [i [Hi Hnth]].
  exists i. split; [lia | exact Hnth].
Qed.

Lemma perm_range_length (l : list nat) (n : nat) :
  Permutation l (seq 0 n) -> length l = n.
Proof.
  intros HP. rewrite (Permutation_length HP). apply length_seq.
Qed.

(** ** [np.unique] *)

Lemma in_insert_uniq_Z (x y : Z) (l : list Z) :
  In y (insert_uniq Z.compare x l) <-> y = x \/ In y l.
Proof.
  induction l as [|z l IH]; simpl.
  - intuition.
  - destruct (Z.compare_spec x z) as [E|E|E]; simpl.
    + subst. intuition.
    + intuition.
    + rewrite IH. intuition.
Qed.

Lemma in_np_unique (y : Z) (l : list Z) : In y (np_unique l) <-> In y l.
Proof.
  unfold np_unique, sort_uniq.
  induction l as [|x l IH]; simpl; [reflexivity|].
  rewrite in_insert_uniq_Z, IH. intuition.
Qed.

Lemma insert_uniq_sorted (x : Z) (l : list Z) :
  StronglySorted Z.lt l -> StronglySorted Z.lt (insert_uniq Z.compare x l).
Proof.
  induction 1 as [|z l HS IH HF]; simpl.
  - constructor; constructor.
  - destruct (Z.compare_spec x z) as [E|E|E].
    + constructor; assumption.
    + constructor; [constructor; assumption|].
      constructor; [assumption|].
      eapply Forall_impl; [|exact HF]. simpl. intros; lia.
    + constructor; [assumption|].
      apply Forall_forall. intros y Hy.
      apply in_insert_uniq_Z in Hy. destruct Hy as [->|Hy]; [assumption|].
      rewrite Forall_forall in HF. auto.
Qed.

Lemma np_unique_sorted (l : list Z) : StronglySorted Z.lt (np_unique l).
Proof.
  unfold np_unique, sort_uniq.
  induction l as [|x l IH]; simpl; [constructor|].
  apply insert_uniq_sorted, IH.
Qed.

(** A strictly increasing list whose members are exactly 0 and 1. *)
Lemma sorted_zero_one (u : list Z) :
  StronglySorted Z.lt u ->
  (forall x, In x u <-> x = 0%Z \/ x = 1%Z) ->
  u = [0%Z; 1%Z].
Proof.
  intros HS Hin.
  destruct u as [|a u]; [exfalso; apply (Hin 0%Z); auto|].
  inversion HS as [|? ? HSu HFa]; subst.
  rewrite Forall_forall in HFa.
  assert (Ha : a = 0%Z).
  { destruct (proj1 (Hin a) (or_introl eq_refl)) as [->| ->]; [reflexivity|].
    destruct (proj2 (Hin 0%Z) (or_introl eq_refl)) as [E|E]; [lia|].
    specialize (HFa _ E). lia. }
  subst a.
  destruct u as [|b u].
  { destruct (proj2 (Hin 1%Z) (or_intror eq_refl)) as [E|[]]. lia. }
  inversion HSu as [|? ? HSu' HFb]; subst.
  rewrite Forall_forall in HFb.
  assert (Hb : b = 1%Z).
  { destruct (proj1 (Hin b) (or_intror (or_introl eq_refl))) as [->| ->];
      [|reflexivity].
    specialize (HFa 0%Z (or_introl eq_refl)). lia. }
  subst b.
  destruct u as [|c u]; [reflexivity|].
  exfalso.
  specialize (HFb c (or_introl eq_refl)).
  destruct (proj1 (Hin c) (or_intror (or_intror (or_introl eq_refl))));
    lia.
Qed.

Lemma guard_spec (l : list Z) :
  array_equal (np_unique l) [0%Z; 1%Z] = true <-> both_values l.
Proof.
  unfold array_equal, both_values.
  destruct (list_eq_dec Z.eq_dec (np_unique l) [0%Z; 1%Z]) as [E|NE].
  - split; [intros _|reflexivity].
    repeat split.
    + intros x Hx. apply in_np_unique in Hx. rewrite E in Hx.
      simpl in Hx. intuition.
    + apply in_np_unique. rewrite E. simpl. auto.
    + apply in_np_unique. rewrite E. simpl. auto.
  - split; [discriminate|]. intros (Hall & H0 & H1). exfalso. apply NE.
    apply sorted_zero_one; [apply np_unique_sorted|].
    intros x. rewrite in_np_unique. split; [apply Hall|].
    intros [->| ->]; assumption.
Qed.

Lemma in_ravel (a : ndarray) (x : Z) :
  In x (ravel a) <->
  exists i j, i < shape0 a /\ j < shape1 a /\ get a i j = x.
Proof.
  unfold ravel. rewrite in_flat_map. split.
  - intros (i & Hi & Hx). apply in_map_iff in Hx.
    destruct Hx as (j & Hj & Hjn).
    apply in_seq in Hi. apply in_seq in Hjn.
    exists i, j. repeat split; auto; lia.
  - intros (i & j & Hi & Hj & Hx). exists i. split.
    + apply in_seq. lia.
    + apply in_map_iff. exists j. split; [assumption|]. apply in_seq. lia.
Qed.

(** ** Conflicts *)

Lemma row_pattern_spec (D : ndarray) (p q : nat) (x y : Z) :
  row_pattern D p q x y = true <-> has_row D p q x y.
Proof.
  unfold row_pattern, has_row. rewrite existsb_exists. split.
  - intros (r & Hr & H). apply in_seq in Hr.
    apply andb_true_iff in H. destruct H as [H1 H2].
    apply Z.eqb_eq in H1, H2. exists r. repeat split; auto; lia.
  - intros (r & Hr & H1 & H2). exists r. split; [apply in_seq; lia|].
    apply andb_true_iff. split; apply Z.eqb_eq; assumption.
Qed.

Lemma conflict_sym (D : ndarray) (p q : nat) :
  conflict D p q -> conflict D q p.
Proof.
  intros ((a & Ha & Ha1 & Ha2) & (b & Hb & Hb1 & Hb2) & (c & Hc & Hc1 & Hc2)).
  repeat split.
  - exists a. auto.
  - exists c. auto.
  - exists b. auto.
Qed.

Lemma conflict_irrefl (D : ndarray) (p : nat) : ~ conflict D p p.
Proof.
  intros (_ & (b & _ & Hb1 & Hb2) & _). rewrite Hb1 in Hb2. discriminate.
Qed.

(** The pairwise checker accepts exactly the 0/1 arrays with both values
    and no conflicting pair of columns. *)
Lemma is_conflict_free_spec (df_in : DataFrame) :
  is_conflict_free df_in = true <->
  both_values (ravel (values df_in)) /\ no_conflict (values df_in).
Proof.
  unfold is_conflict_free, astype_int_values.
  set (D := values df_in).
  destruct (array_equal (np_unique (ravel D)) [0%Z; 1%Z]) eqn:G; simpl.
  - apply guard_spec in G. split.
    + intros H. split; [assumption|].
      rewrite forallb_forall in H.
      assert (Hlt : forall p q, p < q -> q < shape1 D -> ~ conflict D p q).
      { intros p q Hpq Hq (C1 & C2 & C3).
        assert (Hp : In p (seq 0 (shape1 D))) by (apply in_seq; lia).
        specialize (H p Hp). rewrite forallb_forall in H.
        assert (Hq' : In q (seq (p + 1) (shape1 D - (p + 1))))
          by (apply in_seq; lia).
        specialize (H q Hq').
        apply row_pattern_spec in C1, C2, C3.
        rewrite C1, C2, C3 in H. discriminate. }
      intros p q Hp Hq C.
      destruct (Nat.lt_trichotomy p q) as [L|[E|L]].
      * exact (Hlt p q L Hq C).
      * subst. exact (conflict_irrefl D q C).
      * exact (Hlt q p L Hp (conflict_sym D p q C)).
    + intros [_ H]. apply forallb_forall. intros p Hp.
      apply forallb_forall. intros q Hq.
      apply in_seq in Hp. apply in_seq in Hq.
      apply negb_true_iff.
      destruct (row_pattern D p q 1 1) eqn:E1; [|reflexivity].
      destruct (row_pattern D p q 0 1) eqn:E2; [|reflexivity].
      destruct (row_pattern D p q 1 0) eqn:E3; [|reflexivity].
      exfalso. apply (H p q); [lia|lia|].
      repeat split; apply row_pattern_spec; assumption.
  - split; [discriminate|]. intros [H _]. apply guard_spec in H.
    congruence.
Qed.

(** ** The arrays [Lij] and [Lj] *)

Lemma Lij_row_spec (O_mtr : ndarray) (i : nat) :
  forall len s maxK t,
    nearest_earlier_one O_mtr i s maxK ->
    t < len ->
    (get O_mtr i (s + t) <> 1%Z ->
     nth t (Lij_row O_mtr i (seq s len) maxK) 0 = 0) /\
    (get O_mtr i (s + t) = 1%Z ->
     nearest_earlier_one O_mtr i (s + t)
       (nth t (Lij_row O_mtr i (seq s len) maxK) 0)).
Proof.
  induction len as [|len IH]; intros s maxK t Inv Ht; [lia|].
  destruct Inv as (I1 & I2 & I3).
  simpl. destruct (Z.eqb_spec (get O_mtr i s) 1) as [E|E].
  - destruct t as [|t].
    + rewrite Nat.add_0_r. simpl. split; [congruence|].
      intros _. repeat split; assumption.
    + replace (s + S t) with (S s + t) by lia. simpl.
      apply (IH (S s) (s + 1) t); [|lia].
      repeat split; [lia| |intros; lia].
      right. replace (s + 1 - 1) with s by lia. assumption.
  - destruct t as [|t].
    + rewrite Nat.add_0_r. simpl. split; [reflexivity|congruence].
    + replace (s + S t) with (S s + t) by lia. simpl.
      apply (IH (S s) maxK t); [|lia].
      repeat split; [lia|assumption|].
      intros k Hk1 Hk2.
      destruct (Nat.eq_dec k s) as [->|Hne]; [assumption|].
      apply I3; lia.
Qed.

Lemma Lij_at_row (O_mtr : ndarray) (i j : nat) :
  i < shape0 O_mtr ->
  Lij_at O_mtr i j = nth j (Lij_row O_mtr i (seq 0 (shape1 O_mtr)) 0) 0.
Proof.
  intros Hi. unfold Lij_at, fill_Lij.
  rewrite (nth_map_seq _ 0 (shape0 O_mtr) i []) by assumption.
  reflexivity.
Qed.

Lemma Lij_at_zero (O_mtr : ndarray) (i j : nat) :
  i < shape0 O_mtr -> j < shape1 O_mtr ->
  get O_mtr i j <> 1%Z -> Lij_at O_mtr i j = 0.
Proof.
  intros Hi Hj H. rewrite Lij_at_row by assumption.
  apply (Lij_row_spec O_mtr i (shape1 O_mtr) 0 0 j); auto.
  repeat split; auto. intros; lia.
Qed.

Lemma Lij_at_one (O_mtr : ndarray) (i j : nat) :
  i < shape0 O_mtr -> j < shape1 O_mtr ->
  get O_mtr i j = 1%Z ->
  nearest_earlier_one O_mtr i j (Lij_at O_mtr i j).
Proof.
  intros Hi Hj H. rewrite Lij_at_row by assumption.
  apply (Lij_row_spec O_mtr i (shape1 O_mtr) 0 0 j); auto.
  repeat split; auto. intros; lia.
Qed.

Lemma fold_max_ge (l : list nat) (x : nat) :
  In x l -> x <= fold_right Nat.max 0 l.
Proof.
  induction l as [|y l IH]; simpl; [tauto|].
  intros [->|H]; [lia|]. specialize (IH H). lia.
Qed.

Lemma fold_max_in (l : list nat) :
  fold_right Nat.max 0 l = 0 \/ In (fold_right Nat.max 0 l) l.
Proof.
  induction l as [|y l IH]; simpl; [auto|].
  destruct (Nat.max_spec y (fold_right Nat.max 0 l)) as [[_ E]|[_ E]];
    rewrite E.
  - destruct IH as [IH|IH]; [left; exact IH|right; right; exact IH].
  - right. left. reflexivity.
Qed.

Lemma Lj_at_fold (O_mtr : ndarray) (j : nat) :
  j < shape1 O_mtr ->
  Lj_at O_mtr j =
  fold_right Nat.max 0
    (map (fun i => Lij_at O_mtr i j) (seq 0 (shape0 O_mtr))).
Proof.
  intros Hj. unfold Lj_at, amax_axis0.
  rewrite (nth_map_seq _ 0 (shape1 O_mtr) j 0) by assumption. simpl.
  f_equal. unfold fill_Lij at 1. rewrite map_map.
  apply map_ext_in. intros i Hi. apply in_seq in Hi.
  symmetry. apply Lij_at_row. lia.
Qed.

Lemma Lij_le_Lj (O_mtr : ndarray) (i j : nat) :
  i < shape0 O_mtr -> j < shape1 O_mtr ->
  Lij_at O_mtr i j <= Lj_at O_mtr j.
Proof.
  intros Hi Hj. rewrite Lj_at_fold by assumption.
  apply fold_max_ge, in_map_iff. exists i. split; [reflexivity|].
  apply in_seq. lia.
Qed.

Lemma Lj_attained (O_mtr : ndarray) (j : nat) :
  j < shape1 O_mtr ->
  Lj_at O_mtr j = 0 \/
  exists i, i < shape0 O_mtr /\ Lij_at O_mtr i j = Lj_at O_mtr j.
Proof.
  intros Hj. rewrite Lj_at_fold by assumption.
  destruct (fold_max_in
              (map (fun i => Lij_at O_mtr i j) (seq 0 (shape0 O_mtr))))
    as [E|E]; [auto|right].
  apply in_map_iff in E. destruct E as (i & E & Hi).
  apply in_seq in Hi. exists i. split; [lia|assumption].
Qed.

Lemma gusfield_check_spec (O_mtr : ndarray) :
  gusfield_check O_mtr = true <->
  forall i j, i < shape0 O_mtr -> j < shape1 O_mtr ->
    get O_mtr i j = 1%Z -> Lij_at O_mtr i j = Lj_at O_mtr j.
Proof.
  unfold gusfield_check. fold (Lij_at O_mtr). split.
  - intros H i j Hi Hj E.
    rewrite forallb_forall in H.
    specialize (H i (proj2 (in_seq _ _ _) (conj (Nat.le_0_l i) Hi))).
    rewrite forallb_forall in H.
    specialize (H j (proj2 (in_seq _ _ _) (conj (Nat.le_0_l j) Hj))).
    rewrite E in H. simpl in H. apply Nat.eqb_eq in H. exact H.
  - intros H. apply forallb_forall. intros i Hi.
    apply forallb_forall. intros j Hj.
    apply in_seq in Hi. apply in_seq in Hj.
    destruct (Z.eqb_spec (get O_mtr i j) 1) as [E|E]; [|reflexivity].
    apply Nat.eqb_eq. apply H; auto; lia.
Qed.

(** ** What the check decides

    The check passes exactly when, for columns [k < j], the rows with a 1 in
    column [j] either all have a 1 in column [k] or none has. *)

Lemma gusfield_check_nested (O_mtr : ndarray) :
  gusfield_check O_mtr = true -> nested_or_apart O_mtr.
Proof.
  intros H. rewrite gusfield_check_spec in H.
  intros k j. revert k.
  induction j as [j IHj] using (well_founded_induction lt_wf).
  intros k Hkj Hj (i0 & Hi0 & E0k & E0j) i Hi Eij.
  pose proof (Lij_at_one O_mtr i0 j Hi0 Hj E0j) as (A1 & A2 & A3).
  pose proof (Lij_at_one O_mtr i j Hi Hj Eij) as (B1 & B2 & B3).
  rewrite (H i0 j Hi0 Hj E0j) in A1, A2, A3.
  rewrite (H i j Hi Hj Eij) in B1, B2, B3.
  set (l := Lj_at O_mtr j) in *.
  assert (Hkl : k < l).
  { destruct (Nat.lt_ge_cases k l) as [L|L]; [assumption|].
    exfalso. exact (A3 k L Hkj E0k). }
  destruct A2 as [A2|A2]; [lia|].
  destruct B2 as [B2|B2]; [lia|].
  destruct (Nat.eq_dec k (l - 1)) as [->|Hne]; [assumption|].
  apply (IHj (l - 1)); try lia; auto.
  exists i0. auto.
Qed.

Lemma nested_gusfield_check (O_mtr : ndarray) :
  nested_or_apart O_mtr -> gusfield_check O_mtr = true.
Proof.
  intros N. apply gusfield_check_spec. intros i j Hi Hj Eij.
  pose proof (Lij_le_Lj O_mtr i j Hi Hj) as Hle.
  pose proof (Lij_at_one O_mtr i j Hi Hj Eij) as (B1 & B2 & B3).
  destruct (Lj_attained O_mtr j Hj) as [Z0|(i' & Hi' & E')]; [lia|].
  destruct (Nat.eq_dec (Lij_at O_mtr i j) (Lj_at O_mtr j)) as [|Hne];
    [assumption|exfalso].
  assert (Hlt : Lij_at O_mtr i j < Lj_at O_mtr j) by lia.
  assert (E'j : get O_mtr i' j = 1%Z).
  { destruct (Z.eq_dec (get O_mtr i' j) 1) as [|NE]; [assumption|].
    rewrite (Lij_at_zero O_mtr i' j Hi' Hj NE) in E'. lia. }
  pose proof (Lij_at_one O_mtr i' j Hi' Hj E'j) as (A1 & A2 & A3).
  rewrite E' in A1, A2, A3.
  destruct A2 as [A2|A2]; [lia|].
  apply (B3 (Lj_at O_mtr j - 1)); try lia.
  apply (N (Lj_at O_mtr j - 1) j); try lia; auto.
  exists i'. auto.
Qed.

(** ** The sort of the columns *)

Lemma lex_leb_trans (u v w : list Z) :
  lex_leb u v = true -> lex_leb v w = true -> lex_leb u w = true.
Proof.
  revert v w. induction u as [|x u IH]; intros [|y v] [|z w]; simpl;
    try discriminate; auto.
  intros H1 H2.
  apply orb_true_iff in H1. apply orb_true_iff in H2.
  apply orb_true_iff.
  destruct H1 as [H1|H1], H2 as [H2|H2];
    try apply andb_true_iff in H1; try apply andb_true_iff in H2;
    try apply Z.ltb_lt in H1; try apply Z.ltb_lt in H2.
  - left. apply Z.ltb_lt. lia.
  - destruct H2 as [H2 _]. apply Z.eqb_eq in H2. left. apply Z.ltb_lt. lia.
  - destruct H1 as [H1 _]. apply Z.eqb_eq in H1. left. apply Z.ltb_lt. lia.
  - destruct H1 as [H1 H1'], H2 as [H2 H2'].
    apply Z.eqb_eq in H1, H2. right. apply andb_true_iff. split.
    + apply Z.eqb_eq. lia.
    + exact (IH v w H1' H2').
Qed.

(** On rows of 0s and 1s: if [u] sorts before [v] and has a 1 where [v] has
    a 0, then earlier on [u] has a 0 where [v] has a 1. *)
Lemma lex_leb_earlier (u v : list Z) :
  lex_leb u v = true ->
  (forall x, In x u -> x = 0%Z \/ x = 1%Z) ->
  (forall x, In x v -> x = 0%Z \/ x = 1%Z) ->
  forall r, nth r u 0%Z = 1%Z -> nth r v 0%Z = 0%Z ->
  exists r', r' < r /\ nth r' u 0%Z = 0%Z /\ nth r' v 0%Z = 1%Z.
Proof.
  revert v. induction u as [|x u IH]; intros [|y v] H Bu Bv r Hu Hv.
  - destruct r; discriminate.
  - destruct r; discriminate.
  - discriminate.
  - simpl in H. apply orb_true_iff in H. destruct H as [H|H].
    + apply Z.ltb_lt in H.
      destruct (Bu x (or_introl eq_refl)), (Bv y (or_introl eq_refl));
        try lia.
      subst. destruct r as [|r]; [simpl in *; lia|].
      exists 0. simpl. repeat split; lia.
    + apply andb_true_iff in H. destruct H as [E H]. apply Z.eqb_eq in E.
      destruct r as [|r]; [simpl in *; lia|].
      destruct (IH v H (fun z Hz => Bu z (or_intror Hz))
                  (fun z Hz => Bv z (or_intror Hz)) r Hu Hv)
        as (r' & Hr' & A & B).
      exists (S r'). simpl. repeat split; auto. lia.
Qed.

Lemma in_combine_seq {A : Type} (b : list A) (d : A) :
  forall s i r, In (i, r) (combine (seq s (length b)) b) ->
    r = nth (i - s) b d.
Proof.
  induction b as [|x b IH]; intros s i r H; simpl in H; [tauto|].
  destruct H as [H|H].
  - inversion H; subst. rewrite Nat.sub_diag. reflexivity.
  - pose proof (in_combine_l _ _ _ _ H) as Hi. apply in_seq in Hi.
    rewrite (IH (S s) i r H).
    replace (i - s) with (S (i - S s)) by lia. reflexivity.
Qed.

Lemma map_fst_combine_seq {A : Type} (b : list A) :
  forall s, map fst (combine (seq s (length b)) b) = seq s (length b).
Proof.
  induction b as [|x b IH]; intros s; simpl; [reflexivity|].
  f_equal. apply IH.
Qed.

Lemma argsort_perm (b : list (list Z)) :
  Permutation (argsort b) (seq 0 (length b)).
Proof.
  unfold argsort. rewrite <- (map_fst_combine_seq b 0) at 2.
  apply Permutation_map, Permutation_sym, RowSort.Permuted_sort.
Qed.

Lemma StronglySorted_map {A B : Type} (R : A -> A -> Prop)
  (R' : B -> B -> Prop) (P : A -> Prop) (f : A -> B) (l : list A) :
  (forall x y, P x -> P y -> R x y -> R' (f x) (f y)) ->
  StronglySorted R l -> Forall P l -> StronglySorted R' (map f l).
Proof.
  intros HR. induction 1 as [|x l HS IH HF]; intros HP; simpl.
  - constructor.
  - inversion HP as [|? ? Px Pl]; subst. constructor; [auto|].
    rewrite Forall_forall in *. intros y Hy.
    apply in_map_iff in Hy. destruct Hy as (z & <- & Hz).
    apply HR; auto.
Qed.

Lemma StronglySorted_nth {A : Type} (R : A -> A -> Prop) (l : list A)
  (d : A) :
  StronglySorted R l ->
  forall j k, j < k -> k < length l -> R (nth j l d) (nth k l d).
Proof.
  induction 1 as [|x l HS IH HF]; intros j k Hjk Hk; simpl in Hk; [lia|].
  destruct k as [|k]; [lia|]. destruct j as [|j]; simpl.
  - rewrite Forall_forall in HF. apply HF, nth_In. lia.
  - apply IH; lia.
Qed.

Lemma argsort_sorted (b : list (list Z)) :
  StronglySorted (fun i k => lex_leb (nth i b []) (nth k b []) = true)
                 (argsort b).
Proof.
  unfold argsort.
  apply (StronglySorted_map
           (fun x y => is_true (RowOrder.leb x y)) _
           (fun p => snd p = nth (fst p) b [])).
  - intros [i u] [k v] Hx Hy H. simpl in *. subst. exact H.
  - apply RowSort.StronglySorted_sort.
    intros x y z. unfold is_true, RowOrder.leb. apply lex_leb_trans.
  - apply Forall_forall. intros [i u] Hin.
    apply (Permutation_in _ (Permutation_sym (RowSort.Permuted_sort _)))
      in Hin.
    simpl. rewrite (in_combine_seq b [] 0 i u Hin). f_equal. lia.
Qed.

(** The permutation [_sort_bin] finds, and the order it puts the columns
    in: descending. *)
Lemma sort_bin_perm (a : ndarray) :
  Permutation (snd (sort_bin a)) (seq 0 (shape1 a)).
Proof.
  unfold sort_bin. simpl.
  eapply Permutation_trans; [apply Permutation_sym, Permutation_rev|].
  pose proof (argsort_perm (map (column a) (seq 0 (shape1 a)))) as H.
  rewrite length_map, length_seq in H. exact H.
Qed.

Lemma sort_bin_shape (a : ndarray) :
  shape0 (fst (sort_bin a)) = shape0 a /\
  shape1 (fst (sort_bin a)) = shape1 a.
Proof.
  split; [reflexivity|]. unfold sort_bin. simpl.
  exact (perm_range_length _ _ (sort_bin_perm a)).
Qed.

Lemma sort_bin_get (a : ndarray) (i j : nat) :
  i < shape0 a -> j < shape1 a ->
  get (fst (sort_bin a)) i j = get a i (nth j (snd (sort_bin a)) 0).
Proof.
  intros Hi Hj.
  pose proof (sort_bin_perm a) as HP.
  pose proof (perm_range_length _ _ HP) as Hlen.
  pose proof (perm_range_lt _ _ j HP Hj) as Hlt.
  unfold sort_bin in *. simpl in *.
  set (idx := rev (argsort (map (column a) (seq 0 (shape1 a))))) in *.
  rewrite get_transpose by (simpl; lia).
  unfold get at 1, take_rows. simpl.
  rewrite (nth_map_in _ idx j [] 0) by lia.
  rewrite (nth_map_seq _ 0 (shape1 a) _ []) by assumption.
  unfold column. rewrite (nth_map_seq _ 0 (shape0 a) i 0%Z) by assumption.
  reflexivity.
Qed.

Lemma sort_bin_descending (a : ndarray) (j k : nat) :
  j < k -> k < shape1 a ->
  lex_leb (column a (nth k (snd (sort_bin a)) 0))
          (column a (nth j (snd (sort_bin a)) 0)) = true.
Proof.
  intros Hjk Hk.
  pose proof (sort_bin_perm a) as HP.
  pose proof (perm_range_lt _ _ j HP ltac:(lia)) as Hj'.
  pose proof (perm_range_lt _ _ k HP Hk) as Hk'.
  unfold sort_bin in *. simpl in *.
  set (b := map (column a) (seq 0 (shape1 a))) in *.
  assert (Hlen : length (argsort b) = shape1 a).
  { rewrite (Permutation_length (argsort_perm b)), length_seq.
    unfold b. rewrite length_map, length_seq. reflexivity. }
  rewrite !rev_nth in * by lia. rewrite Hlen in *.
  pose proof (StronglySorted_nth _ _ 0 (argsort_sorted b)
                (shape1 a - S k) (shape1 a - S j) ltac:(lia) ltac:(lia))
    as H.
  simpl in H.
  assert (Hb : forall i, i < shape1 a -> nth i b [] = column a i).
  { intros i Hi. unfold b. apply (nth_map_seq _ 0 (shape1 a) i []), Hi. }
  rewrite !Hb in H by assumption. exact H.
Qed.

(** ** Gusfield's checker decides the absence of conflicts *)

Lemma nth_column (a : ndarray) (p r : nat) :
  r < shape0 a -> nth r (column a p) 0%Z = get a r p.
Proof.
  intros Hr. unfold column.
  rewrite (nth_map_seq _ 0 (shape0 a) r 0%Z) by assumption. reflexivity.
Qed.

Lemma nth_column_one (a : ndarray) (p r : nat) (x : Z) :
  x <> 0%Z -> nth r (column a p) 0%Z = x -> r < shape0 a.
Proof.
  intros Hx H. destruct (Nat.lt_ge_cases r (shape0 a)) as [L|L]; [exact L|].
  rewrite nth_overflow in H; [congruence|].
  unfold column. rewrite length_map, length_seq. exact L.
Qed.

Lemma column_binary (a : ndarray) (p : nat) :
  both_values (ravel a) -> p < shape1 a ->
  forall x, In x (column a p) -> x = 0%Z \/ x = 1%Z.
Proof.
  intros (B & _ & _) Hp x Hx. apply B, in_ravel.
  unfold column in Hx. apply in_map_iff in Hx.
  destruct Hx as (i & E & Hi). apply in_seq in Hi.
  exists i, p. repeat split; auto; lia.
Qed.

Lemma nested_no_conflict (a : ndarray) :
  nested_or_apart (fst (sort_bin a)) -> no_conflict a.
Proof.
  intros N p q Hp Hq C.
  destruct (sort_bin_shape a) as [S0 S1].
  pose proof (sort_bin_perm a) as HP.
  unfold nested_or_apart in N. rewrite S0, S1 in N.
  destruct (perm_range_onto _ _ p HP Hp) as (jp & Hjp & Ejp).
  destruct (perm_range_onto _ _ q HP Hq) as (jq & Hjq & Ejq).
  assert (G : forall i j, i < shape0 a -> j < shape1 a ->
            get (fst (sort_bin a)) i j = get a i (nth j (snd (sort_bin a)) 0))
    by (intros; apply sort_bin_get; assumption).
  destruct C as ((r1 & Hr1 & A1 & B1) & (r2 & Hr2 & A2 & B2)
                 & (r3 & Hr3 & A3 & B3)).
  destruct (Nat.lt_trichotomy jp jq) as [L|[E|L]].
  - assert (X : get (fst (sort_bin a)) r3 jp = 1%Z).
    { apply (N jp jq L Hjq); [|assumption|].
      - exists r1. rewrite !G, Ejp, Ejq by assumption. auto.
      - rewrite G, Ejq by assumption. exact B3. }
    rewrite G, Ejp in X by assumption. congruence.
  - subst jq. rewrite Ejp in Ejq. subst q. congruence.
  - assert (X : get (fst (sort_bin a)) r2 jq = 1%Z).
    { apply (N jq jp L Hjp); [|assumption|].
      - exists r1. rewrite !G, Ejp, Ejq by assumption. auto.
      - rewrite G, Ejp by assumption. exact A2. }
    rewrite G, Ejq in X by assumption. congruence.
Qed.

Lemma no_conflict_nested (a : ndarray) :
  both_values (ravel a) -> no_conflict a ->
  nested_or_apart (fst (sort_bin a)).
Proof.
  intros BV NC.
  destruct (sort_bin_shape a) as [S0 S1].
  pose proof (sort_bin_perm a) as HP.
  unfold nested_or_apart. rewrite S0, S1.
  assert (G : forall i j, i < shape0 a -> j < shape1 a ->
            get (fst (sort_bin a)) i j = get a i (nth j (snd (sort_bin a)) 0))
    by (intros; apply sort_bin_get; assumption).
  intros k j Hkj Hj (i0 & Hi0 & E0k & E0j) i Hi Eij.
  assert (Hk : k < shape1 a) by lia.
  set (p := nth k (snd (sort_bin a)) 0).
  set (q := nth j (snd (sort_bin a)) 0).
  assert (Hp : p < shape1 a) by (apply perm_range_lt; assumption).
  assert (Hq : q < shape1 a) by (apply perm_range_lt; assumption).
  rewrite G in * by assumption. fold p in E0k |- *. fold q in E0j, Eij.
  pose proof BV as (B & _ & _).
  destruct (B (get a i p)) as [Z0|Z1]; [| |exact Z1].
  { apply in_ravel. exists i, p. auto. }
  exfalso.
  pose proof (sort_bin_descending a k j Hkj Hj) as Hle.
  fold p q in Hle.
  destruct (lex_leb_earlier _ _ Hle
              (column_binary a q BV Hq) (column_binary a p BV Hp) i)
    as (r' & Hr' & U & V).
  { rewrite nth_column by assumption. exact Eij. }
  { rewrite nth_column by assumption. exact Z0. }
  rewrite nth_column in U, V by lia.
  apply (NC p q Hp Hq). repeat split.
  - exists i0. auto.
  - exists r'. repeat split; auto. lia.
  - exists i. auto.
Qed.

Lemma is_conflict_free_gusfield_unfold (df_in : DataFrame) :
  is_conflict_free_gusfield df_in =
  if array_equal (np_unique (ravel (values df_in))) [0%Z; 1%Z]
  then gusfield_check (fst (sort_bin (values df_in)))
  else false.
Proof.
  unfold is_conflict_free_gusfield, astype_int_values.
  destruct (array_equal (np_unique (ravel (values df_in))) [0%Z; 1%Z]);
    [|reflexivity].
  cbv beta iota zeta delta [negb].
  destruct (sort_bin (values df_in)); reflexivity.
Qed.

(** Gusfield's checker accepts exactly the 0/1 arrays with both values and
    no conflicting pair of columns. *)
Lemma is_conflict_free_gusfield_spec (df_in : DataFrame) :
  is_conflict_free_gusfield df_in = true <->
  both_values (ravel (values df_in)) /\ no_conflict (values df_in).
Proof.
  rewrite is_conflict_free_gusfield_unfold.
  set (a := values df_in).
  destruct (array_equal (np_unique (ravel a)) [0%Z; 1%Z]) eqn:G.
  - apply guard_spec in G. split.
    + intros H. split; [assumption|].
      apply nested_no_conflict, gusfield_check_nested, H.
    + intros [_ H]. apply nested_gusfield_check, no_conflict_nested; auto.
  - split; [discriminate|]. intros [H _]. apply guard_spec in H.
    congruence.
Qed.

(** ** Examples *)

Example gusfield_chain_matrix : is_conflict_free_gusfield chain_matrix = true.
Proof. vm_compute. reflexivity. Qed.

Example gusfield_chain_matrix_permuted :
  is_conflict_free_gusfield (iloc chain_matrix [2; 0; 1] [1; 0]) = true.
Proof. vm_compute. reflexivity. Qed.

(** ** The claims on the checkers *)

(** C1: a matrix with two columns [p] and [q] on which some row reads (1,1),
    some row (1,0) and some row (0,1) is rejected by
    [is_conflict_free_gusfield].  (The matrix need not be assumed binary:
    one with another entry is rejected by the guard.)  The instance on the
    3x2 matrix [[1,1],[1,0],[0,1]] follows the theorem. *)
Theorem gusfield_rejects_conflict (df_in : DataFrame) (p q r1 r2 r3 : nat) :
  p < shape1 (values df_in) -> q < shape1 (values df_in) ->
  r1 < shape0 (values df_in) ->
  r2 < shape0 (values df_in) ->
  r3 < shape0 (values df_in) ->
  get (values df_in) r1 p = 1%Z -> get (values df_in) r1 q = 1%Z ->
  get (values df_in) r2 p = 1%Z -> get (values df_in) r2 q = 0%Z ->
  get (values df_in) r3 p = 0%Z -> get (values df_in) r3 q = 1%Z ->
  is_conflict_free_gusfield df_in = false.
Proof.
  intros Hp Hq H1 H2 H3 A1 B1 A2 B2 A3 B3.
  destruct (is_conflict_free_gusfield df_in) eqn:E; [exfalso|reflexivity].
  apply is_conflict_free_gusfield_spec in E. destruct E as [_ NC].
  apply (NC p q Hp Hq). repeat split.
  - exists r1. auto.
  - exists r2. auto.
  - exists r3. auto.
Qed.

Lemma gusfield_rejects_classic_conflict :
  is_conflict_free_gusfield classic_conflict = false.
Proof.
  apply (gusfield_rejects_conflict classic_conflict 0 1 0 1 2);
    simpl; solve [lia | reflexivity].
Defined.

(** C2 (the code departs from it): the guard
    [np.array_equal(np.unique(I_mtr), [0, 1])] fails on every array that
    does not hold both a 0 and a 1, so [is_conflict_free_gusfield] returns
    [False] on every empty matrix and on every all-zero matrix. *)
Theorem gusfield_rejects_empty_and_all_zero (df_in : DataFrame) :
  shape0 (values df_in) = 0 \/
  shape1 (values df_in) = 0 \/
  (forall i j, i < shape0 (values df_in) -> j < shape1 (values df_in) ->
     get (values df_in) i j = 0%Z) ->
  is_conflict_free_gusfield df_in = false.
Proof.
  intros H.
  destruct (is_conflict_free_gusfield df_in) eqn:E; [exfalso|reflexivity].
  apply is_conflict_free_gusfield_spec in E.
  destruct E as [(_ & _ & H1) _].
  apply in_ravel in H1. destruct H1 as (i & j & Hi & Hj & E).
  destruct H as [H|[H|H]]; try lia.
  rewrite (H i j Hi Hj) in E. discriminate.
Qed.

Lemma gusfield_rejects_all_zero :
  is_conflict_free_gusfield all_zero = false.
Proof.
  apply gusfield_rejects_empty_and_all_zero.
  right. right. intros i j Hi Hj. simpl in Hi, Hj.
  destruct i as [|[|i]]; [| |lia];
    (destruct j as [|[|j]]; [reflexivity|reflexivity|lia]).
Defined.

(** C3: the pairwise checker and Gusfield's checker return the same boolean
    on every input. *)
Theorem checkers_agree (df_in : DataFrame) :
  is_conflict_free df_in = is_conflict_free_gusfield df_in.
Proof.
  apply Bool.eq_iff_eq_true.
  rewrite is_conflict_free_spec, is_conflict_free_gusfield_spec.
  reflexivity.
Qed.

Lemma in_ravel_take (a : ndarray) (rho sigma : list nat) (x : Z) :
  Permutation rho (seq 0 (shape0 a)) ->
  Permutation sigma (seq 0 (shape1 a)) ->
  In x (ravel (take a rho sigma)) <-> In x (ravel a).
Proof.
  intros HR HS.
  pose proof (perm_range_length _ _ HR) as LR.
  pose proof (perm_range_length _ _ HS) as LS.
  rewrite !in_ravel. simpl. rewrite LR, LS. split.
  - intros (i & j & Hi & Hj & E).
    rewrite get_take in E by lia.
    exists (nth i rho 0), (nth j sigma 0).
    repeat split; auto; apply perm_range_lt; assumption.
  - intros (i & j & Hi & Hj & E).
    destruct (perm_range_onto _ _ i HR Hi) as (i' & Hi' & Ei).
    destruct (perm_range_onto _ _ j HS Hj) as (j' & Hj' & Ej).
    exists i', j'. rewrite get_take by lia. rewrite Ei, Ej. auto.
Qed.

Lemma has_row_take (a : ndarray) (rho sigma : list nat) (p q : nat)
  (x y : Z) :
  Permutation rho (seq 0 (shape0 a)) ->
  Permutation sigma (seq 0 (shape1 a)) ->
  p < shape1 a -> q < shape1 a ->
  has_row (take a rho sigma) p q x y <->
  has_row a (nth p sigma 0) (nth q sigma 0) x y.
Proof.
  intros HR HS Hp Hq.
  pose proof (perm_range_length _ _ HR) as LR.
  pose proof (perm_range_length _ _ HS) as LS.
  unfold has_row. simpl. rewrite LR. split.
  - intros (r & Hr & A & B). rewrite get_take in A, B by lia.
    exists (nth r rho 0). repeat split; auto.
    apply perm_range_lt; assumption.
  - intros (r & Hr & A & B).
    destruct (perm_range_onto _ _ r HR Hr) as (r' & Hr' & Er).
    exists r'. rewrite !get_take by lia. rewrite Er. auto.
Qed.

Lemma no_conflict_take (a : ndarray) (rho sigma : list nat) :
  Permutation rho (seq 0 (shape0 a)) ->
  Permutation sigma (seq 0 (shape1 a)) ->
  no_conflict (take a rho sigma) <-> no_conflict a.
Proof.
  intros HR HS.
  pose proof (perm_range_length _ _ HS) as LS.
  unfold no_conflict, conflict. simpl. rewrite LS. split.
  - intros H p q Hp Hq C.
    destruct (perm_range_onto _ _ p HS Hp) as (p' & Hp' & Ep).
    destruct (perm_range_onto _ _ q HS Hq) as (q' & Hq' & Eq).
    apply (H p' q' Hp' Hq').
    rewrite !has_row_take, Ep, Eq by assumption. exact C.
  - intros H p q Hp Hq C.
    rewrite !has_row_take in C by assumption.
    apply (H (nth p sigma 0) (nth q sigma 0)); auto;
      apply perm_range_lt; assumption.
Qed.

(** C4: permuting the rows and the columns of the input leaves the result
    of [is_conflict_free_gusfield] unchanged. *)
Theorem gusfield_permutation_invariant (df_in : DataFrame)
  (rho sigma : list nat) :
  Permutation rho (seq 0 (shape0 (values df_in))) ->
  Permutation sigma (seq 0 (shape1 (values df_in))) ->
  is_conflict_free_gusfield (iloc df_in rho sigma) =
  is_conflict_free_gusfield df_in.
Proof.
  intros HR HS. apply Bool.eq_iff_eq_true.
  rewrite !is_conflict_free_gusfield_spec. simpl.
  rewrite (no_conflict_take _ _ _ HR HS).
  unfold both_values.
  rewrite !(in_ravel_take _ _ _ _ HR HS).
  split; intros ((B & B0 & B1) & NC); repeat split; auto;
    intros x Hx; apply B; apply (in_ravel_take _ _ _ _ HR HS); exact Hx.
Qed.

Lemma gusfield_permutation_invariant_chain :
  is_conflict_free_gusfield (iloc chain_matrix [2; 0; 1] [1; 0]) =
  is_conflict_free_gusfield chain_matrix.
Proof.
  apply gusfield_permutation_invariant; simpl.
  - apply Permutation_sym.
    apply (Permutation_cons_app [2] [1] 0). apply perm_swap.
  - apply perm_swap.
Defined.

(** ** Labels *)

Lemma in_insert_uniq_string (x y : string) (l : list string) :
  In y (insert_uniq String.compare x l) <-> y = x \/ In y l.
Proof.
  induction l as [|z l IH]; simpl.
  - intuition.
  - destruct (String.compare x z) eqn:E; simpl.
    + apply String.compare_eq_iff in E. subst. intuition.
    + intuition.
    + rewrite IH. intuition.
Qed.

Lemma in_sort_uniq_string (y : string) (l : list string) :
  In y (sort_uniq String.compare l) <-> In y l.
Proof.
  unfold sort_uniq. induction l as [|x l IH]; simpl; [reflexivity|].
  rewrite in_insert_uniq_string, IH. intuition.
Qed.

Lemma in_labels_spec (a : string) (l : list string) :
  in_labels a l = true <-> In a l.
Proof.
  unfold in_labels. rewrite existsb_exists. split.
  - intros (x & Hx & E). apply String.eqb_eq in E. subst. exact Hx.
  - intros H. exists a. split; [exact H|apply String.eqb_refl].
Qed.

Lemma in_intersect1d (x : string) (a b : list string) :
  In x (intersect1d a b) <-> In x a /\ In x b.
Proof.
  unfold intersect1d.
  rewrite in_sort_uniq_string, filter_In, in_labels_spec. reflexivity.
Qed.


Lemma intersect1d_nonempty (a b : list string) (x : string) :
  In x a -> In x b -> intersect1d a b <> [].
Proof.
  intros Ha Hb E.
  assert (Hx : In x (intersect1d a b)) by (apply in_intersect1d; auto).
  rewrite E in Hx. exact Hx.
Qed.

Lemma get_loc_in (labels : list string) (a : string) :
  In a labels ->
  exists i, get_loc labels a = Some i /\ i < length labels.
Proof.
  induction labels as [|b t IH]; simpl; [tauto|].
  intros H. destruct (String.eqb_spec a b) as [E|NE].
  - exists 0. split; [reflexivity|lia].
  - destruct H as [H|H]; [congruence|].
    destruct (IH H) as (i & E & Hi). exists (S i). rewrite E.
    split; [reflexivity|lia].
Qed.

Lemma position_lt (labels : list string) (a : string) :
  In a labels -> position labels a < length labels.
Proof.
  intros H. unfold position.
  destruct (get_loc_in labels a H) as (i & E & Hi). rewrite E. exact Hi.
Qed.

Lemma get_indexer_in (labels keys : list string) :
  (forall k, In k keys -> In k labels) ->
  get_indexer labels keys = ok (map (position labels) keys).
Proof.
  induction keys as [|k ks IH]; intros H; simpl; [reflexivity|].
  unfold position at 1.
  destruct (get_loc_in labels k (H k (or_introl eq_refl))) as (i & E & _).
  rewrite E, IH by (intros; apply H; right; assumption).
  reflexivity.
Qed.

Lemma getitem_shared_l (df_grnd df_sol : DataFrame) :
  getitem df_grnd (shared_mutations df_grnd df_sol) =
  ok {| index := index df_grnd;
        columns := shared_mutations df_grnd df_sol;
        values := values_of df_grnd (shared_mutations df_grnd df_sol) |}.
Proof.
  unfold getitem. rewrite get_indexer_in; [reflexivity|].
  intros k Hk. apply in_intersect1d in Hk. tauto.
Qed.

Lemma getitem_shared_r (df_grnd df_sol : DataFrame) :
  getitem df_sol (shared_mutations df_grnd df_sol) =
  ok {| index := index df_sol;
        columns := shared_mutations df_grnd df_sol;
        values := values_of df_sol (shared_mutations df_grnd df_sol) |}.
Proof.
  unfold getitem. rewrite get_indexer_in; [reflexivity|].
  intros k Hk. apply in_intersect1d in Hk. tauto.
Qed.

Lemma loc_shared_l (df_grnd df_sol : DataFrame) :
  loc df_grnd (shared_cells df_grnd df_sol)
      (shared_mutations df_grnd df_sol) =
  ok {| index := shared_cells df_grnd df_sol;
        columns := shared_mutations df_grnd df_sol;
        values := values_at df_grnd (shared_cells df_grnd df_sol)
                            (shared_mutations df_grnd df_sol) |}.
Proof.
  unfold loc. rewrite !get_indexer_in; [reflexivity| |];
    intros k Hk; apply in_intersect1d in Hk; tauto.
Qed.

Lemma loc_shared_r (df_grnd df_sol : DataFrame) :
  loc df_sol (shared_cells df_grnd df_sol)
      (shared_mutations df_grnd df_sol) =
  ok {| index := shared_cells df_grnd df_sol;
        columns := shared_mutations df_grnd df_sol;
        values := values_at df_sol (shared_cells df_grnd df_sol)
                            (shared_mutations df_grnd df_sol) |}.
Proof.
  unfold loc. rewrite !get_indexer_in; [reflexivity| |];
    intros k Hk; apply in_intersect1d in Hk; tauto.
Qed.

(** The scores, with the frame selections resolved. *)
Lemma gs_unfold (df_grnd df_sol : DataFrame) :
  gs df_grnd df_sol =
  if length (shared_mutations df_grnd df_sol) =? 0
  then raise (LoggError "No common mutations found between two trees!")
  else if length (shared_cells df_grnd df_sol) =? 0
  then raise (LoggError "No common cells found between two trees!")
  else
    let M_grnd := values_at df_grnd (shared_cells df_grnd df_sol)
                            (shared_mutations df_grnd df_sol) in
    let M_sol := values_at df_sol (shared_cells df_grnd df_sol)
                           (shared_mutations df_grnd df_sol) in
    ok (one_minus (np_truediv (abs_sum (np_sub M_grnd M_sol))
                              (Z.of_nat (size M_grnd)))).
Proof.
  unfold gs. fold (shared_mutations df_grnd df_sol).
  fold (shared_cells df_grnd df_sol).
  destruct (length (shared_mutations df_grnd df_sol) =? 0); [reflexivity|].
  destruct (length (shared_cells df_grnd df_sol) =? 0); [reflexivity|].
  simpl. rewrite loc_shared_l, loc_shared_r. reflexivity.
Qed.

Lemma ad_unfold (df_grnd df_sol : DataFrame) :
  ad df_grnd df_sol =
  if length (shared_mutations df_grnd df_sol) =? 0
  then raise (LoggError "No common mutations found between two trees!")
  else
    q <- py_truediv (Z.of_nat (length (fst (ad_counts df_grnd df_sol))))
                    (Z.of_nat (ad_n_adpairs df_grnd df_sol)) ;;
    ok (one_minus q).
Proof.
  unfold ad, ad_n_adpairs, ad_counts.
  fold (shared_mutations df_grnd df_sol).
  destruct (length (shared_mutations df_grnd df_sol) =? 0); [reflexivity|].
  simpl. rewrite getitem_shared_l, getitem_shared_r. simpl.
  destruct (ad_loop _ _). reflexivity.
Qed.

Lemma dl_unfold (df_grnd df_sol : DataFrame) :
  dl df_grnd df_sol =
  if length (shared_mutations df_grnd df_sol) =? 0
  then raise (LoggError "No common mutations found between two trees!")
  else
    py_truediv (Z.of_nat (snd (dl_counts df_grnd df_sol)))
               (Z.of_nat (dl_n_dlpairs1 df_grnd df_sol)).
Proof.
  unfold dl, dl_n_dlpairs1, dl_counts.
  fold (shared_mutations df_grnd df_sol).
  destruct (length (shared_mutations df_grnd df_sol) =? 0); [reflexivity|].
  simpl. rewrite getitem_shared_l, getitem_shared_r. simpl.
  destruct (dl_loop _ _). reflexivity.
Qed.

(** ** A frame compared with itself *)

Lemma np_sum_zeros (l : list Z) :
  (forall x, In x l -> x = 0%Z) -> np_sum (map Z.abs l) = 0%Z.
Proof.
  induction l as [|x l IH]; intros H; simpl; [reflexivity|].
  rewrite (H x (or_introl eq_refl)), IH by (intros; apply H; right; auto).
  reflexivity.
Qed.

Lemma abs_sum_sub_self (a : ndarray) : abs_sum (np_sub a a) = 0%Z.
Proof.
  unfold abs_sum. apply np_sum_zeros. intros x Hx.
  apply in_ravel in Hx. destruct Hx as (i & j & Hi & Hj & E).
  simpl in Hi, Hj. unfold get at 1, np_sub in E. simpl in E.
  rewrite (nth_map_seq _ 0 (shape0 a) i []) in E by assumption.
  rewrite (nth_map_seq _ 0 (shape1 a) j 0%Z) in E by assumption.
  lia.
Qed.

Lemma ad_step_self (G : ndarray) (st : list (nat * nat) * nat)
  (ij : nat * nat) :
  fst (ad_step G G st ij) = fst st.
Proof.
  destruct st as [e n], ij as [i j]. unfold ad_step.
  destruct (Z.gtb_spec (np_sum (np_mul (column G i) (column G j))) 0),
           (Z.eqb_spec (colsum G i) (colsum G j)); simpl; try reflexivity.
  destruct (Z.eqb_spec (np_sum (np_mul (column G i) (column G j))) 0);
    [lia|].
  destruct (Z.gtb_spec (colsum G j) (colsum G i)),
           (Z.leb_spec (colsum G j) (colsum G i)); simpl; try lia;
    try reflexivity;
  destruct (Z.gtb_spec (colsum G i) (colsum G j)),
           (Z.leb_spec (colsum G i) (colsum G j)); simpl; try lia;
    reflexivity.
Qed.

Lemma ad_loop_self (G : ndarray) : fst (ad_loop G G) = [].
Proof.
  unfold ad_loop.
  assert (H : forall l st, fst (fold_left (ad_step G G) l st) = fst st).
  { induction l as [|ij l IH]; intros st; simpl; [reflexivity|].
    rewrite IH. apply ad_step_self. }
  apply H.
Qed.

Lemma dl_step_self (G : ndarray) (st : nat * nat) (ij : nat * nat) :
  fst st = snd st -> fst (dl_step G G st ij) = snd (dl_step G G st ij).
Proof.
  destruct st as [n1 n2], ij as [i j]. simpl. intros ->. unfold dl_step.
  destruct ((np_sum (np_mul (column G i) (column G j)) =? 0)%Z
            && negb (colsum G i =? 0)%Z && negb (colsum G j =? 0)%Z);
    reflexivity.
Qed.

Lemma dl_loop_self (G : ndarray) : fst (dl_loop G G) = snd (dl_loop G G).
Proof.
  unfold dl_loop.
  assert (H : forall l st, fst st = snd st ->
            fst (fold_left (dl_step G G) l st) =
            snd (fold_left (dl_step G G) l st)).
  { induction l as [|ij l IH]; intros st Hst; simpl; [exact Hst|].
    apply IH, dl_step_self, Hst. }
  apply H. reflexivity.
Qed.

Lemma Q_one_minus_zero_over (d : Z) : 1 - inject_Z 0 / inject_Z d == 1.
Proof.
  unfold Qdiv. rewrite Qmult_0_l. ring.
Qed.

Lemma Q_self_over_self (n : nat) :
  n <> 0 -> inject_Z (Z.of_nat n) / inject_Z (Z.of_nat n) == 1.
Proof.
  intros Hn. apply Qmult_inv_r.
  intros E. unfold Qeq in E. simpl in E. lia.
Qed.

(** C9: a frame compared with itself scores 1 under [gs], [ad] and [dl],
    each whenever its denominator ([M_grnd.size], [n_adpairs],
    [n_dlpairs1]) is not zero.  The scores being floats, 1 is the rational
    the returned float stands for.  Nothing of the proof needs the frame to
    be conflict-free. *)
Theorem self_comparison_scores_one (M : DataFrame) :
  (gs_size M M <> 0 ->
   exists q, gs M M = ok (finite q) /\ q == 1) /\
  (ad_n_adpairs M M <> 0 ->
   exists q, ad M M = ok (finite q) /\ q == 1) /\
  (dl_n_dlpairs1 M M <> 0 ->
   exists q, dl M M = ok (finite q) /\ q == 1).
Proof.
  repeat split.
  - intros Hsz. rewrite gs_unfold.
    assert (Hs : gs_size M M =
                 length (shared_cells M M) * length (shared_mutations M M)).
    { unfold gs_size, size, values_at. simpl. rewrite !length_map.
      reflexivity. }
    destruct (Nat.eqb_spec (length (shared_mutations M M)) 0) as [E|E];
      [rewrite E in Hs; lia|].
    destruct (Nat.eqb_spec (length (shared_cells M M)) 0) as [E'|E'];
      [rewrite E' in Hs; lia|].
    cbv zeta. rewrite abs_sum_sub_self. unfold np_truediv.
    fold (gs_size M M).
    destruct (Z.eqb_spec (Z.of_nat (gs_size M M)) 0) as [Z0|_]; [lia|].
    eexists. split; [reflexivity|]. apply Q_one_minus_zero_over.
  - intros Hn. rewrite ad_unfold.
    destruct (Nat.eqb_spec (length (shared_mutations M M)) 0) as [E|E].
    + exfalso. apply Hn. unfold ad_n_adpairs, ad_counts.
      destruct (shared_mutations M M); [reflexivity|discriminate].
    + unfold ad_counts at 1. cbv zeta. rewrite ad_loop_self.
      unfold py_truediv.
      destruct (Z.eqb_spec (Z.of_nat (ad_n_adpairs M M)) 0) as [Z0|_];
        [lia|].
      simpl. eexists. split; [reflexivity|]. apply Q_one_minus_zero_over.
  - intros Hn. rewrite dl_unfold.
    destruct (Nat.eqb_spec (length (shared_mutations M M)) 0) as [E|E].
    + exfalso. apply Hn. unfold dl_n_dlpairs1, dl_counts.
      destruct (shared_mutations M M); [reflexivity|discriminate].
    + unfold dl_n_dlpairs1 in *. unfold dl_counts in *. cbv zeta in *.
      rewrite <- dl_loop_self. unfold py_truediv.
      destruct (Z.eqb_spec
                  (Z.of_nat (fst (dl_loop
                     (values_of M (shared_mutations M M))
                     (values_of M (shared_mutations M M))))) 0) as [Z0|_];
        [lia|].
      eexists. split; [reflexivity|]. apply Q_self_over_self. exact Hn.
Qed.

Lemma self_comparison_three_clones :
  (exists q, gs three_clones three_clones = ok (finite q) /\ q == 1) /\
  (exists q, ad three_clones three_clones = ok (finite q) /\ q == 1) /\
  (exists q, dl three_clones three_clones = ok (finite q) /\ q == 1).
Proof.
  destruct (self_comparison_scores_one three_clones) as (G & A & D).
  split; [|split].
  - apply G. vm_compute. discriminate.
  - apply A. vm_compute. discriminate.
  - apply D. vm_compute. discriminate.
Defined.

(** C7: when the denominator of [ad] ([n_adpairs]) or of [dl]
    ([n_dlpairs1]) is zero, the call returns no number: it raises, with
    [ZeroDivisionError] from the division when the frames share a mutation
    and with the error of [logg.error] when they share none.  That raised
    error is the not-applicable result; it is no score, so neither 0 nor
    1. *)
Theorem zero_denominator_raises (df_grnd df_sol : DataFrame) :
  (ad_n_adpairs df_grnd df_sol = 0 ->
   ad df_grnd df_sol =
   (if length (shared_mutations df_grnd df_sol) =? 0
    then raise (LoggError "No common mutations found between two trees!")
    else raise ZeroDivisionError) /\
   forall x, ad df_grnd df_sol <> ok x) /\
  (dl_n_dlpairs1 df_grnd df_sol = 0 ->
   dl df_grnd df_sol =
   (if length (shared_mutations df_grnd df_sol) =? 0
    then raise (LoggError "No common mutations found between two trees!")
    else raise ZeroDivisionError) /\
   forall x, dl df_grnd df_sol <> ok x).
Proof.
  split; intros H.
  - rewrite ad_unfold, H.
    destruct (length (shared_mutations df_grnd df_sol) =? 0);
      (split; [reflexivity|discriminate]).
  - rewrite dl_unfold, H.
    destruct (length (shared_mutations df_grnd df_sol) =? 0);
      (split; [reflexivity|discriminate]).
Qed.

Lemma zero_denominator_raises_examples :
  ad two_clones two_clones = raise ZeroDivisionError /\
  dl chain_matrix chain_matrix = raise ZeroDivisionError.
Proof.
  split.
  - apply (proj1 (zero_denominator_raises two_clones two_clones)).
    vm_compute. reflexivity.
  - apply (proj2 (zero_denominator_raises chain_matrix chain_matrix)).
    vm_compute. reflexivity.
Defined.

(** ** The store *)

Lemma sanitize_columns_idem (cols : list string) :
  sanitize_columns (sanitize_columns cols) = sanitize_columns cols.
Proof.
  unfold sanitize_columns. rewrite map_map. apply map_ext. intros s.
  induction s as [|a s IH]; simpl; [reflexivity|].
  rewrite IH. f_equal.
  destruct (Ascii.eqb_spec a ":"%char) as [->|N1]; [reflexivity|].
  destruct (Ascii.eqb_spec a "="%char) as [->|N2]; [reflexivity|].
  destruct (Ascii.eqb_spec a ":"%char) as [|_]; [contradiction|].
  destruct (Ascii.eqb_spec a "="%char) as [|_]; [contradiction|].
  reflexivity.
Qed.

Lemma sanitized_idem (df : DataFrame) : sanitized (sanitized df) = sanitized df.
Proof.
  unfold sanitized. simpl. rewrite sanitize_columns_idem. reflexivity.
Qed.

Lemma nth_error_store_eq (h : heap) (r : ref) (x y : DataFrame) :
  nth_error h r = Some x -> nth_error (store h r y) r = Some y.
Proof.
  revert r. induction h as [|z h IH]; intros [|r] H; simpl in *;
    try discriminate; auto.
Qed.

Lemma nth_error_store_neq (h : heap) (r r' : ref) (y : DataFrame) :
  r <> r' -> nth_error (store h r y) r' = nth_error h r'.
Proof.
  revert r r'. induction h as [|z h IH]; intros [|r] [|r'] H; simpl;
    try reflexivity; try congruence.
  apply IH. congruence.
Qed.

Lemma store_store (h : heap) (r : ref) (x y : DataFrame) :
  store (store h r x) r y = store h r y.
Proof.
  revert r. induction h as [|z h IH]; intros [|r]; simpl; try reflexivity.
  rewrite IH. reflexivity.
Qed.

Lemma call_store {A : Type} (f : DataFrame -> DataFrame -> result A)
  (df_grnd df_sol : ref) (h : heap) :
  fst (call f df_grnd df_sol h) = h.
Proof.
  unfold call, bindM, deref, lift.
  destruct (nth_error h df_grnd); [|reflexivity].
  destruct (nth_error h df_sol); reflexivity.
Qed.

Lemma getitem_in (df : DataFrame) (keys : list string) :
  (forall k, In k keys -> In k (columns df)) ->
  getitem df keys = ok (restrict df keys).
Proof.
  intros H. unfold getitem. rewrite get_indexer_in by assumption.
  reflexivity.
Qed.

Lemma string_lt_irrefl (x : string) : ~ string_lt x x.
Proof.
  intros H. exact (OrderedTypeEx.String_as_OT.lt_not_eq x x H eq_refl).
Qed.

Lemma string_compare_gt (x y : string) :
  String.compare x y = Gt -> string_lt y x.
Proof.
  intros H. apply OrderedTypeEx.String_as_OT.cmp_lt.
  unfold OrderedTypeEx.String_as_OT.cmp.
  rewrite String.compare_antisym, H. reflexivity.
Qed.

Lemma insert_uniq_string_sorted (x : string) (l : list string) :
  StronglySorted string_lt l ->
  StronglySorted string_lt (insert_uniq String.compare x l).
Proof.
  induction 1 as [|z l HS IH HF]; simpl.
  - constructor; constructor.
  - destruct (String.compare x z) eqn:E.
    + constructor; assumption.
    + apply OrderedTypeEx.String_as_OT.cmp_lt in E.
      constructor; [constructor; assumption|].
      constructor; [exact E|].
      eapply Forall_impl; [|exact HF]. simpl. intros y Hy.
      exact (OrderedTypeEx.String_as_OT.lt_trans _ _ _ E Hy).
    + apply string_compare_gt in E.
      constructor; [assumption|].
      apply Forall_forall. intros y Hy.
      apply in_insert_uniq_string in Hy.
      destruct Hy as [->|Hy]; [assumption|].
      rewrite Forall_forall in HF. auto.
Qed.

Lemma sort_uniq_string_sorted (l : list string) :
  StronglySorted string_lt (sort_uniq String.compare l).
Proof.
  unfold sort_uniq. induction l as [|x l IH]; simpl; [constructor|].
  apply insert_uniq_string_sorted, IH.
Qed.

(** Two strictly increasing lists with the same members are equal. *)
Lemma sorted_same_members (l1 l2 : list string) :
  StronglySorted string_lt l1 -> StronglySorted string_lt l2 ->
  (forall x, In x l1 <-> In x l2) -> l1 = l2.
Proof.
  intros S1. revert l2.
  induction S1 as [|x l1 S1 IH F1]; intros l2 S2 H.
  - destruct l2 as [|y l2]; [reflexivity|].
    exfalso. apply (H y). left. reflexivity.
  - destruct S2 as [|y l2 S2 F2].
    { exfalso. apply (H x). left. reflexivity. }
    rewrite Forall_forall in F1, F2.
    assert (E : x = y).
    { destruct (proj1 (H x) (or_introl eq_refl)) as [E|Hx]; [auto|].
      destruct (proj2 (H y) (or_introl eq_refl)) as [E|Hy]; [auto|].
      exfalso. apply (string_lt_irrefl x).
      exact (OrderedTypeEx.String_as_OT.lt_trans _ _ _
               (F1 _ Hy) (F2 _ Hx)). }
    subst y. f_equal. apply IH; [exact S2|].
    intros z. split; intros Hz.
    + destruct (proj1 (H z) (or_intror Hz)) as [E|Hz']; [|exact Hz'].
      subst z. exfalso. exact (string_lt_irrefl x (F1 _ Hz)).
    + destruct (proj2 (H z) (or_intror Hz)) as [E|Hz']; [|exact Hz'].
      subst z. exfalso. exact (string_lt_irrefl x (F2 _ Hz)).
Qed.

(** [np.intersect1d], [np.union1d] and [np.setdiff1d] return their members
    in increasing order, each once. *)
Lemma intersect1d_sorted (a b : list string) :
  StronglySorted string_lt (intersect1d a b).
Proof. apply sort_uniq_string_sorted. Qed.

Lemma setdiff1d_sorted (a b : list string) :
  StronglySorted string_lt (setdiff1d a b).
Proof. apply sort_uniq_string_sorted. Qed.

Lemma in_union1d (x : string) (a b : list string) :
  In x (union1d a b) <-> In x a \/ In x b.
Proof.
  unfold union1d. rewrite in_sort_uniq_string. apply in_app_iff.
Qed.

Lemma in_setdiff1d_iff (x : string) (a b : list string) :
  In x (setdiff1d a b) <-> In x a /\ ~ In x b.
Proof.
  unfold setdiff1d.
  rewrite in_sort_uniq_string, filter_In, negb_true_iff.
  rewrite <- (in_labels_spec x b), not_true_iff_false. reflexivity.
Qed.

Lemma in_setdiff1d (x : string) (a b : list string) :
  In x (setdiff1d a b) -> In x a.
Proof.
  unfold setdiff1d. rewrite in_sort_uniq_string, filter_In. tauto.
Qed.

Lemma Q_negative_beyond_bound (d k : nat) :
  2 * (k + 1) < d ->
  (1 - inject_Z (Z.of_nat d) / inject_Z (2 * (Z.of_nat k + 1))%Z < 0)%Q.
Proof.
  intros H.
  assert (Hpos : (0 < inject_Z (2 * (Z.of_nat k + 1))%Z)%Q).
  { rewrite <- (Zlt_Qlt 0). lia. }
  assert (Hgt : (1 < inject_Z (Z.of_nat d)
                     / inject_Z (2 * (Z.of_nat k + 1))%Z)%Q).
  { apply Qlt_shift_div_l; [exact Hpos|].
    rewrite Qmult_1_l. rewrite <- Zlt_Qlt. lia. }
  apply (Qplus_lt_l _ _ (inject_Z (Z.of_nat d)
                         / inject_Z (2 * (Z.of_nat k + 1))%Z)).
  ring_simplify. exact Hgt.
Qed.

Lemma bindM_deref {B : Type} (r : ref) (k : DataFrame -> M B) (h : heap)
  (df : DataFrame) :
  nth_error h r = Some df -> bindM (deref r) k h = k df h.
Proof. intros H. unfold bindM, deref. rewrite H. reflexivity. Qed.

Lemma bindM_set_columns {B : Type} (r : ref) (cols : list string)
  (k : unit -> M B) (h : heap) (df : DataFrame) :
  nth_error h r = Some df ->
  bindM (set_columns r cols) k h =
  k tt (store h r {| index := index df; columns := cols;
                     values := values df |}).
Proof. intros H. unfold bindM, set_columns. rewrite H. reflexivity. Qed.

(** ** The scores over the collaborators *)

Section TreeScores.

Variable Tree : Type.
Variable to_tree : DataFrame -> result Tree.
Variable become_germline : Tree -> list string.
Variable MTree : Type.
Variable to_mtree : Tree -> MTree.
Variable _split_labels : MTree -> MTree -> MTree * MTree.
Variable _to_apted : MTree -> string.
Variable compute_edit_distance : string -> string -> nat.
Variable MLTDResult : Type.
Variable _convert_tree_to_mtld_input : Tree -> string.
Variable run_mltd : string -> string -> option MLTDResult.

Abbreviation tpted_ :=
  (tpted Tree to_tree become_germline MTree to_mtree _split_labels _to_apted
         compute_edit_distance).
Abbreviation mltd_ :=
  (mltd Tree to_tree MLTDResult _convert_tree_to_mtld_input run_mltd).
Abbreviation mltd_trees_ :=
  (mltd_trees Tree to_tree MLTDResult _convert_tree_to_mtld_input run_mltd).
Abbreviation remaining := (remaining_mutations Tree become_germline).

Lemma mltd_unfold (h : heap) (r1 r2 : ref) (g s : DataFrame) :
  nth_error h r1 = Some g -> nth_error h r2 = Some s ->
  mltd_ r1 r2 h =
  (store (store h r1 (sanitized g)) r2 (sanitized s),
   mltd_trees_ (sanitized g) (sanitized s)).
Proof.
  intros H1 H2. unfold mltd.
  rewrite (bindM_deref _ _ _ _ H1).
  rewrite (bindM_set_columns _ _ _ _ _ H1). fold (sanitized g).
  pose proof (nth_error_store_eq h r1 g (sanitized g) H1) as H1'.
  destruct (Nat.eq_dec r1 r2) as [<-|NE].
  - assert (g = s) by congruence. subst s.
    rewrite (bindM_deref _ _ _ _ H1').
    rewrite (bindM_set_columns _ _ _ _ _ H1').
    fold (sanitized (sanitized g)). rewrite sanitized_idem.
    pose proof (nth_error_store_eq _ r1 _ (sanitized g) H1') as H1''.
    rewrite (bindM_deref _ _ _ _ H1''), (bindM_deref _ _ _ _ H1'').
    reflexivity.
  - assert (H2' : nth_error (store h r1 (sanitized g)) r2 = Some s)
      by (rewrite nth_error_store_neq; assumption).
    rewrite (bindM_deref _ _ _ _ H2').
    rewrite (bindM_set_columns _ _ _ _ _ H2'). fold (sanitized s).
    assert (G1 : nth_error (store (store h r1 (sanitized g)) r2 (sanitized s))
                   r1 = Some (sanitized g))
      by (rewrite nth_error_store_neq; auto).
    pose proof (nth_error_store_eq _ r2 _ (sanitized s) H2') as G2.
    rewrite (bindM_deref _ _ _ _ G1), (bindM_deref _ _ _ _ G2).
    reflexivity.
Qed.

(** The list [tpted] rebuilds the trees on holds, in increasing order and
    once each, the shared mutations that neither first tree lists in
    [become_germline]. *)
Lemma remaining_mutations_spec (df_grnd df_sol : DataFrame)
  (tree_grnd tree_sol : Tree) (kept : list string) :
  StronglySorted string_lt kept ->
  (forall m, In m kept <->
     (In m (columns df_grnd) /\ In m (columns df_sol)) /\
     ~ In m (become_germline tree_grnd) /\
     ~ In m (become_germline tree_sol)) ->
  remaining df_grnd df_sol tree_grnd tree_sol = kept.
Proof.
  clear to_tree MTree to_mtree _split_labels _to_apted
        compute_edit_distance MLTDResult _convert_tree_to_mtld_input
        run_mltd.
  intros S H. apply sorted_same_members;
    [apply setdiff1d_sorted|exact S|].
  intros m. unfold remaining_mutations, shared_mutations.
  rewrite in_setdiff1d_iff, in_union1d, in_intersect1d, H. tauto.
Qed.

(** C6: [tpted] returns exactly [1 - d / (2 * (k + 1))].  [k] is the number
    of mutations in [kept], the mutations of both frames that neither of
    the two trees built on the shared mutations has absorbed into the
    germline, and [d] is the edit distance of the texts of the two trees
    rebuilt on [kept] and converted; nothing clamps the value, which is
    negative as soon as [d] exceeds [2 * (k + 1)]. *)
Theorem tpted_formula (df_grnd df_sol : DataFrame)
  (shared kept : list string)
  (tree_grnd tree_sol tree_grnd' tree_sol' : Tree)
  (sl_grnd sl_sol : MTree) :
  StronglySorted string_lt shared ->
  (forall m, In m shared <->
     In m (columns df_grnd) /\ In m (columns df_sol)) ->
  shared <> [] ->
  to_tree (restrict df_grnd shared) = ok tree_grnd ->
  to_tree (restrict df_sol shared) = ok tree_sol ->
  StronglySorted string_lt kept ->
  (forall m, In m kept <->
     In m shared /\
     ~ In m (become_germline tree_grnd) /\
     ~ In m (become_germline tree_sol)) ->
  to_tree (restrict df_grnd kept) = ok tree_grnd' ->
  to_tree (restrict df_sol kept) = ok tree_sol' ->
  _split_labels (to_mtree tree_grnd') (to_mtree tree_sol')
    = (sl_grnd, sl_sol) ->
  let d := compute_edit_distance (_to_apted sl_grnd) (_to_apted sl_sol) in
  let k := length kept in
  let score :=
    (1 - inject_Z (Z.of_nat d) / inject_Z (2 * (Z.of_nat k + 1))%Z)%Q in
  tpted_ df_grnd df_sol = ok (finite score) /\
  (2 * (k + 1) < d -> (score < 0)%Q).
Proof.
  clear _convert_tree_to_mtld_input run_mltd MLTDResult.
  intros Ss Hs Hne T1 T2 Sk Hk T1' T2' SL d k score. split.
  - assert (Es : shared_mutations df_grnd df_sol = shared).
    { apply sorted_same_members; [apply intersect1d_sorted|exact Ss|].
      intros m. unfold shared_mutations. rewrite in_intersect1d, Hs.
      reflexivity. }
    assert (Ek : setdiff1d shared
                   (union1d (become_germline tree_grnd)
                            (become_germline tree_sol)) = kept).
    { rewrite <- Es. apply remaining_mutations_spec; [exact Sk|].
      intros m. rewrite Hk, Hs. reflexivity. }
    unfold tpted. fold (shared_mutations df_grnd df_sol). rewrite Es.
    destruct (Nat.eqb_spec (length shared) 0) as [E|_].
    { destruct shared; [congruence|discriminate]. }
    cbn [bind ok].
    rewrite !getitem_in by (intros x Hx; apply Hs in Hx; tauto).
    cbn [bind ok]. rewrite T1. cbn [bind ok]. rewrite T2. cbn [bind ok].
    rewrite Ek.
    rewrite !getitem_in by (intros x Hx; apply Hk, proj1, Hs in Hx; tauto).
    cbn [bind ok]. rewrite T1'. cbn [bind ok]. rewrite T2'. cbn [bind ok].
    rewrite SL. subst score d k.
    unfold py_truediv.
    destruct (Z.eqb_spec (2 * (Z.of_nat (length kept) + 1)) 0) as [Z0|_];
      [lia|].
    reflexivity.
  - apply Q_negative_beyond_bound.
Qed.


(** C10 (the code departs from it for [mltd]): [gs], [ad], [dl], [cc] and
    [tpted] leave the store as it was; [mltd] assigns the rewritten labels
    to the [columns] of both frames of its caller, here ["a:b"] and ["a=b"],
    which both read ["a_b"] after the call. *)
Theorem mltd_rewrites_caller_columns :
  (forall (h : heap) (r1 r2 : ref),
     fst (call gs r1 r2 h) = h /\
     fst (call ad r1 r2 h) = h /\
     fst (call dl r1 r2 h) = h /\
     fst (call cc r1 r2 h) = h /\
     fst (call tpted_ r1 r2 h) = h) /\
  fst (mltd_ 0 1 [colon_frame; equals_frame]) =
    [sanitized colon_frame; sanitized equals_frame] /\
  map columns (fst (mltd_ 0 1 [colon_frame; equals_frame])) =
    [["a_b"]; ["a_b"]]%string /\
  fst (mltd_ 0 1 [colon_frame; equals_frame]) <>
    [colon_frame; equals_frame].
Proof.
  split; [|split; [|split]].
  - intros h r1 r2. repeat split; apply call_store.
  - rewrite (mltd_unfold [colon_frame; equals_frame] 0 1
               colon_frame equals_frame eq_refl eq_refl).
    reflexivity.
  - rewrite (mltd_unfold [colon_frame; equals_frame] 0 1
               colon_frame equals_frame eq_refl eq_refl).
    reflexivity.
  - rewrite (mltd_unfold [colon_frame; equals_frame] 0 1
               colon_frame equals_frame eq_refl eq_refl).
    simpl. intros E. inversion E.
Qed.

End TreeScores.

(** ** [ad] and the score of the specification *)

Lemma ad_step_tests (M_grnd M_sol : ndarray)
  (e : list (nat * nat)) (n : nat) (ij : nat * nat) :
  ad_step M_grnd M_sol (e, n) ij =
  if ad_counted M_grnd ij
  then (if ad_erred M_grnd M_sol ij then e ++ [ij] else e, n + 1)
  else (e, n).
Proof.
  destruct ij as [i j]. unfold ad_step, ad_counted, ad_erred.
  destruct ((np_sum (np_mul (column M_grnd i) (column M_grnd j)) >? 0)%Z
            && negb (colsum M_grnd i =? colsum M_grnd j)%Z); [|reflexivity].
  destruct (np_sum (np_mul (column M_sol i) (column M_sol j)) =? 0)%Z;
    [reflexivity|].
  destruct ((colsum M_grnd j >? colsum M_grnd i)%Z
            && (colsum M_sol j <=? colsum M_sol i)%Z); [reflexivity|].
  destruct ((colsum M_grnd i >? colsum M_grnd j)%Z
            && (colsum M_sol i <=? colsum M_sol j)%Z); reflexivity.
Qed.

Lemma ad_fold_filter (M_grnd M_sol : ndarray) (l : list (nat * nat)) :
  forall e n,
    fold_left (ad_step M_grnd M_sol) l (e, n) =
    (e ++ filter (fun ij => ad_counted M_grnd ij
                            && ad_erred M_grnd M_sol ij) l,
     n + length (filter (ad_counted M_grnd) l)).
Proof.
  induction l as [|ij l IH]; intros e n; cbn [fold_left filter].
  - rewrite app_nil_r, Nat.add_0_r. reflexivity.
  - rewrite ad_step_tests.
    destruct (ad_counted M_grnd ij); cbn [andb].
    + destruct (ad_erred M_grnd M_sol ij); rewrite IH; cbn [length].
      * rewrite <- app_assoc. cbn [app]. f_equal. lia.
      * f_equal. lia.
    + apply IH.
Qed.

Lemma ad_loop_filter (M_grnd M_sol : ndarray) :
  ad_loop M_grnd M_sol =
  (filter (fun ij => ad_counted M_grnd ij && ad_erred M_grnd M_sol ij)
          (upper_pairs (shape1 M_grnd)),
   length (filter (ad_counted M_grnd) (upper_pairs (shape1 M_grnd)))).
Proof.
  unfold ad_loop. rewrite ad_fold_filter. reflexivity.
Qed.

(** The pairs of the two loops, the diagonal apart, are the unordered
    pairs of positions. *)
Lemma filter_upper_pairs (P : nat * nat -> bool) (m : nat) :
  (forall i, P (i, i) = false) ->
  filter P (upper_pairs m) = filter P (unordered_pairs (seq 0 m)).
Proof.
  intros HP. unfold upper_pairs.
  assert (H : forall len s, s + len = m ->
            filter P (flat_map (fun i => map (fun j => (i, j))
                                             (seq i (m - i))) (seq s len))
            = filter P (unordered_pairs (seq s len))).
  { induction len as [|len IH]; intros s Hs; simpl; [reflexivity|].
    rewrite !filter_app, (IH (S s)) by lia. f_equal.
    replace (m - s) with (S len) by lia. simpl. rewrite HP. reflexivity. }
  apply H. lia.
Qed.

Lemma unordered_pairs_map {A B : Type} (f : A -> B) (l : list A) :
  unordered_pairs (map f l) =
  map (fun p => (f (fst p), f (snd p))) (unordered_pairs l).
Proof.
  induction l as [|x l IH]; simpl; [reflexivity|].
  rewrite map_app, !map_map, IH. reflexivity.
Qed.

Lemma in_unordered_pairs {A : Type} (l : list A) (x y : A) :
  In (x, y) (unordered_pairs l) -> In x l /\ In y l.
Proof.
  induction l as [|z l IH]; simpl; [tauto|].
  rewrite in_app_iff, in_map_iff. intros [(w & E & Hw)|H].
  - inversion E; subst. auto.
  - destruct (IH H). auto.
Qed.

Lemma filter_map_length {A B : Type} (P : B -> bool) (f : A -> B)
  (l : list A) :
  length (filter P (map f l)) = length (filter (fun x => P (f x)) l).
Proof.
  induction l as [|x l IH]; simpl; [reflexivity|].
  destruct (P (f x)); simpl; rewrite IH; reflexivity.
Qed.

Lemma filter_filter {A : Type} (P Q : A -> bool) (l : list A) :
  filter Q (filter P l) = filter (fun x => P x && Q x) l.
Proof.
  induction l as [|x l IH]; simpl; [reflexivity|].
  destruct (P x); simpl; [destruct (Q x)|]; rewrite IH; reflexivity.
Qed.

Lemma map_nth_seq {A : Type} (l : list A) (d : A) :
  map (fun i => nth i l d) (seq 0 (length l)) = l.
Proof.
  apply (nth_ext _ _ d d).
  - rewrite length_map, length_seq. reflexivity.
  - intros i Hi. rewrite length_map, length_seq in Hi.
    rewrite (nth_map_seq _ 0 (length l) i d) by assumption. reflexivity.
Qed.

(** Sums over columns of 0s and 1s count cells. *)
Section BinarySums.

Variables (f g : nat -> Z) (l : list nat).
Hypothesis f_binary : forall r, In r l -> f r = 0%Z \/ f r = 1%Z.
Hypothesis g_binary : forall r, In r l -> g r = 0%Z \/ g r = 1%Z.

Lemma np_sum_binary :
  np_sum (map f l) = Z.of_nat (length (filter (fun r => (f r =? 1)%Z) l)).
Proof.
  clear g_binary. induction l as [|r t IH]; [reflexivity|].
  cbn [map np_sum fold_right filter]. fold (np_sum (map f t)).
  rewrite IH by (intros; apply f_binary; right; assumption).
  destruct (f_binary r (or_introl eq_refl)) as [E|E];
    destruct (Z.eqb_spec (f r) 1); cbn [length]; lia.
Qed.

Lemma np_sum_mul_binary :
  np_sum (np_mul (map f l) (map g l)) =
  Z.of_nat (length (filter (fun r => (f r =? 1)%Z && (g r =? 1)%Z) l)).
Proof.
  unfold np_mul. induction l as [|r t IH]; [reflexivity|].
  cbn [map combine np_sum fold_right filter fst snd].
  fold (np_sum (map (fun p => (fst p * snd p)%Z)
                    (combine (map f t) (map g t)))).
  rewrite IH by (intros; first [apply f_binary | apply g_binary];
                 right; assumption).
  destruct (f_binary r (or_introl eq_refl)) as [E|E],
           (g_binary r (or_introl eq_refl)) as [E'|E'];
    destruct (Z.eqb_spec (f r) 1), (Z.eqb_spec (g r) 1);
    cbn [andb length]; rewrite E, E' in *; lia.
Qed.

End BinarySums.

Lemma sets_intersect_filter (P Q : nat -> bool) (l : list nat) :
  sets_intersect (filter P l) (filter Q l) =
  negb (length (filter (fun r => P r && Q r) l) =? 0).
Proof.
  apply Bool.eq_iff_eq_true. unfold sets_intersect.
  rewrite existsb_exists, negb_true_iff, Nat.eqb_neq. split.
  - intros (x & Hx & H). apply existsb_exists in H.
    destruct H as (y & Hy & E). apply Nat.eqb_eq in E. subst y.
    apply filter_In in Hx, Hy. destruct Hx as [Hl HP], Hy as [_ HQ].
    intros Z0. apply length_zero_iff_nil in Z0.
    assert (Hin : In x (filter (fun r => P r && Q r) l))
      by (apply filter_In; rewrite HP, HQ; auto).
    rewrite Z0 in Hin. exact Hin.
  - intros NZ.
    destruct (filter (fun r => P r && Q r) l) as [|x t] eqn:E;
      [contradiction|].
    assert (Hin : In x (filter (fun r => P r && Q r) l))
      by (rewrite E; left; reflexivity).
    apply filter_In in Hin. destruct Hin as [Hl HPQ].
    apply andb_true_iff in HPQ. destruct HPQ as [HP HQ].
    exists x. split; [apply filter_In; auto|].
    apply existsb_exists. exists x.
    split; [apply filter_In; auto|apply Nat.eqb_refl].
Qed.

Lemma column_values_of (df : DataFrame) (keys : list string) (i : nat) :
  i < length keys ->
  column (values_of df keys) i =
  column (values df) (position (columns df) (nth i keys EmptyString)).
Proof.
  intros Hi. unfold column, values_of. cbn [shape0 take].
  rewrite length_seq. apply map_ext_in. intros r Hr. apply in_seq in Hr.
  rewrite get_take by (rewrite ?length_seq, ?length_map; lia).
  rewrite seq_nth by lia.
  rewrite (nth_map_in _ keys i 0 EmptyString) by assumption.
  reflexivity.
Qed.

Lemma wf_df_shape1 (df : DataFrame) :
  wf_df df -> shape1 (values df) = length (columns df).
Proof.
  unfold wf_df, wf_df_b. intros H.
  repeat (apply andb_true_iff in H; destruct H as [H ?]).
  apply Nat.eqb_eq. assumption.
Qed.

Lemma binary_entry (df : DataFrame) (a : string) (r : nat) :
  wf_df df -> binary_b df = true -> In a (columns df) ->
  r < shape0 (values df) ->
  get (values df) r (position (columns df) a) = 0%Z \/
  get (values df) r (position (columns df) a) = 1%Z.
Proof.
  intros W B Ha Hr. unfold binary_b in B. rewrite forallb_forall in B.
  assert (Hin : In (get (values df) r (position (columns df) a))
                   (ravel (values df))).
  { apply in_ravel. exists r, (position (columns df) a).
    repeat split; auto. rewrite (wf_df_shape1 df W).
    apply position_lt, Ha. }
  specialize (B _ Hin). apply orb_true_iff in B.
  destruct B as [B|B]; apply Z.eqb_eq in B; auto.
Qed.

Lemma colsum_supporting (df : DataFrame) (a : string) :
  wf_df df -> binary_b df = true -> In a (columns df) ->
  colsum (values df) (position (columns df) a) =
  Z.of_nat (length (supporting_cells df a)).
Proof.
  intros W B Ha. unfold colsum, column, supporting_cells.
  apply np_sum_binary. intros r Hr. apply in_seq in Hr.
  apply binary_entry; auto. lia.
Qed.

Lemma capsum_supporting (df : DataFrame) (a b : string) :
  wf_df df -> binary_b df = true ->
  In a (columns df) -> In b (columns df) ->
  (np_sum (np_mul (column (values df) (position (columns df) a))
                  (column (values df) (position (columns df) b))) =? 0)%Z =
  negb (sets_intersect (supporting_cells df a) (supporting_cells df b)).
Proof.
  intros W B Ha Hb. unfold column, supporting_cells.
  rewrite np_sum_mul_binary
    by (intros r Hr; apply in_seq in Hr; apply binary_entry; auto; lia).
  rewrite sets_intersect_filter, negb_involutive.
  destruct (Z.eqb_spec (Z.of_nat (length (filter
             (fun r => (get (values df) r (position (columns df) a) =? 1)%Z
                    && (get (values df) r (position (columns df) b) =? 1)%Z)
             (seq 0 (shape0 (values df)))))) 0);
    symmetry; [apply Nat.eqb_eq|apply Nat.eqb_neq]; lia.
Qed.

Lemma capsum_positive (df : DataFrame) (a b : string) :
  wf_df df -> binary_b df = true ->
  In a (columns df) -> In b (columns df) ->
  (np_sum (np_mul (column (values df) (position (columns df) a))
                  (column (values df) (position (columns df) b))) >? 0)%Z =
  sets_intersect (supporting_cells df a) (supporting_cells df b).
Proof.
  intros W B Ha Hb.
  pose proof (capsum_supporting df a b W B Ha Hb) as H.
  assert (Hnn : (0 <= np_sum (np_mul
                    (column (values df) (position (columns df) a))
                    (column (values df) (position (columns df) b))))%Z).
  { unfold column. rewrite np_sum_mul_binary
      by (intros r Hr; apply in_seq in Hr; apply binary_entry; auto; lia).
    lia. }
  destruct (sets_intersect (supporting_cells df a) (supporting_cells df b));
    simpl in H.
  - apply Z.eqb_neq in H. apply Z.gtb_lt. lia.
  - apply Z.eqb_eq in H. rewrite H. reflexivity.
Qed.

Lemma nat_Z_tests (x y : nat) :
  (Z.of_nat x =? Z.of_nat y)%Z = (x =? y) /\
  (Z.of_nat y >? Z.of_nat x)%Z = (x <? y) /\
  (Z.of_nat x <=? Z.of_nat y)%Z = (x <=? y).
Proof.
  repeat split.
  - destruct (Z.eqb_spec (Z.of_nat x) (Z.of_nat y)), (Nat.eqb_spec x y);
      auto; lia.
  - destruct (Z.gtb_spec (Z.of_nat y) (Z.of_nat x)), (Nat.ltb_spec x y);
      auto; lia.
  - destruct (Z.leb_spec (Z.of_nat x) (Z.of_nat y)), (Nat.leb_spec x y);
      auto; lia.
Qed.

Section SharedColumns.

Variables df_grnd df_sol : DataFrame.
Hypothesis wf_grnd : wf_df df_grnd.
Hypothesis wf_sol : wf_df df_sol.
Hypothesis binary_grnd : binary_b df_grnd = true.
Hypothesis binary_sol : binary_b df_sol = true.

Let inter := shared_mutations df_grnd df_sol.
Let lab (i : nat) : string := nth i inter EmptyString.

Lemma lab_shared (i : nat) :
  i < length inter ->
  In (lab i) (columns df_grnd) /\ In (lab i) (columns df_sol).
Proof.
  intros Hi. apply in_intersect1d. apply nth_In. exact Hi.
Qed.

Lemma ad_counted_spec (i j : nat) :
  i < length inter -> j < length inter ->
  ad_counted (values_of df_grnd inter) (i, j) =
  ancestor_descendant_pair df_grnd (lab i, lab j).
Proof.
  intros Hi Hj.
  destruct (lab_shared i Hi) as [Gi _], (lab_shared j Hj) as [Gj _].
  unfold ad_counted, ancestor_descendant_pair, colsum.
  rewrite !column_values_of by assumption. fold (lab i) (lab j).
  rewrite capsum_positive by assumption.
  fold (colsum (values df_grnd) (position (columns df_grnd) (lab i))).
  fold (colsum (values df_grnd) (position (columns df_grnd) (lab j))).
  rewrite !colsum_supporting by assumption.
  cbn [fst snd].
  rewrite (proj1 (nat_Z_tests _ _)). reflexivity.
Qed.

Lemma ad_erred_spec (i j : nat) :
  i < length inter -> j < length inter ->
  ad_erred (values_of df_grnd inter) (values_of df_sol inter) (i, j) =
  violated_pair df_grnd df_sol (lab i, lab j).
Proof.
  intros Hi Hj.
  destruct (lab_shared i Hi) as [Gi Si], (lab_shared j Hj) as [Gj Sj].
  unfold ad_erred, violated_pair, colsum.
  rewrite !column_values_of by assumption. fold (lab i) (lab j).
  rewrite capsum_supporting by assumption.
  fold (colsum (values df_grnd) (position (columns df_grnd) (lab i))).
  fold (colsum (values df_grnd) (position (columns df_grnd) (lab j))).
  fold (colsum (values df_sol) (position (columns df_sol) (lab i))).
  fold (colsum (values df_sol) (position (columns df_sol) (lab j))).
  rewrite !colsum_supporting by assumption.
  cbn [fst snd].
  rewrite !(proj1 (proj2 (nat_Z_tests _ _))).
  rewrite !(proj2 (proj2 (nat_Z_tests _ _))).
  reflexivity.
Qed.

Lemma ad_counted_diagonal (M_grnd : ndarray) (i : nat) :
  ad_counted M_grnd (i, i) = false.
Proof.
  unfold ad_counted. rewrite Z.eqb_refl. apply andb_false_r.
Qed.

(** A test on pairs of positions and the same test on pairs of labels
    count the same pairs. *)
Lemma count_by_position (P : nat * nat -> bool)
  (R : string * string -> bool) :
  (forall i, P (i, i) = false) ->
  (forall i j, i < length inter -> j < length inter ->
     P (i, j) = R (lab i, lab j)) ->
  length (filter P (upper_pairs (length inter))) =
  length (filter R (unordered_pairs inter)).
Proof.
  intros HD HPR.
  rewrite (filter_upper_pairs P _ HD).
  rewrite <- (map_nth_seq inter EmptyString) at 2.
  rewrite unordered_pairs_map, filter_map_length.
  f_equal. apply filter_ext_in. intros [i j] Hij.
  apply in_unordered_pairs in Hij. destruct Hij as [Hi Hj].
  apply in_seq in Hi. apply in_seq in Hj.
  cbn [fst snd]. apply HPR; lia.
Qed.

Lemma ad_counts_spec :
  ad_n_adpairs df_grnd df_sol = length (ad_pairs_spec df_grnd df_sol) /\
  length (fst (ad_counts df_grnd df_sol)) =
  length (ad_violated_spec df_grnd df_sol).
Proof.
  unfold ad_n_adpairs, ad_counts. fold inter. cbv zeta.
  rewrite ad_loop_filter. cbn [fst snd].
  assert (Hm : shape1 (values_of df_grnd inter) = length inter)
    by (unfold values_of; cbn [shape1 take]; apply length_map).
  rewrite Hm. split.
  - unfold ad_pairs_spec. fold inter.
    apply count_by_position.
    + intros i. apply ad_counted_diagonal.
    + apply ad_counted_spec.
  - unfold ad_violated_spec, ad_pairs_spec. fold inter.
    rewrite filter_filter.
    apply (count_by_position
             (fun ij => ad_counted (values_of df_grnd inter) ij
                        && ad_erred (values_of df_grnd inter)
                                    (values_of df_sol inter) ij)
             (fun ab => ancestor_descendant_pair df_grnd ab
                        && violated_pair df_grnd df_sol ab)).
    + intros i. rewrite ad_counted_diagonal. reflexivity.
    + intros i j Hi Hj.
      rewrite ad_counted_spec, ad_erred_spec by assumption. reflexivity.
Qed.

End SharedColumns.

(** C5: on frames of 0s and 1s with unique labels, [ad] computes the
    ancestor-descendant score of the specification on the shared mutation
    columns: [n_adpairs] counts the unordered pairs of shared mutations
    whose supporting-cell sets in the ground truth intersect and differ in
    size, [error_pairs] holds as many pairs as are violated (disjoint sets
    in the candidate, or the larger side of the ground truth smaller or
    equal in the candidate), and the result is 1 minus violated over
    total; with no such pair [ad] returns no number. *)
Theorem ad_refines_spec (df_grnd df_sol : DataFrame) :
  wf_df df_grnd -> wf_df df_sol ->
  binary_b df_grnd = true -> binary_b df_sol = true ->
  ad_n_adpairs df_grnd df_sol = length (ad_pairs_spec df_grnd df_sol) /\
  length (fst (ad_counts df_grnd df_sol)) =
    length (ad_violated_spec df_grnd df_sol) /\
  match ad_spec df_grnd df_sol with
  | Some q => ad df_grnd df_sol = ok (finite q)
  | None => raises (ad df_grnd df_sol)
  end.
Proof.
  intros Wg Ws Bg Bs.
  destruct (ad_counts_spec df_grnd df_sol Wg Ws Bg Bs) as [Hn He].
  split; [exact Hn|]. split; [exact He|].
  unfold ad_spec. rewrite ad_unfold, Hn, He.
  destruct (Nat.eqb_spec (length (ad_pairs_spec df_grnd df_sol)) 0)
    as [Z0|NZ].
  - rewrite Z0.
    destruct (length (shared_mutations df_grnd df_sol) =? 0);
      eexists; reflexivity.
  - destruct (Nat.eqb_spec (length (shared_mutations df_grnd df_sol)) 0)
      as [E|_].
    + exfalso. apply NZ. unfold ad_pairs_spec.
      destruct (shared_mutations df_grnd df_sol); [reflexivity|discriminate].
    + unfold py_truediv.
      destruct (Z.eqb_spec
                  (Z.of_nat (length (ad_pairs_spec df_grnd df_sol))) 0);
        [lia|reflexivity].
Qed.

(** ** Instances *)

Example ad_three_clones_candidate :
  ad_n_adpairs three_clones three_clones_candidate = 1 /\
  length (fst (ad_counts three_clones three_clones_candidate)) = 1.
Proof. vm_compute. split; reflexivity. Qed.

Lemma ad_refines_spec_three_clones :
  ad_n_adpairs three_clones three_clones_candidate =
    length (ad_pairs_spec three_clones three_clones_candidate) /\
  length (fst (ad_counts three_clones three_clones_candidate)) =
    length (ad_violated_spec three_clones three_clones_candidate) /\
  match ad_spec three_clones three_clones_candidate with
  | Some q => ad three_clones three_clones_candidate = ok (finite q)
  | None => raises (ad three_clones three_clones_candidate)
  end.
Proof.
  apply ad_refines_spec; vm_compute; reflexivity.
Defined.

Lemma string_compare_lt (x y : string) :
  String.compare x y = Lt -> string_lt x y.
Proof. apply OrderedTypeEx.String_as_OT.cmp_lt. Qed.

Lemma tpted_formula_lost_mutations :
  tpted DataFrame tree_of_frame absent_mutations DataFrame (fun t => t)
        both_trees cells_text mismatches lost_grnd lost_sol =
  ok (finite (1 - inject_Z 10 / inject_Z 4)%Q) /\
  (1 - inject_Z 10 / inject_Z 4 < 0)%Q.
Proof.
  destruct (tpted_formula DataFrame tree_of_frame absent_mutations
              DataFrame (fun t => t) both_trees cells_text mismatches
              lost_grnd lost_sol
              ["mut1"; "mut2"; "mut3"]%string ["mut1"]%string
              (restrict lost_grnd ["mut1"; "mut2"; "mut3"]%string)
              (restrict lost_sol ["mut1"; "mut2"; "mut3"]%string)
              (restrict lost_grnd ["mut1"]%string)
              (restrict lost_sol ["mut1"]%string)
              (restrict lost_grnd ["mut1"]%string)
              (restrict lost_sol ["mut1"]%string))
    as [E N]; try (vm_compute; reflexivity).
  - repeat constructor; apply string_compare_lt; reflexivity.
  - intros m. simpl. tauto.
  - discriminate.
  - repeat constructor.
  - intros m. vm_compute.
    intuition (subst; try discriminate; auto).
  - split; [exact E|]. apply N. vm_compute. lia.
Defined.



(** * Further properties of the checkers *)

(** What [astype(int)] makes of an entry. *)
Lemma get_astype_int (df : FloatFrame) (i j : nat) :
  get (values (astype_int df)) i j = trunc (float_get df i j).
Proof.
  unfold get, float_get, astype_int. cbn [values data].
  change (@nil Z) with (map trunc []).
  rewrite (map_nth (map trunc)). change 0%Z with (trunc 0%Q).
  apply map_nth.
Qed.

Lemma trunc_zero (x : Q) : trunc x = 0%Z <-> (-1 < x /\ x < 1)%Q.
Proof.
  destruct x as [n d]. unfold trunc, Qlt. cbn [Qnum Qden].
  rewrite Z.quot_small_iff by lia. lia.
Qed.

Lemma trunc_one (x : Q) : trunc x = 1%Z <-> (1 <= x /\ x < 2)%Q.
Proof.
  destruct x as [n d]. unfold trunc, Qlt, Qle. cbn [Qnum Qden].
  pose proof (Z.quot_rem' n (Zpos d)) as E.
  split.
  - intros H. rewrite H in E.
    destruct (Z.le_gt_cases 0 n) as [P|N].
    + pose proof (Z.rem_bound_pos n (Zpos d) P ltac:(lia)). lia.
    + pose proof (Z.rem_bound_abs n (Zpos d) ltac:(lia)). lia.
  - intros [L U]. symmetry.
    apply (Z.quot_unique n (Zpos d) 1 (n - Zpos d)); lia.
Qed.

Lemma trunc_binary (x : Q) :
  trunc x = 0%Z \/ trunc x = 1%Z <-> (-1 < x /\ x < 2)%Q.
Proof.
  rewrite trunc_zero, trunc_one. split.
  - intros [[L U]|[L U]]; split; lra.
  - intros [L U]. destruct (Qlt_le_dec x 1); [left|right]; split; lra.
Qed.

(** On a frame of integers [is_conflict_free_gusfield] returns [True]
    exactly when the entries are all 0 or 1, a 0 and a 1 occur, and no two
    columns conflict. *)
Lemma gusfield_accepts_integers (df_in : DataFrame) :
  let D := values df_in in
  is_conflict_free_gusfield df_in = true <->
  (forall i j, i < shape0 D -> j < shape1 D ->
     get D i j = 0%Z \/ get D i j = 1%Z) /\
  (exists i j, i < shape0 D /\ j < shape1 D /\ get D i j = 0%Z) /\
  (exists i j, i < shape0 D /\ j < shape1 D /\ get D i j = 1%Z) /\
  (forall p q, p < shape1 D -> q < shape1 D -> ~ conflict D p q).
Proof.
  intros D. rewrite is_conflict_free_gusfield_spec. fold D.
  unfold both_values, no_conflict. split.
  - intros ((B & B0 & B1) & NC). repeat split.
    + intros i j Hi Hj. apply B, in_ravel. exists i, j. auto.
    + apply in_ravel in B0. exact B0.
    + apply in_ravel in B1. exact B1.
    + exact NC.
  - intros (B & B0 & B1 & NC). repeat split.
    + intros x Hx. apply in_ravel in Hx.
      destruct Hx as (i & j & Hi & Hj & <-). apply B; assumption.
    + apply in_ravel. exact B0.
    + apply in_ravel. exact B1.
    + exact NC.
Qed.

(** X1: on a frame of finite numbers whose integer parts [int64] holds,
    [is_conflict_free_gusfield] returns [True] exactly when every entry
    lies strictly between -1 and 2 (so that [astype(int)] makes it 0 or
    1), some entry lies strictly between -1 and 1 (a 0 after the cast),
    some entry is at least 1 (a 1 after the cast), and no two columns of
    the cast matrix show the three rows (1,1), (1,0), (0,1). *)
Theorem gusfield_accepts_iff (df_in : FloatFrame) :
  fits_int64 df_in = true ->
  let n := float_shape0 df_in in
  let m := float_shape1 df_in in
  let x := float_get df_in in
  is_conflict_free_gusfield (astype_int df_in) = true <->
  (forall i j, i < n -> j < m -> (-1 < x i j /\ x i j < 2)%Q) /\
  (exists i j, i < n /\ j < m /\ (-1 < x i j /\ x i j < 1)%Q) /\
  (exists i j, i < n /\ j < m /\ (1 <= x i j /\ x i j < 2)%Q) /\
  (forall p q, p < m -> q < m ->
     ~ conflict (values (astype_int df_in)) p q).
Proof.
  intros _ n m x. subst x.
  rewrite (gusfield_accepts_integers (astype_int df_in)). cbv zeta.
  change (shape0 (values (astype_int df_in))) with n.
  change (shape1 (values (astype_int df_in))) with m.
  split.
  - intros (B & (i0 & j0 & Hi0 & Hj0 & E0) & (i1 & j1 & Hi1 & Hj1 & E1)
            & NC).
    split; [|split; [|split]].
    + intros i j Hi Hj. apply trunc_binary.
      rewrite <- !get_astype_int. apply B; assumption.
    + exists i0, j0. rewrite get_astype_int in E0.
      apply trunc_zero in E0. auto.
    + exists i1, j1. rewrite get_astype_int in E1.
      apply trunc_one in E1. auto.
    + exact NC.
  - intros (B & (i0 & j0 & Hi0 & Hj0 & E0) & (i1 & j1 & Hi1 & Hj1 & E1)
            & NC).
    split; [|split; [|split]].
    + intros i j Hi Hj. rewrite !get_astype_int.
      apply trunc_binary, B; assumption.
    + exists i0, j0. rewrite get_astype_int.
      apply trunc_zero in E0. auto.
    + exists i1, j1. rewrite get_astype_int.
      apply trunc_one in E1. auto.
    + exact NC.
Qed.

Lemma gusfield_accepts_iff_half_frame :
  let n := float_shape0 half_frame in
  let m := float_shape1 half_frame in
  let x := float_get half_frame in
  is_conflict_free_gusfield (astype_int half_frame) = true <->
  (forall i j, i < n -> j < m -> (-1 < x i j /\ x i j < 2)%Q) /\
  (exists i j, i < n /\ j < m /\ (-1 < x i j /\ x i j < 1)%Q) /\
  (exists i j, i < n /\ j < m /\ (1 <= x i j /\ x i j < 2)%Q) /\
  (forall p q, p < m -> q < m ->
     ~ conflict (values (astype_int half_frame)) p q).
Proof.
  apply (gusfield_accepts_iff half_frame). reflexivity.
Defined.

(** X2: on a frame of finite numbers whose integer parts [int64] holds, an
    entry that is at most -1 or at least 2 (one that [astype(int)] makes
    neither 0 nor 1, such as the missing-data value 3) makes both checkers
    return [False], whatever the rest of the matrix. *)
Theorem checkers_reject_other_values (df_in : FloatFrame) (i j : nat) :
  fits_int64 df_in = true ->
  i < float_shape0 df_in -> j < float_shape1 df_in ->
  (float_get df_in i j <= -1 \/ 2 <= float_get df_in i j)%Q ->
  is_conflict_free (astype_int df_in) = false /\
  is_conflict_free_gusfield (astype_int df_in) = false.
Proof.
  intros _ Hi Hj Hx.
  assert (NB : ~ both_values (ravel (values (astype_int df_in)))).
  { intros (B & _ & _).
    assert (T : trunc (float_get df_in i j) = 0%Z \/
                trunc (float_get df_in i j) = 1%Z).
    { rewrite <- get_astype_int. apply B, in_ravel. exists i, j. auto. }
    apply trunc_binary in T. destruct T as [L U].
    destruct Hx as [Hx|Hx]; lra. }
  split.
  - destruct (is_conflict_free (astype_int df_in)) eqn:E;
      [exfalso|reflexivity].
    apply is_conflict_free_spec in E. tauto.
  - destruct (is_conflict_free_gusfield (astype_int df_in)) eqn:E;
      [exfalso|reflexivity].
    apply is_conflict_free_gusfield_spec in E. tauto.
Qed.

Lemma checkers_reject_missing_data_sentinel :
  is_conflict_free (astype_int invalid_value) = false /\
  is_conflict_free_gusfield (astype_int invalid_value) = false.
Proof.
  apply (checkers_reject_other_values invalid_value 1 0);
    [reflexivity|simpl; lia|simpl; lia|].
  right. vm_compute. discriminate.
Defined.

(** X3: on an array of 0s and 1s (what [is_conflict_free_gusfield] passes,
    and where the order of the rows' bytes is the order of their entries)
    [_sort_bin] returns the input with its columns reordered by the
    permutation [idx] it also returns: [idx] is a permutation of
    [range(m)], the result has the shape of the input and reads
    [a[i, idx[j]]] at [(i, j)], and its columns stand in descending
    order. *)
Theorem sort_bin_sorts_columns (a : ndarray) :
  binary_array_b a = true ->
  let O_mtr := fst (sort_bin a) in
  let idx := snd (sort_bin a) in
  Permutation idx (seq 0 (shape1 a)) /\
  shape0 O_mtr = shape0 a /\
  shape1 O_mtr = shape1 a /\
  (forall i j, i < shape0 a -> j < shape1 a ->
     get O_mtr i j = get a i (nth j idx 0)) /\
  (forall j k, j < k -> k < shape1 a ->
     column O_mtr j = column a (nth j idx 0) /\
     lex_leb (column O_mtr k) (column O_mtr j) = true).
Proof.
  intros _ O_mtr idx.
  destruct (sort_bin_shape a) as [S0 S1].
  assert (HC : forall j, j < shape1 a ->
            column O_mtr j = column a (nth j idx 0)).
  { intros j Hj. unfold column. fold O_mtr in S0. rewrite S0.
    apply map_ext_in. intros i Hi. apply in_seq in Hi.
    apply sort_bin_get; [lia|assumption]. }
  split; [apply sort_bin_perm|]. split; [exact S0|]. split; [exact S1|].
  split.
  - intros i j Hi Hj. apply sort_bin_get; assumption.
  - intros j k Hjk Hk. split; [apply HC; lia|].
    rewrite !HC by lia. apply sort_bin_descending; assumption.
Qed.

Lemma sort_bin_sorts_columns_three_clones :
  let a := values three_clones in
  let O_mtr := fst (sort_bin a) in
  let idx := snd (sort_bin a) in
  Permutation idx (seq 0 (shape1 a)) /\
  shape0 O_mtr = shape0 a /\
  shape1 O_mtr = shape1 a /\
  (forall i j, i < shape0 a -> j < shape1 a ->
     get O_mtr i j = get a i (nth j idx 0)) /\
  (forall j k, j < k -> k < shape1 a ->
     column O_mtr j = column a (nth j idx 0) /\
     lex_leb (column O_mtr k) (column O_mtr j) = true).
Proof.
  apply (sort_bin_sorts_columns (values three_clones)). reflexivity.
Defined.

(** X4: the loop that fills [Lij] leaves at [(i, j)] 0 where [O_mtr[i, j]]
    is not 1, and where it is 1 the position, counted from 1, of the
    nearest earlier 1 of row [i] (0 when the row has none before [j]). *)
Theorem Lij_nearest_earlier_one (O_mtr : ndarray) (i j : nat) :
  i < shape0 O_mtr -> j < shape1 O_mtr ->
  let l := nth j (nth i (fill_Lij O_mtr) []) 0 in
  (get O_mtr i j <> 1%Z -> l = 0) /\
  (get O_mtr i j = 1%Z ->
   l <= j /\
   (l = 0 \/ get O_mtr i (l - 1) = 1%Z) /\
   (forall k, l <= k -> k < j -> get O_mtr i k <> 1%Z)).
Proof.
  intros Hi Hj l. split; intros H.
  - apply (Lij_at_zero O_mtr i j Hi Hj H).
  - apply (Lij_at_one O_mtr i j Hi Hj H).
Qed.

Lemma Lij_nearest_earlier_one_chain :
  let O_mtr := array [[1; 0; 1]; [1; 1; 0]]%Z in
  let l := nth 2 (nth 0 (fill_Lij O_mtr) []) 0 in
  (get O_mtr 0 2 <> 1%Z -> l = 0) /\
  (get O_mtr 0 2 = 1%Z ->
   l <= 2 /\
   (l = 0 \/ get O_mtr 0 (l - 1) = 1%Z) /\
   (forall k, l <= k -> k < 2 -> get O_mtr 0 k <> 1%Z)).
Proof.
  apply (Lij_nearest_earlier_one (array [[1; 0; 1]; [1; 1; 0]]%Z) 0 2);
    simpl; lia.
Defined.

(** * Further properties of the scores *)

Lemma Q_fraction_bounds (e n : nat) :
  e <= n -> n <> 0 ->
  (0 <= inject_Z (Z.of_nat e) / inject_Z (Z.of_nat n) <= 1)%Q.
Proof.
  intros Hle Hn.
  assert (Hpos : (0 < inject_Z (Z.of_nat n))%Q)
    by (rewrite <- (Zlt_Qlt 0); lia).
  split.
  - apply Qle_shift_div_l; [exact Hpos|].
    rewrite Qmult_0_l. rewrite <- (Zle_Qle 0). lia.
  - apply Qle_shift_div_r; [exact Hpos|].
    rewrite Qmult_1_l. rewrite <- Zle_Qle. lia.
Qed.

Lemma filter_and_length {A : Type} (P Q : A -> bool) (l : list A) :
  length (filter (fun x => P x && Q x) l) <= length (filter P l).
Proof.
  induction l as [|x l IH]; simpl; [lia|].
  destruct (P x), (Q x); simpl; lia.
Qed.

Lemma ad_errors_le_pairs (df_grnd df_sol : DataFrame) :
  length (fst (ad_counts df_grnd df_sol)) <= ad_n_adpairs df_grnd df_sol.
Proof.
  unfold ad_n_adpairs, ad_counts. cbv zeta. rewrite ad_loop_filter.
  cbn [fst snd]. apply filter_and_length.
Qed.

(** X5: on frames of 0s and 1s with unique labels [ad] never returns a
    value outside [0, 1]: it returns a finite score between 0 and 1 or it
    raises, since every pair added to [error_pairs] was counted in
    [n_adpairs]. *)
Theorem ad_in_unit_interval (df_grnd df_sol : DataFrame) :
  wf_df df_grnd -> wf_df df_sol ->
  binary_b df_grnd = true -> binary_b df_sol = true ->
  match ad df_grnd df_sol with
  | inr (finite q) => (0 <= q <= 1)%Q
  | inr _ => False
  | inl _ => True
  end.
Proof.
  intros _ _ _ _. rewrite ad_unfold.
  destruct (length (shared_mutations df_grnd df_sol) =? 0); [exact I|].
  unfold py_truediv.
  destruct (Z.eqb_spec (Z.of_nat (ad_n_adpairs df_grnd df_sol)) 0)
    as [Z0|NZ]; [exact I|].
  cbn [bind ok one_minus].
  pose proof (Q_fraction_bounds _ _ (ad_errors_le_pairs df_grnd df_sol)
                ltac:(lia)) as [H0 H1].
  split; lra.
Qed.

Lemma ad_in_unit_interval_three_clones :
  match ad three_clones three_clones_candidate with
  | inr (finite q) => (0 <= q <= 1)%Q
  | inr _ => False
  | inl _ => True
  end.
Proof.
  apply (ad_in_unit_interval three_clones three_clones_candidate);
    reflexivity.
Defined.

Lemma dl_step_le (M_grnd M_sol : ndarray) (st : nat * nat)
  (ij : nat * nat) :
  snd st <= fst st ->
  snd (dl_step M_grnd M_sol st ij) <= fst (dl_step M_grnd M_sol st ij).
Proof.
  destruct st as [n1 n2], ij as [i j]. simpl. intros H. unfold dl_step.
  destruct ((np_sum (np_mul (column M_grnd i) (column M_grnd j)) =? 0)%Z
            && negb (colsum M_grnd i =? 0)%Z
            && negb (colsum M_grnd j =? 0)%Z); [|simpl; lia].
  destruct ((np_sum (np_mul (column M_sol i) (column M_sol j)) =? 0)%Z
            && negb (colsum M_sol i =? 0)%Z
            && negb (colsum M_sol j =? 0)%Z); simpl; lia.
Qed.

Lemma dl_kept_le_pairs (df_grnd df_sol : DataFrame) :
  snd (dl_counts df_grnd df_sol) <= dl_n_dlpairs1 df_grnd df_sol.
Proof.
  unfold dl_n_dlpairs1, dl_counts, dl_loop. cbv zeta.
  set (G := values_of df_grnd _). set (S := values_of df_sol _).
  assert (H : forall l st, snd st <= fst st ->
            snd (fold_left (dl_step G S) l st)
            <= fst (fold_left (dl_step G S) l st)).
  { induction l as [|ij l IH]; intros st Hst; cbn [fold_left];
      [exact Hst|].
    apply IH, dl_step_le, Hst. }
  apply H. simpl. lia.
Qed.

(** X6: on frames of 0s and 1s with unique labels [dl] never returns a
    value outside [0, 1]: it returns a finite score between 0 and 1 or it
    raises, since [n_dlpairs2] only grows when [n_dlpairs1] does. *)
Theorem dl_in_unit_interval (df_grnd df_sol : DataFrame) :
  wf_df df_grnd -> wf_df df_sol ->
  binary_b df_grnd = true -> binary_b df_sol = true ->
  match dl df_grnd df_sol with
  | inr (finite q) => (0 <= q <= 1)%Q
  | inr _ => False
  | inl _ => True
  end.
Proof.
  intros _ _ _ _. rewrite dl_unfold.
  destruct (length (shared_mutations df_grnd df_sol) =? 0); [exact I|].
  unfold py_truediv.
  destruct (Z.eqb_spec (Z.of_nat (dl_n_dlpairs1 df_grnd df_sol)) 0)
    as [Z0|NZ]; [exact I|].
  apply Q_fraction_bounds; [apply dl_kept_le_pairs|lia].
Qed.

Lemma dl_in_unit_interval_three_clones :
  match dl three_clones three_clones_candidate with
  | inr (finite q) => (0 <= q <= 1)%Q
  | inr _ => False
  | inl _ => True
  end.
Proof.
  apply (dl_in_unit_interval three_clones three_clones_candidate);
    reflexivity.
Defined.

Lemma wf_df_shape0 (df : DataFrame) :
  wf_df df -> shape0 (values df) = length (index df).
Proof.
  unfold wf_df, wf_df_b. intros H.
  repeat (apply andb_true_iff in H; destruct H as [H ?]).
  apply Nat.eqb_eq. assumption.
Qed.

Lemma np_sum_abs_bounded (l : list Z) :
  (forall x, In x l -> (-1 <= x <= 1)%Z) ->
  (0 <= np_sum (map Z.abs l) <= Z.of_nat (length l))%Z.
Proof.
  induction l as [|x l IH]; intros H; [simpl; lia|].
  cbn [map np_sum fold_right length]. fold (np_sum (map Z.abs l)).
  specialize (IH (fun y Hy => H y (or_intror Hy))).
  specialize (H x (or_introl eq_refl)). lia.
Qed.

Lemma length_ravel (a : ndarray) : length (ravel a) = size a.
Proof.
  unfold ravel, size.
  assert (H : forall l, length (flat_map
              (fun i => map (fun j => get a i j) (seq 0 (shape1 a))) l)
              = length l * shape1 a).
  { induction l as [|i l IH]; simpl; [reflexivity|].
    rewrite length_app, length_map, length_seq, IH. reflexivity. }
  rewrite H, length_seq. reflexivity.
Qed.

Lemma values_at_binary (df : DataFrame) (cells muts : list string)
  (i j : nat) :
  wf_df df -> binary_b df = true ->
  (forall c, In c cells -> In c (index df)) ->
  (forall k, In k muts -> In k (columns df)) ->
  i < length cells -> j < length muts ->
  get (values_at df cells muts) i j = 0%Z \/
  get (values_at df cells muts) i j = 1%Z.
Proof.
  intros W B Hc Hm Hi Hj. unfold values_at.
  rewrite get_take by (rewrite length_map; assumption).
  rewrite (nth_map_in _ cells i 0 EmptyString) by assumption.
  rewrite (nth_map_in _ muts j 0 EmptyString) by assumption.
  apply binary_entry; auto.
  - apply Hm, nth_In, Hj.
  - rewrite (wf_df_shape0 df W). apply position_lt, Hc, nth_In, Hi.
Qed.

Lemma get_np_sub (a b : ndarray) (i j : nat) :
  i < shape0 a -> j < shape1 a ->
  get (np_sub a b) i j = (get a i j - get b i j)%Z.
Proof.
  intros Hi Hj. unfold get at 1, np_sub. simpl.
  rewrite (nth_map_seq _ 0 (shape0 a) i []) by assumption.
  rewrite (nth_map_seq _ 0 (shape1 a) j 0%Z) by assumption.
  reflexivity.
Qed.

(** X7: on frames of 0s and 1s with unique labels, [gs] returns a finite
    score between 0 and 1 or it raises. *)
Theorem gs_in_unit_interval (df_grnd df_sol : DataFrame) :
  wf_df df_grnd -> wf_df df_sol ->
  binary_b df_grnd = true -> binary_b df_sol = true ->
  match gs df_grnd df_sol with
  | inr (finite q) => (0 <= q <= 1)%Q
  | inr _ => False
  | inl _ => True
  end.
Proof.
  intros Wg Ws Bg Bs. rewrite gs_unfold.
  set (muts := shared_mutations df_grnd df_sol).
  set (cells := shared_cells df_grnd df_sol).
  destruct (Nat.eqb_spec (length muts) 0) as [|Nm]; [exact I|].
  destruct (Nat.eqb_spec (length cells) 0) as [|Nc]; [exact I|].
  cbv zeta.
  set (A := values_at df_grnd cells muts).
  set (B := values_at df_sol cells muts).
  assert (HsA : size A = length cells * length muts).
  { unfold size, A, values_at. simpl. rewrite !length_map. reflexivity. }
  assert (Hb : (0 <= abs_sum (np_sub A B) <= Z.of_nat (size A))%Z).
  { unfold abs_sum.
    replace (size A) with (length (ravel (np_sub A B)))
      by (rewrite length_ravel; reflexivity).
    apply np_sum_abs_bounded. intros x Hx. apply in_ravel in Hx.
    destruct Hx as (i & j & Hi & Hj & <-). simpl in Hi, Hj.
    rewrite get_np_sub by assumption.
    unfold A in Hi, Hj. simpl in Hi, Hj. rewrite length_map in Hi, Hj.
    assert (Ha : get A i j = 0%Z \/ get A i j = 1%Z).
    { apply values_at_binary; auto; intros k Hk;
        apply in_intersect1d in Hk; tauto. }
    assert (Hb : get B i j = 0%Z \/ get B i j = 1%Z).
    { apply values_at_binary; auto; intros k Hk;
        apply in_intersect1d in Hk; tauto. }
    lia. }
  unfold np_truediv.
  destruct (Z.eqb_spec (Z.of_nat (size A)) 0) as [Z0|NZ]; [nia|].
  cbn [one_minus].
  assert (Hn : exists e, abs_sum (np_sub A B) = Z.of_nat e /\ e <= size A).
  { exists (Z.to_nat (abs_sum (np_sub A B))). split; lia. }
  destruct Hn as (e & -> & He).
  pose proof (Q_fraction_bounds e (size A) He ltac:(lia)) as [H0 H1].
  split; lra.
Qed.

Lemma gs_in_unit_interval_three_clones :
  match gs three_clones three_clones_candidate with
  | inr (finite q) => (0 <= q <= 1)%Q
  | inr _ => False
  | inl _ => True
  end.
Proof.
  apply gs_in_unit_interval; vm_compute; reflexivity.
Defined.

(** * [count_flips] and [infer_rates] *)

Lemma count_flips_cell_step (I_mtr O_mtr : ndarray) (na_value : Z)
  (st : flips) (ij : nat * nat) :
  count_flips_cell I_mtr O_mtr na_value st ij =
  if reads_output I_mtr na_value ij && negb (in_bounds O_mtr ij)
  then inl IndexError
  else inr (flip_step I_mtr O_mtr na_value st ij).
Proof.
  destruct st as [[[a b] c] d], ij as [i j].
  unfold count_flips_cell, flip_step, reads_output, in_bounds, item,
    is_na_1, is_na_0, is_1_0, is_0_1, and_then, abind.
  cbn [fst snd].
  destruct (get I_mtr i j =? 0)%Z, (get I_mtr i j =? 1)%Z,
           (get I_mtr i j =? na_value)%Z,
           ((i <? shape0 O_mtr) && (j <? shape1 O_mtr)),
           (get O_mtr i j =? 0)%Z, (get O_mtr i j =? 1)%Z;
    reflexivity.
Qed.

Lemma foldM_count_flips_ok (I_mtr O_mtr : ndarray) (na_value : Z)
  (l : list (nat * nat)) :
  (forall ij, In ij l ->
     reads_output I_mtr na_value ij && negb (in_bounds O_mtr ij) = false) ->
  forall st,
    foldM (count_flips_cell I_mtr O_mtr na_value) l st =
    inr (fold_left (flip_step I_mtr O_mtr na_value) l st).
Proof.
  induction l as [|ij l IH]; intros H st; [reflexivity|].
  cbn [foldM fold_left]. rewrite count_flips_cell_step.
  rewrite (H ij (or_introl eq_refl)). cbn [abind].
  apply IH. intros; apply H; right; assumption.
Qed.

Lemma foldM_count_flips_error (I_mtr O_mtr : ndarray) (na_value : Z)
  (l : list (nat * nat)) :
  (exists ij, In ij l /\
     reads_output I_mtr na_value ij && negb (in_bounds O_mtr ij) = true) ->
  forall st,
    foldM (count_flips_cell I_mtr O_mtr na_value) l st = inl IndexError.
Proof.
  induction l as [|ij l IH]; intros (bad & Hin & Hbad) st; [destruct Hin|].
  cbn [foldM]. rewrite count_flips_cell_step.
  destruct (reads_output I_mtr na_value ij && negb (in_bounds O_mtr ij))
    eqn:E; [reflexivity|].
  cbn [abind]. apply IH. exists bad. split; [|exact Hbad].
  destruct Hin as [->|Hin]; [congruence|exact Hin].
Qed.

Lemma in_cells (n m i j : nat) : In (i, j) (cells n m) <-> i < n /\ j < m.
Proof.
  unfold cells. rewrite in_flat_map. split.
  - intros (i' & Hi & H). apply in_map_iff in H.
    destruct H as (j' & E & Hj). inversion E; subst.
    apply in_seq in Hi. apply in_seq in Hj. lia.
  - intros [Hi Hj]. exists i. split; [apply in_seq; lia|].
    apply in_map_iff. exists j. split; [reflexivity|apply in_seq; lia].
Qed.

Lemma length_cells (n m : nat) : length (cells n m) = n * m.
Proof.
  unfold cells.
  assert (H : forall l : list nat, length (flat_map
              (fun i => map (fun j => (i, j)) (seq 0 m)) l) = length l * m).
  { induction l as [|i l IH]; simpl; [reflexivity|].
    rewrite length_app, length_map, length_seq, IH. reflexivity. }
  rewrite H, length_seq. reflexivity.
Qed.

(** The counters are the numbers of cells that pass each test. *)
Lemma fold_flip_step_counts (I_mtr O_mtr : ndarray) (na_value : Z)
  (l : list (nat * nat)) :
  let count test :=
    length (filter (fun ij => test (get I_mtr (fst ij) (snd ij))
                                   (get O_mtr (fst ij) (snd ij))) l) in
  forall a b c d,
    fold_left (flip_step I_mtr O_mtr na_value) l (a, b, c, d) =
    (a + count is_0_1, b + count is_1_0,
     c + count (is_na_0 na_value), d + count (is_na_1 na_value)).
Proof.
  intros count. subst count. induction l as [|ij l IH]; intros a b c d.
  - cbn [fold_left filter length]. rewrite !Nat.add_0_r. reflexivity.
  - cbn [fold_left filter]. unfold flip_step at 2.
    set (x := get I_mtr (fst ij) (snd ij)).
    set (o := get O_mtr (fst ij) (snd ij)).
    destruct (is_0_1 x o) eqn:E1.
    + assert (E2 : is_1_0 x o = false) by (unfold is_1_0; rewrite E1; auto).
      assert (E3 : is_na_0 na_value x o = false)
        by (unfold is_na_0; rewrite E1; auto).
      assert (E4 : is_na_1 na_value x o = false)
        by (unfold is_na_1; rewrite E1; auto).
      rewrite E2, E3, E4, IH. cbn [length]. repeat (apply (f_equal2 pair)); lia.
    + destruct (is_1_0 x o) eqn:E2.
      * assert (E3 : is_na_0 na_value x o = false)
          by (unfold is_na_0; rewrite E2, E1; auto).
        assert (E4 : is_na_1 na_value x o = false)
          by (unfold is_na_1; rewrite E2, E1; auto).
        rewrite E3, E4, IH. cbn [length]. repeat (apply (f_equal2 pair)); lia.
      * destruct (is_na_0 na_value x o) eqn:E3.
        -- assert (E4 : is_na_1 na_value x o = false)
             by (unfold is_na_1; rewrite E3, E2, E1; auto).
           rewrite E4, IH. cbn [length]. repeat (apply (f_equal2 pair)); lia.
        -- destruct (is_na_1 na_value x o) eqn:E4;
             rewrite IH; cbn [length]; repeat (apply (f_equal2 pair)); lia.
Qed.

Lemma count_flips_in_bounds (I_mtr O_mtr : ndarray) (na_value : Z) :
  (forall i j, i < shape0 I_mtr -> j < shape1 I_mtr ->
     reads_output I_mtr na_value (i, j) = true ->
     i < shape0 O_mtr /\ j < shape1 O_mtr) ->
  count_flips I_mtr O_mtr na_value =
  inr (count_cells I_mtr O_mtr is_0_1, count_cells I_mtr O_mtr is_1_0,
       count_cells I_mtr O_mtr (is_na_0 na_value),
       count_cells I_mtr O_mtr (is_na_1 na_value)).
Proof.
  intros H. unfold count_flips. cbv zeta.
  rewrite foldM_count_flips_ok.
  - rewrite fold_flip_step_counts. reflexivity.
  - intros [i j] Hin. apply in_cells in Hin. destruct Hin as [Hi Hj].
    destruct (reads_output I_mtr na_value (i, j)) eqn:R; [|reflexivity].
    destruct (H i j Hi Hj R) as [Bi Bj]. unfold in_bounds. cbn [fst snd].
    apply Nat.ltb_lt in Bi, Bj. rewrite Bi, Bj. reflexivity.
Qed.

(** X8: when [O_mtr] has at least the shape of [I_mtr], [count_flips]
    returns, and its four counters are the numbers of cells of [I_mtr]
    that pass the tests 0 to 1, 1 to 0, NA to 0 and NA to 1, each cell
    being counted by the first test of the [if]/[elif] chain it passes. *)
Theorem count_flips_counts (I_mtr O_mtr : ndarray) (na_value : Z) :
  shape0 I_mtr <= shape0 O_mtr -> shape1 I_mtr <= shape1 O_mtr ->
  count_flips I_mtr O_mtr na_value =
  inr (count_cells I_mtr O_mtr is_0_1, count_cells I_mtr O_mtr is_1_0,
       count_cells I_mtr O_mtr (is_na_0 na_value),
       count_cells I_mtr O_mtr (is_na_1 na_value)).
Proof.
  intros H0 H1. apply count_flips_in_bounds. intros i j Hi Hj _. lia.
Qed.

Lemma count_flips_counts_solver :
  count_flips noisy_input solved_output 3 = inr (1, 1, 1, 1).
Proof.
  rewrite (count_flips_counts noisy_input solved_output 3);
    [reflexivity|simpl; lia|simpl; lia].
Defined.

(** X9: [count_flips] raises [IndexError] exactly when some cell of
    [I_mtr] that holds 0, 1 or [na_value] lies outside [O_mtr]; cells
    with other entries are passed over without reading [O_mtr]. *)
Theorem count_flips_index_error (I_mtr O_mtr : ndarray) (na_value : Z) :
  count_flips I_mtr O_mtr na_value = inl IndexError <->
  exists i j, i < shape0 I_mtr /\ j < shape1 I_mtr /\
    (get I_mtr i j = 0%Z \/ get I_mtr i j = 1%Z \/
     get I_mtr i j = na_value) /\
    ~ (i < shape0 O_mtr /\ j < shape1 O_mtr).
Proof.
  set (bad := fun ij => reads_output I_mtr na_value ij
                        && negb (in_bounds O_mtr ij)).
  assert (Hbad : forall i j, bad (i, j) = true <->
            (get I_mtr i j = 0%Z \/ get I_mtr i j = 1%Z \/
             get I_mtr i j = na_value) /\
            ~ (i < shape0 O_mtr /\ j < shape1 O_mtr)).
  { intros i j. unfold bad, reads_output, in_bounds. cbn [fst snd].
    rewrite andb_true_iff, !orb_true_iff, negb_true_iff,
      andb_false_iff, !Z.eqb_eq, !Nat.ltb_ge.
    split; intros [A B]; (split; [tauto|lia]). }
  split.
  - intros E.
    destruct (existsb bad (cells (shape0 I_mtr) (shape1 I_mtr))) eqn:X.
    + apply existsb_exists in X. destruct X as ([i j] & Hin & Hb).
      apply in_cells in Hin. apply Hbad in Hb.
      exists i, j. tauto.
    + exfalso. unfold count_flips in E. cbv zeta in E.
      rewrite foldM_count_flips_ok in E; [discriminate|].
      intros ij Hin. fold (bad ij).
      destruct (bad ij) eqn:B; [|reflexivity].
      assert (Y : existsb bad (cells (shape0 I_mtr) (shape1 I_mtr)) = true)
        by (apply existsb_exists; exists ij; auto).
      congruence.
  - intros (i & j & Hi & Hj & R & NB).
    unfold count_flips. cbv zeta. apply foldM_count_flips_error.
    exists (i, j). split; [apply in_cells; auto|].
    apply Hbad. auto.
Qed.

Lemma flip_step_total (I_mtr O_mtr : ndarray) (na_value : Z)
  (l : list (nat * nat)) :
  forall a b c d,
    let '(a', b', c', d') :=
      fold_left (flip_step I_mtr O_mtr na_value) l (a, b, c, d) in
    a' + b' + c' + d' <= a + b + c + d + length l.
Proof.
  induction l as [|ij l IH]; intros a b c d; cbn [fold_left length].
  - lia.
  - unfold flip_step at 2.
    destruct (is_0_1 _ _);
      [|destruct (is_1_0 _ _);
        [|destruct (is_na_0 _ _ _); [|destruct (is_na_1 _ _ _)]]];
      match goal with
      | |- context [fold_left _ l (?a1, ?b1, ?c1, ?d1)] =>
          specialize (IH a1 b1 c1 d1);
          destruct (fold_left (flip_step I_mtr O_mtr na_value) l
                      (a1, b1, c1, d1)) as [[[a' b'] c'] d']
      end; lia.
Qed.

(** X10: [count_flips] counts each cell at most once, so its four
    counters add up to at most [I_mtr.size]; and the only error it raises
    is [IndexError]. *)
Theorem count_flips_total (I_mtr O_mtr : ndarray) (na_value : Z) :
  match count_flips I_mtr O_mtr na_value with
  | inr (flips_0_1, flips_1_0, flips_na_0, flips_na_1) =>
      flips_0_1 + flips_1_0 + flips_na_0 + flips_na_1 <= size I_mtr
  | inl e => e = IndexError
  end.
Proof.
  set (bad := fun ij => reads_output I_mtr na_value ij
                        && negb (in_bounds O_mtr ij)).
  unfold count_flips. cbv zeta.
  destruct (existsb bad (cells (shape0 I_mtr) (shape1 I_mtr))) eqn:X.
  - apply existsb_exists in X. rewrite foldM_count_flips_error;
      [reflexivity|exact X].
  - rewrite foldM_count_flips_ok.
    + pose proof (flip_step_total I_mtr O_mtr na_value
                    (cells (shape0 I_mtr) (shape1 I_mtr)) 0 0 0 0) as H.
      destruct (fold_left _ _ _) as [[[a b] c] d].
      rewrite length_cells in H. unfold size. lia.
    + intros ij Hin. fold (bad ij).
      destruct (bad ij) eqn:B; [|reflexivity].
      assert (Y : existsb bad (cells (shape0 I_mtr) (shape1 I_mtr)) = true)
        by (apply existsb_exists; exists ij; auto).
      congruence.
Qed.

Lemma filter_none {A : Type} (f : A -> bool) (l : list A) :
  (forall x, In x l -> f x = false) -> filter f l = [].
Proof.
  induction l as [|x l IH]; intros H; simpl; [reflexivity|].
  rewrite (H x (or_introl eq_refl)). apply IH.
  intros; apply H; right; assumption.
Qed.

(** X11: a matrix compared with itself has no flip, as long as
    [na_value] is neither 0 nor 1: all four counters are 0. *)
Theorem count_flips_self (M : ndarray) (na_value : Z) :
  na_value <> 0%Z -> na_value <> 1%Z ->
  count_flips M M na_value = inr (0, 0, 0, 0).
Proof.
  intros N0 N1. rewrite count_flips_in_bounds by (intros; lia).
  unfold count_cells.
  rewrite !filter_none; [reflexivity| | | |]; intros [i j] _; cbn [fst snd];
    unfold is_na_1, is_na_0, is_1_0, is_0_1;
    destruct (Z.eqb_spec (get M i j) 0), (Z.eqb_spec (get M i j) 1),
             (Z.eqb_spec (get M i j) na_value);
    try reflexivity; congruence.
Qed.

Lemma count_flips_self_noisy :
  count_flips noisy_input noisy_input 3 = inr (0, 0, 0, 0).
Proof. apply count_flips_self; discriminate. Defined.

Lemma ravel_cells (a : ndarray) :
  ravel a =
  map (fun ij => get a (fst ij) (snd ij)) (cells (shape0 a) (shape1 a)).
Proof.
  unfold ravel, cells.
  induction (seq 0 (shape0 a)) as [|i l IH]; simpl; [reflexivity|].
  rewrite map_app, map_map, IH. reflexivity.
Qed.

Lemma binary_array_get (a : ndarray) (i j : nat) :
  binary_array_b a = true -> i < shape0 a -> j < shape1 a ->
  get a i j = 0%Z \/ get a i j = 1%Z.
Proof.
  intros B Hi Hj. unfold binary_array_b in B. rewrite forallb_forall in B.
  assert (Hin : In (get a i j) (ravel a))
    by (apply in_ravel; exists i, j; auto).
  specialize (B _ Hin). apply orb_true_iff in B.
  destruct B as [B|B]; apply Z.eqb_eq in B; auto.
Qed.

(** X12: on two matrices of 0s and 1s of one shape, the first two
    counters of [count_flips] add up to [np.abs(I_mtr - O_mtr).sum()],
    the number of entries in which the matrices differ (the numerator of
    [gs]). *)
Theorem count_flips_abs_difference (I_mtr O_mtr : ndarray) (na_value : Z) :
  shape0 I_mtr = shape0 O_mtr -> shape1 I_mtr = shape1 O_mtr ->
  binary_array_b I_mtr = true -> binary_array_b O_mtr = true ->
  exists flips_0_1 flips_1_0 flips_na_0 flips_na_1,
    count_flips I_mtr O_mtr na_value =
      inr (flips_0_1, flips_1_0, flips_na_0, flips_na_1) /\
    abs_sum (np_sub I_mtr O_mtr) = Z.of_nat (flips_0_1 + flips_1_0).
Proof.
  intros S0 S1 BI BO.
  rewrite count_flips_in_bounds by (intros; lia).
  do 4 eexists. split; [reflexivity|].
  unfold abs_sum, count_cells. rewrite ravel_cells, map_map.
  cbn [shape0 shape1 np_sub].
  assert (H : forall l,
            (forall i j, In (i, j) l ->
               i < shape0 I_mtr /\ j < shape1 I_mtr) ->
            np_sum (map (fun ij => Z.abs (get (np_sub I_mtr O_mtr)
                                               (fst ij) (snd ij))) l) =
            Z.of_nat
              (length (filter (fun ij => is_0_1 (get I_mtr (fst ij) (snd ij))
                                           (get O_mtr (fst ij) (snd ij))) l)
               + length (filter
                           (fun ij => is_1_0 (get I_mtr (fst ij) (snd ij))
                                        (get O_mtr (fst ij) (snd ij))) l))).
  { induction l as [|[i j] l IH]; intros Hl; [reflexivity|].
    cbn [map np_sum fold_right filter fst snd].
    fold (np_sum (map (fun ij => Z.abs (get (np_sub I_mtr O_mtr)
                                            (fst ij) (snd ij))) l)).
    rewrite IH by (intros; apply Hl; right; assumption).
    destruct (Hl i j (or_introl eq_refl)) as [Hi Hj].
    rewrite get_np_sub by assumption.
    destruct (binary_array_get I_mtr i j BI Hi Hj) as [E|E],
             (binary_array_get O_mtr i j BO ltac:(lia) ltac:(lia))
      as [E'|E'];
      rewrite E, E'; unfold is_1_0, is_0_1;
      cbn [Z.eqb Pos.eqb andb negb length]; lia. }
  apply H. intros i j Hin. apply in_cells in Hin. exact Hin.
Qed.

Lemma count_flips_abs_difference_solved :
  exists flips_0_1 flips_1_0 flips_na_0 flips_na_1,
    count_flips one_column (array [[0]; [0]]%Z) 3 =
      inr (flips_0_1, flips_1_0, flips_na_0, flips_na_1) /\
    abs_sum (np_sub one_column (array [[0]; [0]]%Z)) =
      Z.of_nat (flips_0_1 + flips_1_0).
Proof.
  apply count_flips_abs_difference; reflexivity.
Defined.

Lemma masked_sum_same_shape (O_mtr I_mtr : ndarray) (x na_value : Z) :
  shape0 I_mtr = shape0 O_mtr -> shape1 I_mtr = shape1 O_mtr ->
  masked_sum O_mtr I_mtr x na_value =
  inr (Z.of_nat (count_cells I_mtr O_mtr
                   (fun xi o => (o =? x)%Z && negb (xi =? na_value)%Z))).
Proof.
  intros S0 S1. unfold masked_sum, broadcast.
  rewrite <- S0, <- S1, !Nat.eqb_refl. cbn [abind].
  unfold count_cells. do 3 f_equal. apply filter_ext_in.
  intros [i j] Hin. apply in_cells in Hin. destruct Hin as [Hi Hj].
  cbn [fst snd]. unfold bget. rewrite <- S0, <- S1.
  destruct (Nat.eqb_spec (shape0 I_mtr) 1), (Nat.eqb_spec (shape1 I_mtr) 1);
    repeat match goal with
           | H : ?n = 1, H' : ?i < ?n |- _ =>
               rewrite H in H'; assert (i = 0) by lia; subst i; clear H'
           end; reflexivity.
Qed.

Lemma count_cells_le (I_mtr O_mtr : ndarray) (P Q : Z -> Z -> bool) :
  (forall x o, P x o = true -> Q x o = true) ->
  count_cells I_mtr O_mtr P <= count_cells I_mtr O_mtr Q.
Proof.
  intros H. unfold count_cells.
  induction (cells (shape0 I_mtr) (shape1 I_mtr)) as [|ij l IH];
    simpl; [lia|].
  destruct (P _ _) eqn:EP.
  - rewrite (H _ _ EP). simpl. lia.
  - destruct (Q _ _); simpl; lia.
Qed.

Lemma np_truediv_in_unit_or_nan (e n : nat) :
  e <= n -> in_unit_or_nan (np_truediv (Z.of_nat e) (Z.of_nat n)).
Proof.
  intros H. unfold np_truediv.
  destruct (Z.eqb_spec (Z.of_nat n) 0) as [Z0|NZ].
  - assert (e = 0) by lia. subst e. exact I.
  - apply Q_fraction_bounds; lia.
Qed.

(** X13: on matrices of one shape that is not empty, with [na_value]
    neither 0 nor 1, [infer_rates] returns three rates: the false-negative
    and false-positive rates are each [nan] (an empty denominator) or
    between 0 and 1, never infinite, and the missing rate is between 0
    and 1. *)
Theorem infer_rates_in_unit_interval (I_mtr O_mtr : ndarray)
  (na_value : Z) :
  shape0 I_mtr = shape0 O_mtr -> shape1 I_mtr = shape1 O_mtr ->
  size I_mtr <> 0 -> na_value <> 0%Z -> na_value <> 1%Z ->
  exists fn_rate fp_rate na_rate,
    infer_rates I_mtr O_mtr na_value = inr (fn_rate, fp_rate, na_rate) /\
    in_unit_or_nan fn_rate /\ in_unit_or_nan fp_rate /\ in_unit na_rate.
Proof.
  intros S0 S1 NZ N0 N1. unfold infer_rates.
  pose proof (count_flips_total I_mtr O_mtr na_value) as Htot.
  rewrite count_flips_in_bounds in * by (intros; lia).
  cbn [abind] in *. rewrite !masked_sum_same_shape by assumption.
  cbn [abind]. unfold py_div, py_truediv.
  destruct (Z.eqb_spec (Z.of_nat (size I_mtr)) 0) as [|_]; [lia|].
  do 3 eexists. split; [reflexivity|]. split; [|split].
  - apply np_truediv_in_unit_or_nan, count_cells_le.
    intros x o H. unfold is_0_1 in H. apply andb_true_iff in H.
    destruct H as [Hx Ho]. apply Z.eqb_eq in Hx. subst x.
    rewrite Ho. destruct (Z.eqb_spec 0 na_value); [congruence|reflexivity].
  - apply np_truediv_in_unit_or_nan, count_cells_le.
    intros x o H. unfold is_1_0 in H.
    repeat (apply andb_true_iff in H; destruct H as [H ?]).
    match goal with Hx : (x =? 1)%Z = true |- _ =>
      apply Z.eqb_eq in Hx; subst x end.
    match goal with Ho : (o =? 0)%Z = true |- _ => rewrite Ho end.
    destruct (Z.eqb_spec 1 na_value); [congruence|reflexivity].
  - apply Q_fraction_bounds; lia.
Qed.

Lemma infer_rates_in_unit_interval_solver :
  exists fn_rate fp_rate na_rate,
    infer_rates noisy_input solved_output 3
      = inr (fn_rate, fp_rate, na_rate) /\
    in_unit_or_nan fn_rate /\ in_unit_or_nan fp_rate /\ in_unit na_rate.
Proof.
  apply infer_rates_in_unit_interval;
    try reflexivity; vm_compute; discriminate.
Defined.

(** X14: on an empty matrix (and an output of its shape) [infer_rates]
    raises [ZeroDivisionError]: the two rates that divide by a NumPy sum
    only give [nan], but [na_rate] divides Python integers by
    [I_mtr.size]. *)
Theorem infer_rates_empty (I_mtr O_mtr : ndarray) (na_value : Z) :
  shape0 I_mtr = shape0 O_mtr -> shape1 I_mtr = shape1 O_mtr ->
  size I_mtr = 0 ->
  infer_rates I_mtr O_mtr na_value = inl (PyError ZeroDivisionError).
Proof.
  intros S0 S1 Z0. unfold infer_rates.
  rewrite count_flips_in_bounds by (intros; lia).
  cbn [abind]. rewrite !masked_sum_same_shape by assumption.
  cbn [abind]. unfold py_div, py_truediv. rewrite Z0. reflexivity.
Qed.

Lemma infer_rates_empty_no_rows :
  infer_rates no_rows no_rows 3 = inl (PyError ZeroDivisionError).
Proof. apply infer_rates_empty; reflexivity. Defined.

(** * [mltd] and the caller's frames *)

Lemma sanitize_label_clean (s : string) :
  let s' := replace_char "="%char "_"%char
              (replace_char ":"%char "_"%char s) in
  has_char ":"%char s' = false /\ has_char "="%char s' = false.
Proof.
  induction s as [|a s [IH1 IH2]]; [split; reflexivity|].
  cbn [replace_char has_char]. cbv zeta in IH1, IH2. rewrite IH1, IH2.
  destruct (Ascii.eqb_spec a ":"%char) as [->|N1]; [split; reflexivity|].
  destruct (Ascii.eqb_spec a "="%char) as [->|N2]; [split; reflexivity|].
  destruct (Ascii.eqb_spec a ":"%char) as [|_]; [contradiction|].
  destruct (Ascii.eqb_spec a "="%char) as [|_]; [contradiction|].
  split; reflexivity.
Qed.

Lemma sanitize_label_fixed (s : string) :
  replace_char "="%char "_"%char (replace_char ":"%char "_"%char s) = s <->
  has_char ":"%char s = false /\ has_char "="%char s = false.
Proof.
  induction s as [|a s IH]; [split; [split|]; reflexivity|].
  cbn [replace_char has_char]. rewrite !orb_false_iff. split.
  - intros E. injection E as Ea Es. apply IH in Es.
    destruct Es as [E1 E2].
    destruct (Ascii.eqb_spec a ":"%char) as [->|N1];
      [cbn in Ea; discriminate|].
    destruct (Ascii.eqb_spec a "="%char) as [->|N2];
      [cbn in Ea; discriminate|].
    repeat split; assumption.
  - intros [[A1 H1] [A2 H2]]. rewrite A1, A2.
    f_equal. apply IH. split; assumption.
Qed.

Lemma sanitize_columns_fixed (cols : list string) :
  sanitize_columns cols = cols <-> clean_labels cols = true.
Proof.
  unfold sanitize_columns, clean_labels.
  induction cols as [|s cols IH]; [split; reflexivity|].
  cbn [map forallb]. rewrite andb_true_iff, <- IH, andb_true_iff,
    !negb_true_iff, <- sanitize_label_fixed.
  split.
  - intros E. inversion E as [[Es Ec]]. rewrite !Es, !Ec. auto.
  - intros [Es Ec]. rewrite Es, Ec. reflexivity.
Qed.

Lemma store_same (h : heap) (r : ref) (x : DataFrame) :
  nth_error h r = Some x -> store h r x = h.
Proof.
  revert r. induction h as [|z h IH]; intros [|r] H; simpl in *;
    try discriminate; try reflexivity.
  - congruence.
  - rewrite (IH r H). reflexivity.
Qed.

Lemma sanitized_fixed (df : DataFrame) :
  sanitized df = df <-> clean_labels (columns df) = true.
Proof.
  rewrite <- sanitize_columns_fixed. destruct df as [ix cols vals].
  unfold sanitized. simpl. split; [congruence|intros ->; reflexivity].
Qed.

(** X15: the labels [mltd] assigns to the columns hold no [":"] and no
    ["="], are as many as before, and a label with neither character is
    left as it is. *)
Theorem sanitize_columns_spec (cols : list string) :
  clean_labels (sanitize_columns cols) = true /\
  length (sanitize_columns cols) = length cols /\
  (forall i, i < length cols ->
     has_char ":"%char (nth i cols EmptyString) = false ->
     has_char "="%char (nth i cols EmptyString) = false ->
     nth i (sanitize_columns cols) EmptyString = nth i cols EmptyString).
Proof.
  split; [|split].
  - unfold clean_labels, sanitize_columns. rewrite forallb_forall.
    intros s Hs. apply in_map_iff in Hs. destruct Hs as (s0 & <- & _).
    destruct (sanitize_label_clean s0) as [H1 H2]. cbv zeta in H1, H2.
    rewrite H1, H2. reflexivity.
  - unfold sanitize_columns. apply length_map.
  - intros i Hi H1 H2. unfold sanitize_columns.
    rewrite (nth_map_in _ cols i EmptyString EmptyString) by assumption.
    apply sanitize_label_fixed. split; assumption.
Qed.

Section CallerFrames.

Variable Tree : Type.
Variable to_tree : DataFrame -> result Tree.
Variable MLTDResult : Type.
Variable _convert_tree_to_mtld_input : Tree -> string.
Variable run_mltd : string -> string -> option MLTDResult.

Abbreviation mltd' :=
  (mltd Tree to_tree MLTDResult _convert_tree_to_mtld_input run_mltd).

Lemma mltd_store (h : heap) (r1 r2 : ref) (g s : DataFrame) :
  nth_error h r1 = Some g -> nth_error h r2 = Some s ->
  fst (mltd' r1 r2 h) = store (store h r1 (sanitized g)) r2 (sanitized s) /\
  snd (mltd' r1 r2 h) =
    mltd_trees Tree to_tree MLTDResult _convert_tree_to_mtld_input run_mltd
               (sanitized g) (sanitized s).
Proof.
  intros H1 H2.
  rewrite (mltd_unfold Tree to_tree MLTDResult _convert_tree_to_mtld_input
             run_mltd h r1 r2 g s H1 H2).
  split; reflexivity.
Qed.

Lemma mltd_store_lookup (h : heap) (r1 r2 : ref) (g s : DataFrame) :
  nth_error h r1 = Some g -> nth_error h r2 = Some s ->
  nth_error (fst (mltd' r1 r2 h)) r1 = Some (sanitized g) /\
  nth_error (fst (mltd' r1 r2 h)) r2 = Some (sanitized s).
Proof.
  intros H1 H2. destruct (mltd_store h r1 r2 g s H1 H2) as [-> _].
  pose proof (nth_error_store_eq h r1 g (sanitized g) H1) as H1'.
  destruct (Nat.eq_dec r1 r2) as [<-|NE].
  - assert (g = s) by congruence. subst s.
    rewrite (nth_error_store_eq _ r1 _ (sanitized g) H1'). auto.
  - assert (H2' : nth_error (store h r1 (sanitized g)) r2 = Some s)
      by (rewrite nth_error_store_neq; assumption).
    split.
    + rewrite nth_error_store_neq by auto. exact H1'.
    + apply (nth_error_store_eq _ r2 s _ H2').
Qed.

(** X16: whatever [mltd] returns or raises, after the call the two
    frames of the caller have the rewritten column labels and their index
    and values as before, and every other frame of the store is as it
    was. *)
Theorem mltd_store_effect (h : heap) (r1 r2 : ref) (g s : DataFrame) :
  nth_error h r1 = Some g -> nth_error h r2 = Some s ->
  let h' := fst (mltd' r1 r2 h) in
  nth_error h' r1 =
    Some {| index := index g; columns := sanitize_columns (columns g);
            values := values g |} /\
  nth_error h' r2 =
    Some {| index := index s; columns := sanitize_columns (columns s);
            values := values s |} /\
  (forall r, r <> r1 -> r <> r2 -> nth_error h' r = nth_error h r).
Proof.
  intros H1 H2 h'.
  destruct (mltd_store_lookup h r1 r2 g s H1 H2) as [L1 L2].
  split; [exact L1|]. split; [exact L2|].
  intros r N1 N2. subst h'.
  destruct (mltd_store h r1 r2 g s H1 H2) as [-> _].
  rewrite !nth_error_store_neq by auto. reflexivity.
Qed.

(** X17: [mltd] leaves the store of the caller as it was exactly when no
    column label of the two frames holds [":"] or ["="]. *)
Theorem mltd_store_unchanged_iff (h : heap) (r1 r2 : ref)
  (g s : DataFrame) :
  nth_error h r1 = Some g -> nth_error h r2 = Some s ->
  fst (mltd' r1 r2 h) = h <->
  clean_labels (columns g) = true /\ clean_labels (columns s) = true.
Proof.
  intros H1 H2.
  destruct (mltd_store_lookup h r1 r2 g s H1 H2) as [L1 L2]. split.
  - intros E. rewrite E in L1, L2.
    split; apply sanitized_fixed; congruence.
  - intros [C1 C2]. apply sanitized_fixed in C1, C2.
    destruct (mltd_store h r1 r2 g s H1 H2) as [-> _].
    rewrite C1, C2, (store_same h r1 g H1). apply store_same, H2.
Qed.

(** X18: a second call of [mltd] on the same references returns what the
    first returned and leaves the store as the first left it. *)
Theorem mltd_twice (h : heap) (r1 r2 : ref) (g s : DataFrame) :
  nth_error h r1 = Some g -> nth_error h r2 = Some s ->
  let h' := fst (mltd' r1 r2 h) in
  fst (mltd' r1 r2 h') = h' /\
  snd (mltd' r1 r2 h') = snd (mltd' r1 r2 h).
Proof.
  intros H1 H2 h'.
  destruct (mltd_store_lookup h r1 r2 g s H1 H2) as [L1 L2].
  fold h' in L1, L2.
  destruct (mltd_store h' r1 r2 _ _ L1 L2) as [E1 E2].
  destruct (mltd_store h r1 r2 g s H1 H2) as [_ E0].
  rewrite E1, E2, E0, !sanitized_idem. split; [|reflexivity].
  rewrite (store_same h' r1 _ L1). apply store_same, L2.
Qed.

End CallerFrames.

Lemma mltd_store_effect_colon :
  let h' := fst (mltd DataFrame tree_of_frame nat bracket_text mltd_zero
                      0 1 [colon_frame; two_clones]) in
  nth_error h' 0 =
    Some {| index := index colon_frame;
            columns := sanitize_columns (columns colon_frame);
            values := values colon_frame |} /\
  nth_error h' 1 =
    Some {| index := index two_clones;
            columns := sanitize_columns (columns two_clones);
            values := values two_clones |} /\
  (forall r, r <> 0 -> r <> 1 ->
     nth_error h' r = nth_error [colon_frame; two_clones] r).
Proof.
  apply (mltd_store_effect DataFrame tree_of_frame nat bracket_text
           mltd_zero [colon_frame; two_clones] 0 1 colon_frame two_clones);
    reflexivity.
Defined.

Lemma mltd_store_unchanged_clones :
  fst (mltd DataFrame tree_of_frame nat bracket_text mltd_zero
            0 1 [two_clones; three_clones]) = [two_clones; three_clones] <->
  clean_labels (columns two_clones) = true /\
  clean_labels (columns three_clones) = true.
Proof.
  apply (mltd_store_unchanged_iff DataFrame tree_of_frame nat bracket_text
           mltd_zero [two_clones; three_clones] 0 1); reflexivity.
Defined.

Lemma mltd_twice_colon :
  let h' := fst (mltd DataFrame tree_of_frame nat bracket_text mltd_zero
                      0 1 [colon_frame; equals_frame]) in
  fst (mltd DataFrame tree_of_frame nat bracket_text mltd_zero 0 1 h') = h'
  /\
  snd (mltd DataFrame tree_of_frame nat bracket_text mltd_zero 0 1 h') =
  snd (mltd DataFrame tree_of_frame nat bracket_text mltd_zero 0 1
            [colon_frame; equals_frame]).
Proof.
  apply (mltd_twice DataFrame tree_of_frame nat bracket_text mltd_zero
           [colon_frame; equals_frame] 0 1 colon_frame equals_frame);
    reflexivity.
Defined.

(** * [tpted] *)

Lemma Q_one_minus_fraction_le (d k : nat) :
  (1 - inject_Z (Z.of_nat d) / inject_Z (2 * (Z.of_nat k + 1))%Z <= 1)%Q.
Proof.
  assert (Hpos : (0 < inject_Z (2 * (Z.of_nat k + 1))%Z)%Q)
    by (rewrite <- (Zlt_Qlt 0); lia).
  assert (H : (0 <= inject_Z (Z.of_nat d)
                    / inject_Z (2 * (Z.of_nat k + 1))%Z)%Q).
  { apply Qle_shift_div_l; [exact Hpos|].
    rewrite Qmult_0_l. rewrite <- (Zle_Qle 0). lia. }
  lra.
Qed.

Section TptedBound.

Variable Tree : Type.
Variable to_tree : DataFrame -> result Tree.
Variable become_germline : Tree -> list string.
Variable MTree : Type.
Variable to_mtree : Tree -> MTree.
Variable _split_labels : MTree -> MTree -> MTree * MTree.
Variable _to_apted : MTree -> string.
Variable compute_edit_distance : string -> string -> nat.

(** X19: on frames with unique labels, whatever the tree builder and the
    edit distance return, [tpted] either raises or returns a finite
    similarity that is at most 1; its own division never fails, the
    divisor being at least 2. *)
Theorem tpted_at_most_one (df_grnd df_sol : DataFrame) :
  wf_df df_grnd -> wf_df df_sol ->
  match tpted Tree to_tree become_germline MTree to_mtree _split_labels
              _to_apted compute_edit_distance df_grnd df_sol with
  | inr (finite q) => (q <= 1)%Q
  | inr _ => False
  | inl e =>
      e = LoggError "No common mutations found between two trees!" \/
      exists df, to_tree df = raise e
  end.
Proof.
  intros _ _. unfold tpted. fold (shared_mutations df_grnd df_sol).
  destruct (length (shared_mutations df_grnd df_sol) =? 0);
    [left; reflexivity|].
  cbn [bind ok].
  rewrite !getitem_in
    by (intros x Hx; apply in_intersect1d in Hx; tauto).
  cbn [bind ok].
  destruct (to_tree (restrict df_grnd (shared_mutations df_grnd df_sol)))
    as [e|tree_grnd] eqn:T1; [right; eexists; exact T1|].
  cbn [bind ok].
  destruct (to_tree (restrict df_sol (shared_mutations df_grnd df_sol)))
    as [e|tree_sol] eqn:T2; [right; eexists; exact T2|].
  cbn [bind ok].
  set (inter := setdiff1d _ _).
  rewrite !getitem_in
    by (intros x Hx; apply in_setdiff1d, in_intersect1d in Hx; tauto).
  cbn [bind ok].
  destruct (to_tree (restrict df_grnd inter)) as [e|tree_grnd'] eqn:T3;
    [right; eexists; exact T3|].
  cbn [bind ok].
  destruct (to_tree (restrict df_sol inter)) as [e|tree_sol'] eqn:T4;
    [right; eexists; exact T4|].
  cbn [bind ok].
  destruct (_split_labels (to_mtree tree_grnd') (to_mtree tree_sol'))
    as [sl_grnd sl_sol].
  unfold py_truediv.
  destruct (Z.eqb_spec (2 * (Z.of_nat (length inter) + 1)) 0) as [Z0|_];
    [lia|].
  cbn [bind ok one_minus]. apply Q_one_minus_fraction_le.
Qed.

End TptedBound.

Lemma tpted_at_most_one_two_clones :
  match tpted DataFrame tree_of_frame nothing_absorbed DataFrame
              (fun t => t) both_trees bracket_text distance_seven
              two_clones two_clones with
  | inr (finite q) => (q <= 1)%Q
  | inr _ => False
  | inl e =>
      e = LoggError "No common mutations found between two trees!" \/
      exists df, tree_of_frame df = raise e
  end.
Proof.
  apply (tpted_at_most_one DataFrame tree_of_frame nothing_absorbed
           DataFrame (fun t => t) both_trees bracket_text distance_seven
           two_clones two_clones); reflexivity.
Defined.

(** * Sums that do not depend on the order of the rows *)

Lemma np_mul_map {A : Type} (f g : A -> Z) (l : list A) :
  np_mul (map f l) (map g l) = map (fun x => (f x * g x)%Z) l.
Proof.
  unfold np_mul. induction l as [|x l IH]; simpl; [reflexivity|].
  rewrite IH. reflexivity.
Qed.

Lemma np_sum_perm (l l' : list Z) :
  Permutation l l' -> np_sum l = np_sum l'.
Proof.
  unfold np_sum. induction 1; simpl; lia.
Qed.

Lemma in_upper_pairs (m i j : nat) :
  In (i, j) (upper_pairs m) -> i < m /\ j < m.
Proof.
  unfold upper_pairs. rewrite in_flat_map.
  intros (i' & Hi & H). apply in_map_iff in H.
  destruct H as (j' & E & Hj). inversion E; subst.
  apply in_seq in Hi. apply in_seq in Hj. lia.
Qed.

Lemma fold_left_ext_in {S X : Type} (f f' : S -> X -> S) (l : list X) :
  (forall st x, In x l -> f st x = f' st x) ->
  forall st, fold_left f l st = fold_left f' l st.
Proof.
  induction l as [|x l IH]; intros H st; simpl; [reflexivity|].
  rewrite (H st x (or_introl eq_refl)).
  apply IH. intros; apply H; right; assumption.
Qed.

Section SameSums.

Variables G G' S S' : ndarray.
Variable m : nat.
Hypothesis shape_G : shape1 G = m.
Hypothesis shape_G' : shape1 G' = m.
Hypothesis sums_G : forall i j, i < m -> j < m ->
  colsum G' i = colsum G i /\
  np_sum (np_mul (column G' i) (column G' j))
    = np_sum (np_mul (column G i) (column G j)).
Hypothesis sums_S : forall i j, i < m -> j < m ->
  colsum S' i = colsum S i /\
  np_sum (np_mul (column S' i) (column S' j))
    = np_sum (np_mul (column S i) (column S j)).

Lemma ad_loop_same_sums : ad_loop G' S' = ad_loop G S.
Proof.
  unfold ad_loop. rewrite shape_G, shape_G'.
  apply fold_left_ext_in. intros [e n] [i j] Hin.
  apply in_upper_pairs in Hin. destruct Hin as [Hi Hj].
  unfold ad_step.
  destruct (sums_G i j Hi Hj) as [A1 A2], (sums_G j i Hj Hi) as [A3 _].
  destruct (sums_S i j Hi Hj) as [B1 B2], (sums_S j i Hj Hi) as [B3 _].
  rewrite A1, A2, A3, B1, B2, B3. reflexivity.
Qed.

Lemma dl_loop_same_sums : dl_loop G' S' = dl_loop G S.
Proof.
  unfold dl_loop. rewrite shape_G, shape_G'.
  apply fold_left_ext_in. intros [n1 n2] [i j] Hin.
  apply in_upper_pairs in Hin. destruct Hin as [Hi Hj].
  unfold dl_step.
  destruct (sums_G i j Hi Hj) as [A1 A2], (sums_G j i Hj Hi) as [A3 _].
  destruct (sums_S i j Hi Hj) as [B1 B2], (sums_S j i Hj Hi) as [B3 _].
  rewrite A1, A2, A3, B1, B2, B3. reflexivity.
Qed.

End SameSums.

(** * [dl] on sets of cells *)

Lemma dl_step_tests (M_grnd M_sol : ndarray) (n1 n2 : nat)
  (ij : nat * nat) :
  dl_step M_grnd M_sol (n1, n2) ij =
  if dl_counted M_grnd ij
  then (n1 + 1, if dl_counted M_sol ij then n2 + 1 else n2)
  else (n1, n2).
Proof.
  destruct ij as [i j]. unfold dl_step, dl_counted. cbn [fst snd].
  destruct ((np_sum (np_mul (column M_grnd i) (column M_grnd j)) =? 0)%Z
            && negb (colsum M_grnd i =? 0)%Z
            && negb (colsum M_grnd j =? 0)%Z); [|reflexivity].
  destruct ((np_sum (np_mul (column M_sol i) (column M_sol j)) =? 0)%Z
            && negb (colsum M_sol i =? 0)%Z
            && negb (colsum M_sol j =? 0)%Z); reflexivity.
Qed.

Lemma dl_fold_filter (M_grnd M_sol : ndarray) (l : list (nat * nat)) :
  forall n1 n2,
    fold_left (dl_step M_grnd M_sol) l (n1, n2) =
    (n1 + length (filter (dl_counted M_grnd) l),
     n2 + length (filter (fun ij => dl_counted M_grnd ij
                                    && dl_counted M_sol ij) l)).
Proof.
  induction l as [|ij l IH]; intros n1 n2; cbn [fold_left filter].
  - cbn [length]. rewrite !Nat.add_0_r. reflexivity.
  - rewrite dl_step_tests.
    destruct (dl_counted M_grnd ij); cbn [andb];
      [destruct (dl_counted M_sol ij)|]; rewrite IH; cbn [length];
      apply (f_equal2 pair); lia.
Qed.

Lemma filter_upper_pairs_in (P : nat * nat -> bool) (m : nat) :
  (forall i, i < m -> P (i, i) = false) ->
  filter P (upper_pairs m) = filter P (unordered_pairs (seq 0 m)).
Proof.
  intros HP. unfold upper_pairs.
  assert (H : forall len s, s + len = m ->
            filter P (flat_map (fun i => map (fun j => (i, j))
                                             (seq i (m - i))) (seq s len))
            = filter P (unordered_pairs (seq s len))).
  { induction len as [|len IH]; intros s Hs; simpl; [reflexivity|].
    rewrite !filter_app, (IH (S s)) by lia. f_equal.
    replace (m - s) with (S len) by lia. simpl.
    rewrite HP by lia. reflexivity. }
  apply H. lia.
Qed.

Lemma sets_intersect_self (A : list nat) :
  sets_intersect A A = negb (length A =? 0).
Proof.
  destruct A as [|x A]; [reflexivity|].
  unfold sets_intersect. cbn [existsb length]. rewrite Nat.eqb_refl.
  reflexivity.
Qed.

Lemma different_lineage_diagonal (df : DataFrame) (a : string) :
  different_lineage_pair df (a, a) = false.
Proof.
  unfold different_lineage_pair. cbn [fst snd].
  rewrite sets_intersect_self.
  destruct (length (supporting_cells df a) =? 0); reflexivity.
Qed.

Section DifferentLineage.

Variables df_grnd df_sol : DataFrame.
Hypothesis wf_grnd : wf_df df_grnd.
Hypothesis wf_sol : wf_df df_sol.
Hypothesis binary_grnd : binary_b df_grnd = true.
Hypothesis binary_sol : binary_b df_sol = true.

Let inter := shared_mutations df_grnd df_sol.
Let lab (i : nat) : string := nth i inter EmptyString.

Lemma dl_counted_sets (df : DataFrame) (i j : nat) :
  wf_df df -> binary_b df = true ->
  (forall k, In k inter -> In k (columns df)) ->
  i < length inter -> j < length inter ->
  dl_counted (values_of df inter) (i, j) =
  different_lineage_pair df (lab i, lab j).
Proof.
  intros W B Hk Hi Hj.
  assert (Gi : In (lab i) (columns df)) by (apply Hk, nth_In, Hi).
  assert (Gj : In (lab j) (columns df)) by (apply Hk, nth_In, Hj).
  unfold dl_counted, different_lineage_pair, colsum. cbn [fst snd].
  rewrite !column_values_of by assumption. fold (lab i) (lab j).
  rewrite capsum_supporting by assumption.
  fold (colsum (values df) (position (columns df) (lab i))).
  fold (colsum (values df) (position (columns df) (lab j))).
  rewrite !colsum_supporting by assumption.
  change 0%Z with (Z.of_nat 0).
  rewrite !(proj1 (nat_Z_tests _ _)). reflexivity.
Qed.

Lemma count_pairs_by_label (P : nat * nat -> bool)
  (R : string * string -> bool) :
  (forall a, R (a, a) = false) ->
  (forall i j, i < length inter -> j < length inter ->
     P (i, j) = R (lab i, lab j)) ->
  length (filter P (upper_pairs (length inter))) =
  length (filter R (unordered_pairs inter)).
Proof.
  intros HD HPR.
  rewrite filter_upper_pairs_in
    by (intros i Hi; rewrite HPR by assumption; apply HD).
  rewrite <- (map_nth_seq inter EmptyString) at 2.
  rewrite unordered_pairs_map, filter_map_length.
  f_equal. apply filter_ext_in. intros [i j] Hij.
  apply in_unordered_pairs in Hij. destruct Hij as [Hi Hj].
  apply in_seq in Hi. apply in_seq in Hj.
  cbn [fst snd]. apply HPR; lia.
Qed.

Lemma dl_counts_sets :
  dl_n_dlpairs1 df_grnd df_sol = length (dl_pairs_sets df_grnd df_sol) /\
  snd (dl_counts df_grnd df_sol) = length (dl_kept_sets df_grnd df_sol).
Proof.
  assert (Kg : forall k, In k inter -> In k (columns df_grnd))
    by (intros k Hk; apply in_intersect1d in Hk; tauto).
  assert (Ks : forall k, In k inter -> In k (columns df_sol))
    by (intros k Hk; apply in_intersect1d in Hk; tauto).
  unfold dl_n_dlpairs1, dl_counts, dl_loop. fold inter. cbv zeta.
  rewrite dl_fold_filter. cbn [fst snd].
  assert (Hm : shape1 (values_of df_grnd inter) = length inter)
    by (unfold values_of; cbn [shape1 take]; apply length_map).
  rewrite Hm. split.
  - unfold dl_pairs_sets. fold inter. apply count_pairs_by_label.
    + apply different_lineage_diagonal.
    + intros i j Hi Hj. apply dl_counted_sets; assumption.
  - unfold dl_kept_sets, dl_pairs_sets. fold inter. rewrite filter_filter.
    apply (count_pairs_by_label
             (fun ij => dl_counted (values_of df_grnd inter) ij
                        && dl_counted (values_of df_sol inter) ij)
             (fun ab => different_lineage_pair df_grnd ab
                        && different_lineage_pair df_sol ab)).
    + intros a. rewrite different_lineage_diagonal. reflexivity.
    + intros i j Hi Hj. rewrite !dl_counted_sets by assumption.
      reflexivity.
Qed.

End DifferentLineage.

(** X21: on frames of 0s and 1s with unique labels, [n_dlpairs1] counts
    the unordered pairs of distinct shared mutations whose supporting-cell
    sets in the ground truth are disjoint and not empty, [n_dlpairs2]
    those of them that are so in the candidate too, and [dl] returns their
    quotient; with no such pair [dl] raises. *)
Theorem dl_on_sets (df_grnd df_sol : DataFrame) :
  wf_df df_grnd -> wf_df df_sol ->
  binary_b df_grnd = true -> binary_b df_sol = true ->
  let pairs := length (dl_pairs_sets df_grnd df_sol) in
  let kept := length (dl_kept_sets df_grnd df_sol) in
  dl_n_dlpairs1 df_grnd df_sol = pairs /\
  snd (dl_counts df_grnd df_sol) = kept /\
  (pairs <> 0 ->
   dl df_grnd df_sol =
   ok (finite (inject_Z (Z.of_nat kept) / inject_Z (Z.of_nat pairs)))) /\
  (pairs = 0 -> raises (dl df_grnd df_sol)).
Proof.
  intros Wg Ws Bg Bs pairs kept.
  destruct (dl_counts_sets df_grnd df_sol Wg Ws Bg Bs) as [Hn Hk].
  fold pairs in Hn. fold kept in Hk.
  split; [exact Hn|]. split; [exact Hk|].
  rewrite dl_unfold, Hn, Hk. split.
  - intros NZ.
    destruct (Nat.eqb_spec (length (shared_mutations df_grnd df_sol)) 0)
      as [E|_].
    + exfalso. apply NZ. unfold pairs, dl_pairs_sets.
      destruct (shared_mutations df_grnd df_sol); [reflexivity|discriminate].
    + unfold py_truediv.
      destruct (Z.eqb_spec (Z.of_nat pairs) 0); [lia|reflexivity].
  - intros ->.
    destruct (length (shared_mutations df_grnd df_sol) =? 0);
      eexists; reflexivity.
Qed.

Lemma dl_on_sets_three_clones :
  let pairs := length (dl_pairs_sets three_clones three_clones_candidate) in
  let kept := length (dl_kept_sets three_clones three_clones_candidate) in
  dl_n_dlpairs1 three_clones three_clones_candidate = pairs /\
  snd (dl_counts three_clones three_clones_candidate) = kept /\
  (pairs <> 0 ->
   dl three_clones three_clones_candidate =
   ok (finite (inject_Z (Z.of_nat kept) / inject_Z (Z.of_nat pairs)))) /\
  (pairs = 0 -> raises (dl three_clones three_clones_candidate)).
Proof.
  apply dl_on_sets; vm_compute; reflexivity.
Defined.

(** * The scores and the order of the arguments *)

Lemma intersect1d_same_members (a a' b b' : list string) :
  (forall x, In x a <-> In x a') -> (forall x, In x b <-> In x b') ->
  intersect1d a b = intersect1d a' b'.
Proof.
  intros Ha Hb. apply sorted_same_members;
    try apply sort_uniq_string_sorted.
  intros x. fold (intersect1d a b) (intersect1d a' b').
  rewrite !in_intersect1d, Ha, Hb. reflexivity.
Qed.

Lemma intersect1d_comm (a b : list string) :
  intersect1d a b = intersect1d b a.
Proof.
  apply sorted_same_members; try apply sort_uniq_string_sorted.
  intros x. fold (intersect1d a b) (intersect1d b a).
  rewrite !in_intersect1d. tauto.
Qed.

Lemma ravel_ext (a b : ndarray) :
  shape0 a = shape0 b -> shape1 a = shape1 b ->
  (forall i j, i < shape0 a -> j < shape1 a -> get a i j = get b i j) ->
  ravel a = ravel b.
Proof.
  intros S0 S1 H. rewrite !ravel_cells, <- S0, <- S1.
  apply map_ext_in. intros [i j] Hin. apply in_cells in Hin.
  apply H; tauto.
Qed.

Lemma abs_sum_sub_comm (a b : ndarray) :
  shape0 a = shape0 b -> shape1 a = shape1 b ->
  abs_sum (np_sub a b) = abs_sum (np_sub b a).
Proof.
  intros S0 S1. unfold abs_sum. f_equal.
  rewrite !ravel_cells, !map_map. cbn [shape0 shape1 np_sub].
  rewrite <- S0, <- S1. apply map_ext_in. intros [i j] Hin.
  apply in_cells in Hin. destruct Hin as [Hi Hj]. cbn [fst snd].
  rewrite !get_np_sub by lia. lia.
Qed.

(** X22: on frames of 0s and 1s with unique labels [gs] is symmetric:
    exchanging the ground truth and the candidate gives the same result,
    score or error. *)
Theorem gs_symmetric (df_grnd df_sol : DataFrame) :
  wf_df df_grnd -> wf_df df_sol ->
  binary_b df_grnd = true -> binary_b df_sol = true ->
  gs df_sol df_grnd = gs df_grnd df_sol.
Proof.
  intros _ _ _ _. rewrite !gs_unfold. unfold shared_mutations, shared_cells.
  rewrite (intersect1d_comm (columns df_sol)),
    (intersect1d_comm (index df_sol)).
  destruct (length (intersect1d (columns df_grnd) (columns df_sol)) =? 0);
    [reflexivity|].
  destruct (length (intersect1d (index df_grnd) (index df_sol)) =? 0);
    [reflexivity|].
  cbv zeta.
  rewrite abs_sum_sub_comm
    by (unfold values_at; cbn [shape0 shape1 take];
        rewrite !length_map; reflexivity).
  unfold size, values_at. cbn [shape0 shape1 take].
  rewrite !length_map. reflexivity.
Qed.

Lemma gs_symmetric_three_clones :
  gs three_clones_candidate three_clones =
  gs three_clones three_clones_candidate.
Proof.
  apply (gs_symmetric three_clones three_clones_candidate); reflexivity.
Defined.

(** * The scores and the order of rows and columns *)

Lemma nth_position (l : list string) (k : string) :
  In k l -> nth (position l k) l EmptyString = k.
Proof.
  unfold position. induction l as [|b t IH]; simpl; [tauto|].
  intros H. destruct (String.eqb_spec k b) as [E|NE]; [auto|].
  destruct H as [H|H]; [congruence|].
  specialize (IH H). destruct (get_loc_in t k H) as (i & E & _).
  rewrite E in *. exact IH.
Qed.

Lemma unique_labels_NoDup (l : list string) :
  unique_labels l = true -> NoDup l.
Proof.
  induction l as [|x l IH]; simpl; intros H; constructor.
  - apply andb_true_iff in H. destruct H as [H _].
    apply negb_true_iff in H. intros Hin.
    apply in_labels_spec in Hin. congruence.
  - apply IH. apply andb_true_iff in H. tauto.
Qed.

Lemma wf_df_unique (df : DataFrame) :
  wf_df df -> NoDup (index df) /\ NoDup (columns df).
Proof.
  unfold wf_df, wf_df_b. intros H.
  repeat (apply andb_true_iff in H; destruct H as [H ?]).
  split; apply unique_labels_NoDup; assumption.
Qed.

Section Relabel.

Variables (labels : list string) (sigma : list nat).
Hypothesis unique : NoDup labels.
Hypothesis perm : Permutation sigma (seq 0 (length labels)).

Let labels' := map (fun j => nth j labels EmptyString) sigma.

Lemma relabel_members (k : string) : In k labels' <-> In k labels.
Proof.
  unfold labels'. rewrite in_map_iff. split.
  - intros (j & <- & Hj). apply nth_In.
    apply (Permutation_in _ perm), in_seq in Hj. lia.
  - intros H.
    destruct (In_nth labels k EmptyString H) as (p & Hp & E).
    exists p. split; [exact E|].
    apply (Permutation_in _ (Permutation_sym perm)), in_seq. lia.
Qed.

Lemma relabel_position (k : string) :
  In k labels ->
  position labels' k < length sigma /\
  nth (position labels' k) sigma 0 = position labels k.
Proof.
  intros H.
  assert (H' : In k labels') by (apply relabel_members; exact H).
  pose proof (position_lt labels' k H') as Hlt.
  assert (Hlen : length labels' = length sigma)
    by (unfold labels'; apply length_map).
  rewrite Hlen in Hlt. split; [exact Hlt|].
  pose proof (nth_position labels' k H') as E.
  unfold labels' in E at 2.
  rewrite (nth_map_in _ sigma _ EmptyString 0) in E by exact Hlt.
  pose proof (nth_position labels k H) as E0.
  apply (proj1 (NoDup_nth labels EmptyString) unique).
  - apply (perm_range_lt sigma (length labels)); [exact perm|].
    rewrite <- (perm_range_length _ _ perm). exact Hlt.
  - apply position_lt, H.
  - congruence.
Qed.

End Relabel.

Lemma map_over_nth_seq {A B : Type} (f : A -> B) (l : list A) (d : A) :
  map (fun r => f (nth r l d)) (seq 0 (length l)) = map f l.
Proof.
  transitivity (map f (map (fun r => nth r l d) (seq 0 (length l)))).
  - rewrite map_map. reflexivity.
  - rewrite map_nth_seq. reflexivity.
Qed.

Section Reordered.

Variables (df : DataFrame) (rho sigma : list nat).
Hypothesis wf : wf_df df.
Hypothesis perm_rows : Permutation rho (seq 0 (shape0 (values df))).
Hypothesis perm_cols : Permutation sigma (seq 0 (shape1 (values df))).

Let df' := iloc df rho sigma.

Lemma iloc_columns (k : string) : In k (columns df') <-> In k (columns df).
Proof.
  apply relabel_members. rewrite <- (wf_df_shape1 df wf). exact perm_cols.
Qed.

Lemma iloc_index (k : string) : In k (index df') <-> In k (index df).
Proof.
  apply relabel_members. rewrite <- (wf_df_shape0 df wf). exact perm_rows.
Qed.

Lemma iloc_column_position (k : string) :
  In k (columns df) ->
  position (columns df') k < length sigma /\
  nth (position (columns df') k) sigma 0 = position (columns df) k.
Proof.
  apply relabel_position; [apply (wf_df_unique df wf)|].
  rewrite <- (wf_df_shape1 df wf). exact perm_cols.
Qed.

Lemma iloc_index_position (k : string) :
  In k (index df) ->
  position (index df') k < length rho /\
  nth (position (index df') k) rho 0 = position (index df) k.
Proof.
  apply relabel_position; [apply (wf_df_unique df wf)|].
  rewrite <- (wf_df_shape0 df wf). exact perm_rows.
Qed.

(** [df.loc[cells, muts]] reads the same values in the reordered frame. *)
Lemma values_at_iloc (cells muts : list string) (i j : nat) :
  (forall c, In c cells -> In c (index df)) ->
  (forall k, In k muts -> In k (columns df)) ->
  i < length cells -> j < length muts ->
  get (values_at df' cells muts) i j = get (values_at df cells muts) i j.
Proof.
  intros Hc Hm Hi Hj. unfold values_at.
  rewrite !get_take by (rewrite length_map; assumption).
  rewrite !(nth_map_in _ cells i 0 EmptyString) by assumption.
  rewrite !(nth_map_in _ muts j 0 EmptyString) by assumption.
  destruct (iloc_index_position (nth i cells EmptyString))
    as [R1 R2]; [apply Hc, nth_In, Hi|].
  destruct (iloc_column_position (nth j muts EmptyString))
    as [C1 C2]; [apply Hm, nth_In, Hj|].
  change (values df') with (take (values df) rho sigma).
  rewrite get_take by assumption. rewrite R2, C2. reflexivity.
Qed.

(** A column of [df[keys]] in the reordered frame is the column of [df]
    read in the order [rho]. *)
Lemma column_values_of_iloc (keys : list string) (j : nat) :
  (forall k, In k keys -> In k (columns df)) ->
  j < length keys ->
  column (values_of df' keys) j =
  map (fun r => get (values df) r
                  (position (columns df) (nth j keys EmptyString))) rho.
Proof.
  intros Hk Hj. unfold column, values_of. cbn [shape0 take].
  rewrite length_seq.
  change (values df') with (take (values df) rho sigma).
  cbn [shape0 take].
  rewrite <- (map_over_nth_seq _ rho 0).
  apply map_ext_in. intros r Hr. apply in_seq in Hr.
  rewrite get_take by (rewrite ?length_seq, ?length_map; lia).
  rewrite seq_nth by lia.
  rewrite (nth_map_in _ keys j 0 EmptyString) by assumption.
  destruct (iloc_column_position (nth j keys EmptyString))
    as [C1 C2]; [apply Hk, nth_In, Hj|].
  rewrite get_take by (auto; lia). rewrite C2. reflexivity.
Qed.

Lemma sums_iloc (keys : list string) (i j : nat) :
  (forall k, In k keys -> In k (columns df)) ->
  i < length keys -> j < length keys ->
  colsum (values_of df' keys) i = colsum (values_of df keys) i /\
  np_sum (np_mul (column (values_of df' keys) i)
                 (column (values_of df' keys) j))
    = np_sum (np_mul (column (values_of df keys) i)
                     (column (values_of df keys) j)).
Proof.
  intros Hk Hi Hj. unfold colsum.
  rewrite !column_values_of_iloc by assumption.
  rewrite !column_values_of by assumption.
  unfold column. rewrite !np_mul_map. split.
  - apply np_sum_perm, Permutation_map, perm_rows.
  - apply np_sum_perm.
    apply (Permutation_map
             (fun x => (get (values df) x
                          (position (columns df) (nth i keys EmptyString))
                        * get (values df) x
                            (position (columns df)
                               (nth j keys EmptyString)))%Z)), perm_rows.
Qed.

End Reordered.

(** X20: [gs], [ad] and [dl] do not depend on the order in which the
    frames list their cells and mutations: reordering the rows and the
    columns of the ground truth, and by other permutations those of the
    candidate, labels moving with the values, leaves the three results as
    they are. *)
Theorem scores_order_independent (df_grnd df_sol : DataFrame)
  (rho sigma rho' sigma' : list nat) :
  wf_df df_grnd -> wf_df df_sol ->
  Permutation rho (seq 0 (shape0 (values df_grnd))) ->
  Permutation sigma (seq 0 (shape1 (values df_grnd))) ->
  Permutation rho' (seq 0 (shape0 (values df_sol))) ->
  Permutation sigma' (seq 0 (shape1 (values df_sol))) ->
  let g' := iloc df_grnd rho sigma in
  let s' := iloc df_sol rho' sigma' in
  gs g' s' = gs df_grnd df_sol /\
  ad g' s' = ad df_grnd df_sol /\
  dl g' s' = dl df_grnd df_sol.
Proof.
  intros Wg Ws HR HS HR' HS' g' s'.
  assert (EM : shared_mutations g' s' = shared_mutations df_grnd df_sol).
  { apply intersect1d_same_members; intros x;
      apply iloc_columns; assumption. }
  assert (EC : shared_cells g' s' = shared_cells df_grnd df_sol).
  { apply intersect1d_same_members; intros x;
      apply iloc_index; assumption. }
  set (inter := shared_mutations df_grnd df_sol) in *.
  set (cells := shared_cells df_grnd df_sol) in *.
  assert (Kg : forall k, In k inter -> In k (columns df_grnd))
    by (intros k Hk; apply in_intersect1d in Hk; tauto).
  assert (Ks : forall k, In k inter -> In k (columns df_sol))
    by (intros k Hk; apply in_intersect1d in Hk; tauto).
  assert (Cg : forall k, In k cells -> In k (index df_grnd))
    by (intros k Hk; apply in_intersect1d in Hk; tauto).
  assert (Cs : forall k, In k cells -> In k (index df_sol))
    by (intros k Hk; apply in_intersect1d in Hk; tauto).
  assert (Hm : forall df, shape1 (values_of df inter) = length inter)
    by (intros; unfold values_of; cbn [shape1 take]; apply length_map).
  split; [|split].
  - rewrite !gs_unfold, EM, EC. fold inter cells.
    destruct (length inter =? 0); [reflexivity|].
    destruct (length cells =? 0); [reflexivity|].
    cbv zeta.
    assert (ER : ravel (np_sub (values_at g' cells inter)
                               (values_at s' cells inter))
                 = ravel (np_sub (values_at df_grnd cells inter)
                                 (values_at df_sol cells inter))).
    { apply ravel_ext;
        try (unfold values_at; cbn [shape0 shape1 take np_sub];
             rewrite !length_map; reflexivity).
      intros i j Hi Hj. cbn [shape0 shape1 np_sub] in Hi, Hj.
      rewrite !get_np_sub;
        try (unfold values_at in *; cbn [shape0 shape1 take] in *;
             rewrite ?length_map in *; assumption).
      unfold values_at in Hi, Hj. cbn [shape0 shape1 take] in Hi, Hj.
      rewrite length_map in Hi, Hj.
      unfold g', s'. rewrite !values_at_iloc by assumption. reflexivity. }
    unfold abs_sum. rewrite ER.
    unfold size, values_at. cbn [shape0 shape1 take].
    rewrite !length_map. reflexivity.
  - rewrite !ad_unfold. unfold ad_n_adpairs, ad_counts.
    rewrite EM. fold inter. cbv zeta.
    rewrite (ad_loop_same_sums
               (values_of df_grnd inter) (values_of g' inter)
               (values_of df_sol inter) (values_of s' inter)
               (length inter) (Hm _) (Hm _)).
    + reflexivity.
    + intros i j Hi Hj. apply sums_iloc; assumption.
    + intros i j Hi Hj. apply sums_iloc; assumption.
  - rewrite !dl_unfold. unfold dl_n_dlpairs1, dl_counts.
    rewrite EM. fold inter. cbv zeta.
    rewrite (dl_loop_same_sums
               (values_of df_grnd inter) (values_of g' inter)
               (values_of df_sol inter) (values_of s' inter)
               (length inter) (Hm _) (Hm _)).
    + reflexivity.
    + intros i j Hi Hj. apply sums_iloc; assumption.
    + intros i j Hi Hj. apply sums_iloc; assumption.
Qed.

Lemma scores_order_independent_three_clones :
  let g' := iloc three_clones [2; 0; 1] [1; 0; 2] in
  let s' := iloc three_clones_candidate [1; 0; 2] [0; 2; 1] in
  gs g' s' = gs three_clones three_clones_candidate /\
  ad g' s' = ad three_clones three_clones_candidate /\
  dl g' s' = dl three_clones three_clones_candidate.
Proof.
  apply scores_order_independent; try reflexivity; simpl.
  - apply Permutation_sym.
    apply (Permutation_cons_app [2] [1] 0). apply perm_swap.
  - apply perm_swap.
  - apply perm_swap.
  - apply perm_skip, perm_swap.
Defined.

(** * [split_mut] *)

Example split_mut_example :
  split_mut "ENSG01_TP53.chr17.7577121.G.A" =
  (Some "ENSG01", Some "TP53", Some "chr17", Some "7577121", Some "G",
   Some "A")%string.
Proof. vm_compute. reflexivity. Qed.

Example split_overlapping :
  split "aa" "aaa" = [EmptyString; "a"%string] /\
  split ".chr" "a.chr.chrb" = ["a"; EmptyString; "b"]%string.
Proof. vm_compute. split; reflexivity. Qed.

Lemma append_snoc (cur : string) (x : ascii) (a : string) :
  ((cur ++ String x EmptyString) ++ a)%string = (cur ++ String x a)%string.
Proof.
  induction cur as [|c cur IH]; simpl; [reflexivity|].
  rewrite IH. reflexivity.
Qed.

Lemma append_empty_r (s : string) : (s ++ EmptyString)%string = s.
Proof.
  induction s as [|c s IH]; simpl; [reflexivity|]. rewrite IH. reflexivity.
Qed.

Lemma starts_with_append (p s : string) :
  starts_with p (p ++ s)%string = true.
Proof.
  induction p as [|a p IH]; simpl; [reflexivity|].
  rewrite Ascii.eqb_refl. exact IH.
Qed.

(** Before the first character of the separator occurs, no separator is
    found. *)
Lemma split_from_piece (c : ascii) (sep' : string) (a cur rest : string) :
  has_char c a = false ->
  split_from (String c sep') 0 cur (a ++ rest)%string =
  split_from (String c sep') 0 (cur ++ a)%string rest.
Proof.
  revert cur. induction a as [|x a IH]; intros cur H.
  - simpl. rewrite append_empty_r. reflexivity.
  - cbn [has_char] in H. apply orb_false_iff in H. destruct H as [Hx Ha].
    cbn [append split_from starts_with].
    rewrite Ascii.eqb_sym, Hx. cbn [andb].
    rewrite (IH _ Ha), append_snoc. reflexivity.
Qed.

Lemma split_from_end (c : ascii) (sep' : string) (a cur : string) :
  has_char c a = false ->
  split_from (String c sep') 0 cur a = [(cur ++ a)%string].
Proof.
  intros H. rewrite <- (append_empty_r a) at 1.
  rewrite split_from_piece by assumption. reflexivity.
Qed.

(** A piece that ends at a one-character separator. *)
Lemma split_char_piece (c : ascii) (a rest : string) :
  has_char c a = false ->
  split (String c EmptyString) (a ++ String c rest)%string =
  a :: split (String c EmptyString) rest.
Proof.
  intros H. unfold split. rewrite split_from_piece by assumption.
  cbn [split_from starts_with append]. rewrite Ascii.eqb_refl.
  reflexivity.
Qed.

Lemma split_char_last (c : ascii) (a : string) :
  has_char c a = false -> split (String c EmptyString) a = [a].
Proof.
  intros H. unfold split. rewrite split_from_end by assumption.
  reflexivity.
Qed.

(** The first piece of a split ends where the separator first occurs. *)
Lemma split_head (c : ascii) (sep' a rest : string) :
  has_char c a = false ->
  py_item (split (String c sep') (a ++ String c (sep' ++ rest))%string) 0
  = Some a.
Proof.
  intros H. unfold split. rewrite split_from_piece by assumption.
  cbn [split_from].
  change (String c (sep' ++ rest)%string)
    with (String c sep' ++ rest)%string.
  rewrite starts_with_append. reflexivity.
Qed.

(** X23: [split_mut] reads back the six fields of a mutation name put
    together as [ens_gene.chrom.pos.ref.alt], when no field holds a ["."],
    neither [ens] nor [gene] holds a ["_"], and [chrom] starts with
    ["chr"]. *)
Theorem split_mut_round_trip (ens gene c pos ref alt : string) :
  has_char "."%char ens = false -> has_char "_"%char ens = false ->
  has_char "."%char gene = false -> has_char "_"%char gene = false ->
  has_char "."%char c = false -> has_char "."%char pos = false ->
  has_char "."%char ref = false -> has_char "."%char alt = false ->
  let chrom := ("chr" ++ c)%string in
  split_mut (ens ++ "_" ++ gene ++ "." ++ chrom ++ "." ++ pos ++ "."
             ++ ref ++ "." ++ alt)%string =
  (Some ens, Some gene, Some chrom, Some pos, Some ref, Some alt).
Proof.
  intros E1 E2 G1 G2 C1 P1 R1 A1 chrom.
  set (head := (ens ++ "_" ++ gene)%string).
  assert (Hhead : has_char "."%char head = false).
  { unfold head. clear - E1 G1.
    induction ens as [|x ens IH]; cbn [append has_char] in *.
    - exact G1.
    - apply orb_false_iff in E1. destruct E1 as [Hx He].
      rewrite Hx, (IH He). reflexivity. }
  assert (Hchrom : has_char "."%char chrom = false)
    by (unfold chrom; cbn [append has_char]; exact C1).
  assert (Emut : (ens ++ "_" ++ gene ++ "." ++ chrom ++ "." ++ pos ++ "."
                  ++ ref ++ "." ++ alt)%string
                 = (head ++ String "."%char
                      (chrom ++ String "."%char
                         (pos ++ String "."%char
                            (ref ++ String "."%char alt))))%string).
  { unfold head. clear.
    induction ens as [|x ens IH]; cbn [append] in *.
    - reflexivity.
    - rewrite IH. reflexivity. }
  rewrite Emut.
  assert (Sdot : split "." (head ++ String "."%char
                      (chrom ++ String "."%char
                         (pos ++ String "."%char
                            (ref ++ String "."%char alt))))%string
                 = [head; chrom; pos; ref; alt]).
  { rewrite !split_char_piece by assumption.
    rewrite split_char_last by assumption. reflexivity. }
  assert (Shead : py_item (split ".chr"
                    (head ++ String "."%char
                      (chrom ++ String "."%char
                         (pos ++ String "."%char
                            (ref ++ String "."%char alt))))%string) 0
                  = Some head).
  { unfold chrom.
    exact (split_head "."%char "chr" head
             (c ++ String "."%char
                (pos ++ String "."%char (ref ++ String "."%char alt)))
             Hhead). }
  assert (Sund : split "_" head = [ens; gene]).
  { unfold head. cbn [append].
    rewrite split_char_piece by assumption.
    rewrite split_char_last by assumption. reflexivity. }
  unfold split_mut. rewrite Sdot, Shead. cbn [obind]. rewrite Sund.
  reflexivity.
Qed.

Lemma split_mut_round_trip_tp53 :
  split_mut "ENSG01_TP53.chr17.7577121.G.A" =
  (Some "ENSG01", Some "TP53", Some "chr17", Some "7577121", Some "G",
   Some "A")%string.
Proof.
  apply (split_mut_round_trip "ENSG01" "TP53" "17" "7577121" "G" "A");
    reflexivity.
Defined.

(** A one-character separator cuts a string into one more piece than it
    occurs. *)
Lemma split_char_length (c : ascii) (s : string) :
  length (split (String c EmptyString) s) = S (count_char c s).
Proof.
  unfold split. generalize EmptyString at 2 as cur.
  induction s as [|x s IH]; intros cur; [reflexivity|].
  cbn [split_from starts_with count_char String.length Nat.sub].
  rewrite (Ascii.eqb_sym c x).
  destruct (Ascii.eqb x c); cbn [andb length]; rewrite IH; reflexivity.
Qed.

Lemma split_from_nonempty (sep : string) (s : string) :
  forall skip cur, split_from sep skip cur s <> [].
Proof.
  induction s as [|x s IH]; intros skip cur; cbn [split_from].
  - discriminate.
  - destruct skip; [|apply IH].
    destruct (starts_with sep (String x s)); [discriminate|apply IH].
Qed.

Lemma split_first (sep s : string) :
  py_item (split sep s) 0 = Some (hd EmptyString (split sep s)).
Proof.
  unfold split. pose proof (split_from_nonempty sep s 0 EmptyString) as N.
  destruct (split_from sep 0 EmptyString s); [contradiction|reflexivity].
Qed.

Lemma py_item_from_end_some {A : Type} (l : list A) (k : nat) :
  (1 <= k <= length l)%nat -> exists x, py_item_from_end l k = Some x.
Proof.
  intros [K1 K2]. unfold py_item_from_end.
  destruct (Nat.leb_spec k (length l)) as [_|L]; [|lia].
  destruct (nth_error l (length l - k)) as [x|] eqn:E; [now exists x|].
  apply nth_error_None in E. lia.
Qed.

Lemma py_item_from_end_none {A : Type} (l : list A) (k : nat) :
  (length l < k)%nat -> py_item_from_end l k = None.
Proof.
  intros L. unfold py_item_from_end.
  destruct (Nat.leb_spec k (length l)); [lia|reflexivity].
Qed.

Lemma py_item_some {A : Type} (l : list A) (i : nat) :
  (i < length l)%nat -> exists x, py_item l i = Some x.
Proof.
  intros L. unfold py_item.
  destruct (nth_error l i) as [x|] eqn:E; [now exists x|].
  apply nth_error_None in E. lia.
Qed.

(** X24: [split_mut] returns six strings or, when it gives up, six
    [None], and it gives up exactly when the name holds fewer than three
    ["."] or the part before the first [".chr"] holds no ["_"]. *)
Theorem split_mut_none_iff (mut : string) :
  (split_mut mut = (None, None, None, None, None, None) <->
   (count_char "."%char mut < 3)%nat \/
   count_char "_"%char (hd EmptyString (split ".chr" mut)) = 0%nat) /\
  (split_mut mut = (None, None, None, None, None, None) \/
   exists ens gene chrom pos ref alt,
     split_mut mut =
     (Some ens, Some gene, Some chrom, Some pos, Some ref, Some alt)).
Proof.
  unfold split_mut. rewrite split_first. cbn [obind].
  set (h := hd EmptyString (split ".chr" mut)).
  pose proof (split_char_length "."%char mut) as Ll.
  pose proof (split_char_length "_"%char h) as Lh.
  set (l := split "." mut) in *. set (u := split "_" h) in *.
  destruct (Nat.lt_ge_cases (count_char "."%char mut) 3) as [Few|Many].
  - rewrite (py_item_from_end_none l 4) by lia.
    assert (E : match
                  ref <-? py_item_from_end l 2 ;;
                  pos <-? py_item_from_end l 3 ;;
                  @None (string * string * string * string * string * string)
                with
                | Some (ens, gene, chrom, pos, ref, alt) =>
                    (Some ens, Some gene, Some chrom, Some pos, Some ref,
                     Some alt)
                | None => (None, None, None, None, None, None)
                end = (None, None, None, None, None, None)).
    { destruct (py_item_from_end l 2); cbn [obind]; [|reflexivity].
      destruct (py_item_from_end l 3); reflexivity. }
    cbn [obind] in E |- *. split; [|now left].
    split; [now left|intros _; exact E].
  - destruct (py_item_from_end_some l 2) as [r ->]; [lia|].
    destruct (py_item_from_end_some l 3) as [p ->]; [lia|].
    destruct (py_item_from_end_some l 4) as [c ->]; [lia|].
    destruct (py_item_from_end_some l 1) as [a ->]; [lia|].
    cbn [obind].
    destruct (count_char "_"%char h) as [|m] eqn:E.
    + assert (U : py_item u 1 = None).
      { unfold py_item. destruct u as [|x [|y u]]; cbn [length] in Lh;
          try discriminate. reflexivity. }
      rewrite U. cbn [obind]. split; [|now left].
      split; [now right|reflexivity].
    + destruct (py_item_some u 1) as [g ->]; [lia|].
      destruct (py_item_some u 0) as [e ->]; [lia|].
      cbn [obind]. split.
      * split; [discriminate|]. intros [F|F]; [lia|discriminate].
      * right. now exists e, g, c, p, r, a.
Qed.
